(** * ch-backup: the ClickHouse control tool ([ch_backup/clickhouse/control.py])

    A shallow embedding of [ClickhouseCTL] and of the library functions it
    calls, followed by the properties of snapshot creation, enumeration and
    teardown, and of the listings and checks that go to the gateway.

    Python values are modelled as follows: [str] and [bytes] as [string]
    (a file opened in text mode is assumed to hold ASCII), [int] as [Z],
    exceptions as the type [Exn], a method of the controller as a function
    from the world (filesystem, engine, pending faults, trace of the calls
    made so far) to an outcome and a new world. *)

From Stdlib Require Import ZArith Ascii String List Lia Bool.
From stdpp Require Import base option list gmap strings.

Local Open Scope string_scope.
Local Open Scope list_scope.

(** ** Python string helpers *)

Module PyStr.

(** [s.startswith(p)] *)
Definition startswith (s p : string) : bool := String.prefix p s.

Fixpoint last_char (s : string) : option ascii :=
  match s with
  | EmptyString => None
  | String c EmptyString => Some c
  | String _ rest => last_char rest
  end.

(** [s.endswith(c)] for a one-character [c] *)
Definition endswith_char (s : string) (c : ascii) : bool :=
  match last_char s with
  | Some d => bool_decide (d = c)
  | None => false
  end.

(** [s.split(sep)] for a one-character separator: never the empty list *)
Fixpoint split_go (sep : ascii) (cur : string) (s : string) : list string :=
  match s with
  | EmptyString => [String.rev cur]
  | String c rest =>
      if bool_decide (c = sep) then String.rev cur :: split_go sep "" rest
      else split_go sep (String c cur) rest
  end.
Definition split (sep : ascii) (s : string) : list string := split_go sep "" s.

(** [sep.join(parts)] *)
Fixpoint join_with (sep : string) (parts : list string) : string :=
  match parts with
  | [] => ""
  | [p] => p
  | p :: rest => p +:+ sep +:+ join_with sep rest
  end.

(** The characters [str.isspace] accepts below 128. *)
Definition isspace (c : ascii) : bool :=
  let n := Z.of_nat (nat_of_ascii c) in
  (((9 <=? n) && (n <=? 13)) || ((28 <=? n) && (n <=? 32)))%Z.

Fixpoint lstrip (s : string) : string :=
  match s with
  | String c rest => if isspace c then lstrip rest else s
  | EmptyString => EmptyString
  end.

(** [s.strip()] *)
Definition strip (s : string) : string :=
  String.rev (lstrip (String.rev (lstrip s))).

Definition is_digit (c : ascii) : bool :=
  let n := Z.of_nat (nat_of_ascii c) in ((48 <=? n) && (n <=? 57))%Z.

(** Decimal value of a non-empty string of ASCII digits. *)
Fixpoint digits_go (acc : Z) (s : string) : option Z :=
  match s with
  | EmptyString => Some acc
  | String c rest =>
      if is_digit c then digits_go (10 * acc + (Z.of_nat (nat_of_ascii c) - 48))%Z rest
      else None
  end.
Definition digits (s : string) : option Z :=
  match s with
  | EmptyString => None
  | _ => digits_go 0%Z s
  end.

(** [sub in s]: [sub] occurs somewhere in [s] *)
Fixpoint contains_sub (sub s : string) : bool :=
  String.prefix sub s
  || match s with
     | EmptyString => false
     | String _ rest => contains_sub sub rest
     end.

(** The whitespace [int] skips around a number written in ASCII: the
    characters of C's [isspace], fewer than [str.isspace] takes. *)
Definition is_c_space (c : ascii) : bool :=
  let n := Z.of_nat (nat_of_ascii c) in
  (((9 <=? n) && (n <=? 13)) || (n =? 32))%Z.

Fixpoint skip_c_space (s : string) : string :=
  match s with
  | String c rest => if is_c_space c then skip_c_space rest else s
  | EmptyString => EmptyString
  end.

(** The digits of a decimal literal: an underscore may stand between two
    digits, nowhere else.  [after_digit] tells whether the character before
    was a digit. *)
Fixpoint int_digits (acc : Z) (after_digit : bool) (s : string) : option Z :=
  match s with
  | EmptyString => if after_digit then Some acc else None
  | String c rest =>
      if is_digit c
      then int_digits (10 * acc + (Z.of_nat (nat_of_ascii c) - 48))%Z true rest
      else if bool_decide (c = "_"%char) && after_digit
           then int_digits acc false rest
           else None
  end.

(** [int(s)] in base 10: whitespace around, a sign, the digits *)
Definition to_int (s : string) : option Z :=
  match String.rev (skip_c_space (String.rev (skip_c_space s))) with
  | String "+" rest => int_digits 0%Z false rest
  | String "-" rest => option_map Z.opp (int_digits 0%Z false rest)
  | t => int_digits 0%Z false t
  end.

End PyStr.

(** ** [posixpath]: the part of [os.path] that touches no file *)

Module PosixPath.
Import PyStr.

Definition sep : ascii := "/"%char.

Definition isabs (p : string) : bool := startswith p "/".

(** One step of the loop of [posixpath.join]. *)
Definition join2 (path b : string) : string :=
  if startswith b "/" then b
  else if bool_decide (path = "") || endswith_char path sep then path +:+ b
  else path +:+ "/" +:+ b.

(** [os.path.join(a, *p)] *)
Definition join (a : string) (p : list string) : string := fold_left join2 p a.

(** The loop body of [posixpath.normpath]; [new_comps] is kept reversed. *)
Definition norm_step (initial_slashes : bool) (new_comps : list string) (comp : string)
  : list string :=
  if bool_decide (comp = "") || bool_decide (comp = ".") then new_comps
  else if negb (bool_decide (comp = ".."))
          || (negb initial_slashes && bool_decide (new_comps = []))
          || (match new_comps with c :: _ => bool_decide (c = "..") | [] => false end)
       then comp :: new_comps
       else match new_comps with _ :: rest => rest | [] => [] end.

Definition norm_comps (initial_slashes : bool) (path : string) : list string :=
  rev (fold_left (norm_step initial_slashes) (split sep path) []).

(** [os.path.normpath(path)] *)
Definition normpath (path : string) : string :=
  if bool_decide (path = "") then "."
  else
    let initial_slashes : nat :=
      if startswith path "/" then
        if startswith path "//" && negb (startswith path "///") then 2%nat else 1%nat
      else 0%nat in
    let comps := norm_comps (negb (bool_decide (initial_slashes = 0%nat))) path in
    let body := join_with "/" comps in
    let res := match initial_slashes with
               | 0%nat => body
               | 1%nat => "/" +:+ body
               | _ => "//" +:+ body
               end in
    if bool_decide (res = "") then "." else res.

Fixpoint commonprefix (l1 l2 : list string) : list string :=
  match l1, l2 with
  | x :: l1', y :: l2' => if bool_decide (x = y) then x :: commonprefix l1' l2' else []
  | _, _ => []
  end.

Definition nonempty_comps (p : string) : list string :=
  filter (fun x => x <> "") (split sep p).

End PosixPath.

(** ** [hashlib.md5]: RFC 1321 on 32-bit words held in [Z] *)

Module MD5.
Local Open Scope Z_scope.

Definition mask32 : Z := 0xffffffff.
Definition add32 (a b : Z) : Z := Z.land (a + b) mask32.
Definition not32 (a : Z) : Z := Z.lxor a mask32.
Definition rotl32 (x c : Z) : Z :=
  Z.land (Z.lor (Z.shiftl x c) (Z.shiftr x (32 - c))) mask32.

Definition shifts : list Z :=
  [7; 12; 17; 22; 7; 12; 17; 22; 7; 12; 17; 22; 7; 12; 17; 22;
   5; 9; 14; 20; 5; 9; 14; 20; 5; 9; 14; 20; 5; 9; 14; 20;
   4; 11; 16; 23; 4; 11; 16; 23; 4; 11; 16; 23; 4; 11; 16; 23;
   6; 10; 15; 21; 6; 10; 15; 21; 6; 10; 15; 21; 6; 10; 15; 21].

Definition sines : list Z :=
  [
   0xd76aa478; 0xe8c7b756; 0x242070db; 0xc1bdceee;
   0xf57c0faf; 0x4787c62a; 0xa8304613; 0xfd469501;
   0x698098d8; 0x8b44f7af; 0xffff5bb1; 0x895cd7be;
   0x6b901122; 0xfd987193; 0xa679438e; 0x49b40821;
   0xf61e2562; 0xc040b340; 0x265e5a51; 0xe9b6c7aa;
   0xd62f105d; 0x02441453; 0xd8a1e681; 0xe7d3fbc8;
   0x21e1cde6; 0xc33707d6; 0xf4d50d87; 0x455a14ed;
   0xa9e3e905; 0xfcefa3f8; 0x676f02d9; 0x8d2a4c8a;
   0xfffa3942; 0x8771f681; 0x6d9d6122; 0xfde5380c;
   0xa4beea44; 0x4bdecfa9; 0xf6bb4b60; 0xbebfbc70;
   0x289b7ec6; 0xeaa127fa; 0xd4ef3085; 0x04881d05;
   0xd9d4d039; 0xe6db99e5; 0x1fa27cf8; 0xc4ac5665;
   0xf4292244; 0x432aff97; 0xab9423a7; 0xfc93a039;
   0x655b59c3; 0x8f0ccc92; 0xffeff47d; 0x85845dd1;
   0x6fa87e4f; 0xfe2ce6e0; 0xa3014314; 0x4e0811a1;
   0xf7537e82; 0xbd3af235; 0x2ad7d2bb; 0xeb86d391].

Definition byte_val (c : ascii) : Z := Z.of_nat (nat_of_ascii c).

(** [n] as [k] little-endian bytes *)
Fixpoint le_bytes (k : nat) (n : Z) : list Z :=
  match k with
  | O => []
  | S k' => Z.land n 0xff :: le_bytes k' (Z.shiftr n 8)
  end.

Fixpoint le_word (bs : list Z) : Z :=
  match bs with
  | [] => 0
  | b :: rest => Z.lor b (Z.shiftl (le_word rest) 8)
  end.

(** The message, a one bit, zeros up to 56 modulo 64, the bit length. *)
Definition pad (msg : list Z) : list Z :=
  let len := Z.of_nat (length msg) in
  let zeros := Z.to_nat ((55 - len) mod 64) in
  (msg ++ [0x80] ++ repeat 0 zeros ++ le_bytes 8 (Z.land (8 * len) 0xffffffffffffffff))%list.

Fixpoint words (n : nat) (bs : list Z) : list Z :=
  match n with
  | O => []
  | S n' => le_word (take 4 bs) :: words n' (drop 4 bs)
  end.

Record state := State { sa : Z; sb : Z; sc : Z; sd : Z }.

Definition init : state :=
  State 0x67452301 0xefcdab89 0x98badcfe 0x10325476.

Definition round (m : list Z) (st : state) (i : nat) : state :=
  let '(State a b c d) := st in
  let iz := Z.of_nat i in
  let '(f, g) :=
    if iz <? 16 then (Z.lor (Z.land b c) (Z.land (not32 b) d), iz)
    else if iz <? 32 then (Z.lor (Z.land d b) (Z.land (not32 d) c), (5 * iz + 1) mod 16)
    else if iz <? 48 then (Z.lxor (Z.lxor b c) d, (3 * iz + 5) mod 16)
    else (Z.lxor c (Z.lor b (not32 d)), (7 * iz) mod 16) in
  let f' := add32 (add32 (add32 f a) (nth i sines 0)) (nth (Z.to_nat g) m 0) in
  State d (add32 b (rotl32 f' (nth i shifts 0))) b c.

Definition block (st : state) (chunk : list Z) : state :=
  let m := words 16 chunk in
  let '(State a b c d) := fold_left (round m) (seq 0 64) st in
  State (add32 (sa st) a) (add32 (sb st) b) (add32 (sc st) c) (add32 (sd st) d).

Fixpoint blocks (n : nat) (st : state) (bs : list Z) : state :=
  match n with
  | O => st
  | S n' => blocks n' (block st (take 64 bs)) (drop 64 bs)
  end.

Definition digest (msg : string) : list Z :=
  let bs := pad (map byte_val (list_ascii_of_string msg)) in
  let '(State a b c d) := blocks (length bs / 64) init bs in
  (le_bytes 4 a ++ le_bytes 4 b ++ le_bytes 4 c ++ le_bytes 4 d)%list.

Definition hex_digit (n : Z) : ascii :=
  ascii_of_nat (Z.to_nat (if n <? 10 then 48 + n else 87 + n)).

Fixpoint hex (bs : list Z) : string :=
  match bs with
  | [] => EmptyString
  | b :: rest => String (hex_digit (Z.shiftr b 4)) (String (hex_digit (Z.land b 0xf)) (hex rest))
  end.

(** [md5(data).hexdigest()] *)
Definition hexdigest (msg : string) : string := hex (digest msg).

End MD5.

(** ** [pkg_resources.parse_version]

    [parse_version(v)] is [packaging.version.Version(v)]: the string is
    matched against the pattern of PEP 440 (blanks around, an optional [v],
    an epoch, the release numbers, pre-, post- and development tags, a local
    part), the groups of the match are turned into numbers and names, and
    versions compare by the key [_cmpkey] makes of them.  Engine versions
    are plain release numbers ([18.16.0], [19.17.4.11]); the answer of the
    engine may end in a newline.

    A string holds characters below 256.  The numbers of a version are
    converted by [int], which every interpreter does for up to 4300 digits.
    On a string that the pattern does not match [Version] raises
    [InvalidVersion]: [parse] is [None].  (Releases of the library before
    22.0 then fell back on a legacy version, which sorts below every
    version: the comparison with a version was [False] instead.) *)

Module Version.
Import PyStr.

Fixpoint all_some {A} (l : list (option A)) : option (list A) :=
  match l with
  | [] => Some []
  | None :: _ => None
  | Some x :: rest => match all_some rest with Some xs => Some (x :: xs) | None => None end
  end.

Fixpoint drop_zeros (l : list Z) : list Z :=
  match l with
  | 0%Z :: rest => drop_zeros rest
  | _ => l
  end.

(** the release part of [_cmpkey] *)
Definition cmpkey (release : list Z) : list Z := rev (drop_zeros (rev release)).

(** [a >= b] on Python tuples of integers *)
Fixpoint tuple_ge (a b : list Z) : bool :=
  match a, b with
  | _, [] => true
  | [], _ :: _ => false
  | x :: a', y :: b' => if (x =? y)%Z then tuple_ge a' b' else (y <? x)%Z
  end.

(** *** Patterns

    A pattern takes a prefix off a string in every way it matches, in the
    order in which the backtracking matcher of [re] tries them: the first
    way that lets the rest of the pattern match is the one taken. *)
Definition Pat (A : Type) : Type := string -> list (A * string).

Definition pure {A} (a : A) : Pat A := fun s => [(a, s)].
Definition next {A B} (p : Pat A) (k : A -> Pat B) : Pat B :=
  fun s => flat_map (fun ar => k (fst ar) (snd ar)) (p s).
Definition either {A} (p q : Pat A) : Pat A := fun s => (p s ++ q s)%list.

Local Notation "x <- p ;; k" := (next p (fun x => k))
  (at level 100, p at next level, k at level 200, right associativity).

(** [p?]: with [p] first *)
Definition maybe {A} (p : Pat A) : Pat (option A) :=
  either (a <- p ;; pure (Some a)) (pure None).

(** one character of a class *)
Definition one (c : ascii -> bool) : Pat ascii :=
  fun s => match s with
           | String x r => if c x then [(x, r)] else []
           | EmptyString => []
           end.

(** [c*] for a class [c]: the longest run first *)
Fixpoint many (c : ascii -> bool) (s : string) : list (string * string) :=
  match s with
  | String x r =>
      if c x then (map (fun ar => (String x (fst ar), snd ar)) (many c r) ++ [("", s)])%list
      else [("", s)]
  | EmptyString => [("", "")]
  end.

(** [c+] *)
Definition some (c : ascii -> bool) : Pat string :=
  x <- one c ;; a <- many c ;; pure (String x a).

(** [(?:p)*] for a pattern [p] that takes at least one character: as many
    times as it goes first.  The length of the string bounds the number
    of rounds. *)
Fixpoint star_go {A} (n : nat) (p : Pat A) : Pat (list A) :=
  match n with
  | O => pure []
  | S n' => either (a <- p ;; l <- star_go n' p ;; pure (a :: l)) (pure [])
  end.
Definition star {A} (p : Pat A) : Pat (list A) :=
  fun s => star_go (String.length s) p s.

(** ASCII letters in lower case; the pattern is compiled with
    [re.IGNORECASE]. *)
Definition lower (c : ascii) : ascii :=
  let n := nat_of_ascii c in
  if ((65 <=? n) && (n <=? 90))%nat then ascii_of_nat (n + 32) else c.

Fixpoint lower_str (s : string) : string :=
  match s with
  | EmptyString => EmptyString
  | String c r => String (lower c) (lower_str r)
  end.

(** the text [w], given in lower case, in any case; what was matched *)
Fixpoint word (w : string) : Pat string :=
  fun s =>
    match w with
    | EmptyString => [("", s)]
    | String c w' =>
        match s with
        | String x r =>
            if Ascii.eqb (lower x) c
            then map (fun ar => (String x (fst ar), snd ar)) (word w' r)
            else []
        | EmptyString => []
        end
    end.

(** [(w1|w2|...)] *)
Fixpoint words (ws : list string) : Pat string :=
  match ws with
  | [] => fun _ => []
  | w :: rest => either (word w) (words rest)
  end.

(** [\s] on characters below 256 *)
Definition is_space (c : ascii) : bool :=
  let n := nat_of_ascii c in
  isspace c || (n =? 133)%nat || (n =? 160)%nat.

(** [[-_\.]] *)
Definition is_sep (c : ascii) : bool :=
  Ascii.eqb c "-" || Ascii.eqb c "_" || Ascii.eqb c ".".

(** [[a-z0-9]], in any case *)
Definition is_alnum (c : ascii) : bool :=
  let n := nat_of_ascii (lower c) in
  is_digit c || ((97 <=? n) && (n <=? 122))%nat.

(** [$]: the end of the string, or the newline before it *)
Definition at_end : Pat unit :=
  fun s => match s with
           | EmptyString => [(tt, s)]
           | String c EmptyString => if Ascii.eqb c "010" then [(tt, s)] else []
           | _ => []
           end.

(** The groups of a match of [VERSION_PATTERN] after the release: texts,
    [None] for a group that took no part. *)
Record Tail := mkTail {
  pre_l : option string; pre_n : option string;
  post_n1 : option string; post_l : option string; post_n2 : option string;
  dev_l : option string; dev_n : option string;
  local_g : option (list string)
}.

(** The groups of a match: [release_g] is the release cut at its dots,
    [local_g] the local part cut at its separators. *)
Record Groups := mkGroups {
  epoch_g : option string;
  release_g : list string;
  tail_g : Tail
}.

Definition epoch_pat : Pat string :=
  e <- some is_digit ;; _ <- word "!" ;; pure e.

Definition release_pat : Pat (list string) :=
  n <- some is_digit ;;
  l <- star (_ <- word "." ;; some is_digit) ;;
  pure (n :: l).

Definition pre_pat : Pat (string * option string) :=
  _ <- maybe (one is_sep) ;;
  l <- words ["a"; "b"; "c"; "rc"; "alpha"; "beta"; "pre"; "preview"] ;;
  _ <- maybe (one is_sep) ;;
  n <- maybe (some is_digit) ;;
  pure (l, n).

Definition post_pat : Pat (option string * option string * option string) :=
  either
    (_ <- word "-" ;; n <- some is_digit ;; pure (Some n, None, None))
    (_ <- maybe (one is_sep) ;;
     l <- words ["post"; "rev"; "r"] ;;
     _ <- maybe (one is_sep) ;;
     n <- maybe (some is_digit) ;;
     pure (None, Some l, n)).

Definition dev_pat : Pat (string * option string) :=
  _ <- maybe (one is_sep) ;;
  l <- word "dev" ;;
  _ <- maybe (one is_sep) ;;
  n <- maybe (some is_digit) ;;
  pure (l, n).

Definition local_pat : Pat (list string) :=
  _ <- word "+" ;;
  a <- some is_alnum ;;
  l <- star (_ <- one is_sep ;; some is_alnum) ;;
  pure (a :: l).

(** What may follow the release, to the end of the string. *)
Definition tail_pat : Pat Tail :=
  pre <- maybe pre_pat ;;
  post <- maybe post_pat ;;
  dev <- maybe dev_pat ;;
  loc <- maybe local_pat ;;
  _ <- many is_space ;;
  _ <- at_end ;;
  pure (mkTail (fst <$> pre) (pre ≫= snd)
          (post ≫= (fun x => fst (fst x))) (post ≫= (fun x => snd (fst x)))
          (post ≫= snd)
          (fst <$> dev) (dev ≫= snd) loc).

(** what the pattern makes of the text after the release *)
Definition tail_of (rest : string) : option Tail := fst <$> head (tail_pat rest).

(** [^\s*v?(epoch!)?release ...\s*$] *)
Definition version_pat : Pat Groups :=
  _ <- many is_space ;;
  _ <- maybe (word "v") ;;
  e <- maybe epoch_pat ;;
  r <- release_pat ;;
  t <- tail_pat ;;
  pure (mkGroups e r t).

(** [_regex.search(version)] *)
Definition search (version : string) : option Groups :=
  fst <$> head (version_pat version).

(** [int] on digits that the pattern took *)
Definition int (d : string) : Z := default 0%Z (digits d).

Definition _parse_letter_version (letter number : option string) : option (string * Z) :=
  match letter with
  | Some l =>
      let n := match number with Some d => int d | None => 0%Z end in
      let l := lower_str l in
      let l := if String.eqb l "alpha" then "a"
               else if String.eqb l "beta" then "b"
               else if existsb (String.eqb l) ["c"; "pre"; "preview"] then "rc"
               else if existsb (String.eqb l) ["rev"; "r"] then "post"
               else l in
      Some (l, n)
  | None =>
      match number with
      | Some d => Some ("post", int d)
      | None => None
      end
  end.

(** a part of the local version: a number when all of it is digits *)
Definition local_part (part : string) : Z + string :=
  match digits part with
  | Some n => inl n
  | None => inr (lower_str part)
  end.

Definition _parse_local_version (local : option (list string)) : option (list (Z + string)) :=
  map local_part <$> local.

(** A version, as [Version.__init__] takes it from the match. *)
Record t := mk {
  epoch : Z;
  release : list Z;
  pre : option (string * Z);
  post : option (string * Z);
  dev : option (string * Z);
  local : option (list (Z + string))
}.

(** the version of an epoch, release numbers and what follows them *)
Definition of_tail (epoch : Z) (release : list Z) (tl : Tail) : t :=
  mk epoch release
     (_parse_letter_version (pre_l tl) (pre_n tl))
     (_parse_letter_version (post_l tl)
        (match post_n1 tl with Some n => Some n | None => post_n2 tl end))
     (_parse_letter_version (dev_l tl) (dev_n tl))
     (_parse_local_version (local_g tl)).

Definition of_groups (g : Groups) : t :=
  of_tail (match epoch_g g with Some e => int e | None => 0%Z end)
    (map int (release_g g)) (tail_g g).

(** [Version(v)], [None] where it raises [InvalidVersion] *)
Definition parse (v : string) : option t := of_groups <$> search v.

(** [Infinity] and [NegativeInfinity] beside the values they bound *)
Inductive Ext (A : Type) : Type := NegInf | Fin (a : A) | PosInf.
Arguments NegInf {A}.
Arguments Fin {A} a.
Arguments PosInf {A}.

Definition Key : Type :=
  Z * list Z * Ext (string * Z) * Ext (string * Z) * Ext (string * Z)
  * Ext (list (Ext Z * string)).

Definition _cmpkey (v : t) : Key :=
  (epoch v,
   cmpkey (release v),
   match pre v, post v, dev v with
   | None, None, Some _ => NegInf
   | None, _, _ => PosInf
   | Some p, _, _ => Fin p
   end,
   match post v with None => NegInf | Some p => Fin p end,
   match dev v with None => PosInf | Some d => Fin d end,
   match local v with
   | None => NegInf
   | Some l => Fin (map (fun i => match i with
                                  | inl n => (Fin n, "")
                                  | inr s => (NegInf, s)
                                  end) l)
   end).

(** Python compares tuples at the first place where they differ, and by
    length when there is none; each comparison below tells which side is
    the smaller. *)
Definition then_cmp (c d : comparison) : comparison :=
  match c with Eq => d | _ => c end.

Definition cmp_ext {A} (cmp : A -> A -> comparison) (a b : Ext A) : comparison :=
  match a, b with
  | NegInf, NegInf => Eq
  | NegInf, _ => Lt
  | _, NegInf => Gt
  | PosInf, PosInf => Eq
  | PosInf, _ => Gt
  | _, PosInf => Lt
  | Fin x, Fin y => cmp x y
  end.

Fixpoint cmp_list {A} (cmp : A -> A -> comparison) (a b : list A) : comparison :=
  match a, b with
  | [], [] => Eq
  | [], _ :: _ => Lt
  | _ :: _, [] => Gt
  | x :: a', y :: b' => then_cmp (cmp x y) (cmp_list cmp a' b')
  end.

Definition cmp_letter (a b : string * Z) : comparison :=
  then_cmp (String.compare (fst a) (fst b)) (Z.compare (snd a) (snd b)).

Definition cmp_local (a b : Ext Z * string) : comparison :=
  then_cmp (cmp_ext Z.compare (fst a) (fst b)) (String.compare (snd a) (snd b)).

Definition cmp_key (a b : Key) : comparison :=
  let '(e1, r1, p1, q1, d1, l1) := a in
  let '(e2, r2, p2, q2, d2, l2) := b in
  then_cmp (Z.compare e1 e2)
    (then_cmp (cmp_list Z.compare r1 r2)
       (then_cmp (cmp_ext cmp_letter p1 p2)
          (then_cmp (cmp_ext cmp_letter q1 q2)
             (then_cmp (cmp_ext cmp_letter d1 d2)
                (cmp_ext (cmp_list cmp_local) l1 l2))))).

(** [a >= b] on versions *)
Definition ge (a b : t) : bool :=
  match cmp_key (_cmpkey a) (_cmpkey b) with
  | Lt => false
  | _ => true
  end.

End Version.

(** ** Values, exceptions and outcomes *)

(** What the client hands back: parsed JSON, or the text of the response. *)
#[warnings="-register-all"]
Inductive PyVal :=
| VStr (s : string)
| VInt (n : Z)
| VList (items : list PyVal)
| VDict (fields : list (string * PyVal)).

Inductive Errno := ENOENT | EACCES | EBUSY | EMFILE | ENOTDIR | EISDIR | ENOTEMPTY | EIO.

Inductive Exn :=
| AssertionError
| OSError (errno : Errno)
| KeyError (key : string)
| TypeError
| ValueError
| InvalidVersion
| ClientError (message : string).

Global Instance Errno_eq_dec : EqDecision Errno.
Proof. solve_decision. Defined.

(** [isinstance(e, OSError)]; [FileNotFoundError], [PermissionError] and
    [NotADirectoryError] are the subclasses of [OSError] that an [errno] of
    [ENOENT], [EACCES] and [ENOTDIR] selects. *)
Definition is_OSError (e : Exn) : bool :=
  match e with OSError _ => true | _ => false end.

Definition is_FileNotFoundError (e : Exn) : bool :=
  match e with OSError ENOENT => true | _ => false end.

Definition is_PermissionError (e : Exn) : bool :=
  match e with OSError EACCES => true | _ => false end.

Inductive Result (A : Type) :=
| Ok (a : A)
| Raise (e : Exn).
Arguments Ok {A} a.
Arguments Raise {A} e.

Definition is_ok {A} (r : Result A) : bool :=
  match r with Ok _ => true | Raise _ => false end.

(** ** Queries

    A query is a template with the values substituted for its fields,
    [TEMPLATE.format(...)].  The text of the templates is set by
    [strip_query] of [ch_backup.util]; a query is kept here as the name of
    its template and the arguments, which is all the controller decides. *)

Inductive Query :=
| GET_TABLES_ORDERED_SQL (db_name : string) (tables : list string)
| CHECK_TABLE_SQL (db_name table_name : string)
| PART_ATTACH_SQL (db_name table_name part_name : string)
| FREEZE_TABLE_SQL (db_name table_name : string)
| FREEZE_PARTITION_SQL (db_name table_name : string) (partition_name : PyVal)
| SHOW_DATABASES_SQL
| SHOW_TABLES_SQL (db_name : string)
| SHOW_CREATE_DATABASE_SQL (db_name : string)
| SHOW_CREATE_TABLE_SQL (db_name table_name : string)
| GET_TABLE_PARTITIONS_SQL (db_name table_name : string)
| GET_TABLE_DATA_PATH_SQL (db_name table_name : string)
| GET_VERSION_SQL
| RAW_SQL (query_sql : string).

(** ** The filesystem

    A tree without symbolic links, as a finite map from the list of the
    names on the way down from the root to the node found there; the root
    is the node at the empty list. *)

Record Owner := { o_user : string; o_group : string }.

Inductive Node :=
| NFile (content : string) (owner : Owner)
| NDir (st_size : Z) (owner : Owner).

Abbreviation FS := (gmap (list string) Node).

(** What happened, in order: every call that leaves the process. *)
Inductive Event :=
| EvQuery (q : Query) (r : Result PyVal)
| EvGetcwd
| EvRead (path : string) (r : Result string)
| EvExists (path : string) (r : bool)
| EvListdir (path : string) (r : Result (list string))
| EvGetsize (path : string) (r : Result Z)
| EvRmtree (path : string) (r : Result unit)
| EvChown (user group path : string) (r : Result unit)
| EvSleep.

(** The world the controller runs in.  The engine answers a query from what
    happened so far and the disk, and may change the disk (a freeze creates
    the shadow directory and advances the increment).  [rmtree_faults] are
    the failures the next calls of [shutil.rmtree] will meet, one each. *)
Record World := mkWorld {
  fs : FS;
  cwd : string;
  rmtree_faults : list Errno;
  engine : list Event -> Query -> FS -> Result PyVal * FS;
  trace : list Event
}.

Definition set_fs (w : World) (f : FS) : World :=
  mkWorld f (cwd w) (rmtree_faults w) (engine w) (trace w).
Definition set_faults (w : World) (l : list Errno) : World :=
  mkWorld (fs w) (cwd w) l (engine w) (trace w).
Definition emit (ev : Event) (w : World) : World :=
  mkWorld (fs w) (cwd w) (rmtree_faults w) (engine w) (trace w ++ [ev]).

(** ** Computations that may raise *)

Definition M (A : Type) : Type := World -> Result A * World.

Definition ret {A} (a : A) : M A := fun w => (Ok a, w).
Definition raise {A} (e : Exn) : M A := fun w => (Raise e, w).
Definition bind {A B} (m : M A) (k : A -> M B) : M B :=
  fun w => match m w with
           | (Ok a, w') => k a w'
           | (Raise e, w') => (Raise e, w')
           end.

Notation "'let*' x ':=' m 'in' k" := (bind m (fun x => k))
  (at level 10, x name, m at level 100, k at level 200).
Notation "m ;; k" := (bind m (fun _ => k))
  (at level 100, k at level 200, right associativity).

(** [assert cond], with assertions on: the interpreter is not run with
    [-O], under which the statement is compiled away and nothing is
    checked.  All that is said of the guards of [_chown_dir] and
    [_remove_shadow_data] is said of such a run. *)
Definition py_assert (cond : bool) : M unit :=
  if cond then ret tt else raise AssertionError.

(** [try: body / except E: handler], [E] given by the exceptions it catches *)
Definition try_except {A} (body : M A) (catches : Exn -> bool) (handler : M A) : M A :=
  fun w =>
    match body w with
    | (Raise e, w') => if catches e then handler w' else (Raise e, w')
    | done => done
    end.

(** [[f(x) for x in l]], left to right, stopping at the first exception *)
Fixpoint mapM {A B} (f : A -> M B) (l : list A) : M (list B) :=
  match l with
  | [] => ret []
  | x :: rest =>
      let* y := f x in
      let* ys := mapM f rest in
      ret (y :: ys)
  end.

(** ** System calls *)

Module Sys.
Import PosixPath.

(** The node a path names: relative paths start at the current directory,
    [.] and empty names are skipped, [..] goes up.  The names are worked
    out on the text of the path, before the disk is looked at; the system
    takes [..] from the directory it has reached, and so gives the same node
    whenever the names before a [..] lead to a directory, and an error
    ([ENOENT], [ENOTDIR]) when they lead nowhere or to a file.  There are no
    symbolic links on the disks modelled here. *)
Definition resolve (cwd path : string) : list string :=
  norm_comps true (if isabs path then path else join cwd [path]).

(** Going down from the node at [seen] by the names [rest]: each node on
    the way has to be there, and to be a directory when names are left. *)
Fixpoint walk (f : FS) (seen rest : list string) : Result Node :=
  match f !! seen with
  | None => Raise (OSError ENOENT)
  | Some n =>
      match rest with
      | [] => Ok n
      | x :: rest' =>
          match n with
          | NDir _ _ => walk f (seen ++ [x]) rest'
          | NFile _ _ => Raise (OSError ENOTDIR)
          end
      end
  end.

(** [os.lstat(path)], as far as the kind of node and its errors go *)
Definition stat (w : World) (path : string) : Result Node :=
  walk (fs w) [] (resolve (cwd w) path).

Fixpoint strip_prefix (d k : list string) : option (list string) :=
  match d, k with
  | [], _ => Some k
  | x :: d', y :: k' => if bool_decide (x = y) then strip_prefix d' k' else None
  | _ :: _, [] => None
  end.

(** What a directory entry can be called: not empty, not [.] or [..],
    no slash. *)
Definition valid_name (n : string) : bool :=
  negb (bool_decide (n = "")) && negb (bool_decide (n = "."))
  && negb (bool_decide (n = ".."))
  && forallb (fun c => negb (bool_decide (c = sep))) (list_ascii_of_string n).

Definition child_of (d k : list string) : option string :=
  match strip_prefix d k with
  | Some [name] => if valid_name name then Some name else None
  | _ => None
  end.

Definition children (f : FS) (d : list string) : list string :=
  omap (child_of d) (map fst (map_to_list f)).

Definition under (d k : list string) : bool := bool_decide (is_Some (strip_prefix d k)).

Definition strictly_under (d k : list string) : bool :=
  match strip_prefix d k with
  | Some (_ :: _) => true
  | _ => false
  end.

Definition set_owner (o : Owner) (n : Node) : Node :=
  match n with
  | NFile c _ => NFile c o
  | NDir s _ => NDir s o
  end.

Definition getcwd : M string :=
  fun w => (Ok (cwd w), emit EvGetcwd w).

(** [open(path).read()] *)
Definition read (path : string) : M string :=
  fun w =>
    let r := match stat w path with
             | Ok (NFile c _) => Ok c
             | Ok (NDir _ _) => Raise (OSError EISDIR)
             | Raise e => Raise e
             end in
    (r, emit (EvRead path r) w).

(** [os.path.exists(path)]: false on any error *)
Definition exists_ (path : string) : M bool :=
  fun w =>
    let r := is_ok (stat w path) in
    (Ok r, emit (EvExists path r) w).

(** [os.listdir(path)] *)
Definition listdir (path : string) : M (list string) :=
  fun w =>
    let r := match stat w path with
             | Ok (NDir _ _) => Ok (children (fs w) (resolve (cwd w) path))
             | Ok (NFile _ _) => Raise (OSError ENOTDIR)
             | Raise e => Raise e
             end in
    (r, emit (EvListdir path r) w).

(** [os.path.getsize(path)] *)
Definition getsize (path : string) : M Z :=
  fun w =>
    let r := match stat w path with
             | Ok (NFile c _) => Ok (Z.of_nat (String.length c))
             | Ok (NDir s _) => Ok s
             | Raise e => Raise e
             end in
    (r, emit (EvGetsize path r) w).

(** [shutil.rmtree(path)]: a pending fault makes the call fail and leaves
    the tree as it was; otherwise the directory goes with all below it. *)
Definition rmtree (path : string) : M unit :=
  fun w =>
    match rmtree_faults w with
    | e :: rest =>
        let r := Raise (OSError e) in
        (r, emit (EvRmtree path r) (set_faults w rest))
    | [] =>
        let d := resolve (cwd w) path in
        match stat w path with
        | Ok (NDir _ _) =>
            (Ok tt, emit (EvRmtree path (Ok tt))
                      (set_fs w (filter (fun kv => under d (fst kv) = false) (fs w))))
        | Ok (NFile _ _) =>
            (Raise (OSError ENOTDIR), emit (EvRmtree path (Raise (OSError ENOTDIR))) w)
        | Raise e =>
            (Raise e, emit (EvRmtree path (Raise e)) w)
        end
    end.

(** [time.sleep], between two attempts *)
Definition sleep : M unit := fun w => (Ok tt, emit EvSleep w).

(** [os.path.abspath(path)] asks for the current directory only for a
    relative path. *)
Definition os_path_abspath (path : string) : M string :=
  if isabs path then ret (normpath path)
  else let* c := getcwd in ret (normpath (join c [path])).

(** [os.path.relpath(path, start)]: [ValueError] on an empty [path] *)
Definition os_path_relpath (path start : string) : M string :=
  if bool_decide (path = "") then raise ValueError
  else
    let* abs_start := os_path_abspath start in
    let* abs_path := os_path_abspath path in
    let start_list := nonempty_comps abs_start in
    let path_list := nonempty_comps abs_path in
    let i := length (commonprefix start_list path_list) in
    let rel_list := (repeat ".." (length start_list - i) ++ drop i path_list)%list in
    match rel_list with
    | [] => ret "."
    | a :: rest => ret (join a rest)
    end.

End Sys.

(** ** Python's dynamic operations on client responses *)

Module Py.

(** [os.fspath(v)]: a path has to be a string *)
Definition as_str (v : PyVal) : M string :=
  match v with
  | VStr s => ret s
  | _ => raise TypeError
  end.

(** [bool(v)] *)
Definition truthy (v : PyVal) : bool :=
  match v with
  | VStr s => negb (bool_decide (s = ""))
  | VInt n => negb (n =? 0)%Z
  | VList items => negb (bool_decide (items = []))
  | VDict fields => negb (bool_decide (fields = []))
  end.

Fixpoint assoc (k : string) (fields : list (string * PyVal)) : option PyVal :=
  match fields with
  | [] => None
  | (k', v) :: rest => if bool_decide (k' = k) then Some v else assoc k rest
  end.

(** [v[key]] for a string [key] *)
Definition getitem (v : PyVal) (key : string) : M PyVal :=
  match v with
  | VDict fields =>
      match assoc key fields with
      | Some x => ret x
      | None => raise (KeyError key)
      end
  | _ => raise TypeError
  end.

(** the items [for item in v] goes through *)
Definition iterate (v : PyVal) : M (list PyVal) :=
  match v with
  | VList items => ret items
  | VDict fields => ret (map (fun kv => VStr (fst kv)) fields)
  | VStr s => ret (map (fun c => VStr (String c EmptyString)) (list_ascii_of_string s))
  | VInt _ => raise TypeError
  end.

(** [v == s] for a string [s] *)
Definition eq_str (s : string) (v : PyVal) : bool :=
  match v with
  | VStr x => bool_decide (x = s)
  | _ => false
  end.

(** [key in v] for a string [key]: a key of a dictionary, an item of a
    list, a piece of a string *)
Definition contains (key : string) (v : PyVal) : M bool :=
  match v with
  | VDict fields => ret (bool_decide (is_Some (assoc key fields)))
  | VList items => ret (existsb (eq_str key) items)
  | VStr s => ret (PyStr.contains_sub key s)
  | VInt _ => raise TypeError
  end.

(** [v in l] for a list [l] of strings *)
Definition in_strs (v : PyVal) (l : list string) : bool :=
  existsb (fun s => eq_str s v) l.

(** [int(v)] *)
Definition to_int (v : PyVal) : M Z :=
  match v with
  | VInt n => ret n
  | VStr s =>
      match PyStr.to_int s with
      | Some n => ret n
      | None => raise ValueError
      end
  | VList _ | VDict _ => raise TypeError
  end.

(** Looking up a method that only dictionaries have: on any other value
    the lookup itself fails, with an [AttributeError], which nothing else in
    the controller can raise and which is kept beside the outcomes. *)
Inductive Attr (A : Type) :=
| HasAttr (a : A)
| AttributeError.
Arguments HasAttr {A} a.
Arguments AttributeError {A}.

(** [v.get(key, default)] *)
Definition dict_get (v : PyVal) (key : string) (default : PyVal) : Attr PyVal :=
  match v with
  | VDict fields =>
      HasAttr (match assoc key fields with Some x => x | None => default end)
  | _ => AttributeError
  end.

End Py.

(** ** The controller *)

Record Partition := mkPartition {
  p_database : string;
  p_table : string;
  p_name : PyVal
}.

Record FreezedPart := mkFreezedPart {
  database : string;
  table : string;
  name : string;
  path : string;
  checksum : string;
  size : Z
}.

Record ClickhouseCTL := mkClickhouseCTL {
  _config : gmap string string;
  _data_path : string;
  _shadow_data_path : string;
  _ch_version : PyVal
}.

(** Modelled from the spec: [ClickhouseClient] of [ch_backup.clickhouse.client]
    is not among the sources.  [self._ch_client.query(query_sql)] is the
    gateway that "accepts a query string, returns parsed JSON/TSV rows or
    raises on failure": the answer, and what the engine does to the disk
    meanwhile, are whatever the engine of the world makes of the query. *)
Definition query (q : Query) : M PyVal :=
  fun w =>
    let '(r, f) := engine w (trace w) q (fs w) in
    (r, emit (EvQuery q r) (set_fs w f)).

(** [config[key]] *)
Definition config_get (config : gmap string string) (key : string) : M string :=
  match config !! key with
  | Some v => ret v
  | None => raise (KeyError key)
  end.

(** Modelled from the spec: [chown_dir_contents] of [ch_backup.util] is not
    among the sources.  The filesystem delegate "performs recursive ownership
    changes under a verified path prefix": everything below [dir_path] gets
    the owner and the group. *)
Definition chown_dir_contents (user group dir_path : string) : M unit :=
  fun w =>
    let d := Sys.resolve (cwd w) dir_path in
    match Sys.stat w dir_path with
    | Ok (NDir _ _) =>
        let f := map_imap (fun k n =>
                   Some (if Sys.strictly_under d k
                         then Sys.set_owner {| o_user := user; o_group := group |} n
                         else n)) (fs w) in
        (Ok tt, emit (EvChown user group dir_path (Ok tt)) (set_fs w f))
    | Ok (NFile _ _) =>
        (Raise (OSError ENOTDIR), emit (EvChown user group dir_path (Raise (OSError ENOTDIR))) w)
    | Raise e =>
        (Raise e, emit (EvChown user group dir_path (Raise e)) w)
    end.

(** Modelled from the spec: the decorator [retry] of [ch_backup.util] is not
    among the sources.  It is "a bounded-retry policy parameterized by the
    specific transient error kinds it covers", "up to a bounded retry count
    with backoff": the wrapped call is made again, after a pause, when it
    raised an exception of [exception_types] and attempts are left. *)
Fixpoint retry_go {A} (exception_types : Exn -> bool) (attempts_left : nat) (f : M A) : M A :=
  fun w =>
    match f w with
    | (Ok a, w') => (Ok a, w')
    | (Raise e, w') =>
        match attempts_left with
        | S n => if exception_types e
                 then (Sys.sleep ;; retry_go exception_types n f) w'
                 else (Raise e, w')
        | O => (Raise e, w')
        end
    end.

Section Controller.

(** The bound of [retry]: how many times the wrapped call is made at most. *)
Variable max_attempts : nat.

Definition retry {A} (exception_types : Exn -> bool) (f : M A) : M A :=
  retry_go exception_types (Nat.pred max_attempts) f.

Definition __init__ (config : gmap string string) : M ClickhouseCTL :=
  let* root_data_path := config_get config "data_path" in
  let data_path := PosixPath.join root_data_path ["data"] in
  let shadow_data_path := PosixPath.join root_data_path ["shadow"] in
  let* ch_version := query GET_VERSION_SQL in
  ret (mkClickhouseCTL config data_path shadow_data_path ch_version).

Definition _get_table_data_path (self : ClickhouseCTL) (db_name table_name : string) : M PyVal :=
  query (GET_TABLE_DATA_PATH_SQL db_name table_name).

Definition _get_table_data_relpath (self : ClickhouseCTL) (db_name table_name : string) : M string :=
  let* p := _get_table_data_path self db_name table_name in
  if negb (Py.truthy p) then raise ValueError
  else
    let* p := Py.as_str p in
    Sys.os_path_relpath p (_data_path self).

Definition _get_table_detached_path (self : ClickhouseCTL) (db_name table_name : string) : M string :=
  let* p := _get_table_data_path self db_name table_name in
  let* p := Py.as_str p in
  ret (PosixPath.join p ["detached"]).

Definition _chown_dir (self : ClickhouseCTL) (dir_path : string) : M unit :=
  py_assert (PyStr.startswith dir_path (_data_path self)) ;;
  let* user := config_get (_config self) "user" in
  let* group := config_get (_config self) "group" in
  chown_dir_contents user group dir_path.

Definition _remove_shadow_data (self : ClickhouseCTL) (path : string) : M unit :=
  retry is_OSError
    (py_assert (PyStr.startswith path (_shadow_data_path self)) ;;
     try_except (Sys.rmtree path) is_FileNotFoundError (ret tt)).

Definition _match_ch_version (self : ClickhouseCTL) (min_version : string) : M bool :=
  let* v := Py.as_str (_ch_version self) in
  match Version.parse v, Version.parse min_version with
  | Some a, Some b => ret (Version.ge a b)
  | _, _ => raise InvalidVersion
  end.

Definition _get_shadow_increment (self : ClickhouseCTL) : M string :=
  let file_path := PosixPath.join (_shadow_data_path self) ["increment.txt"] in
  let* content := Sys.read file_path in
  ret (PyStr.strip content).

Definition _get_part_checksum (part_path : string) : M string :=
  let* data := Sys.read (PosixPath.join part_path ["checksums.txt"]) in
  ret (MD5.hexdigest data).

Fixpoint _get_part_size_loop (part_path : string) (files : list string) (size : Z) : M Z :=
  match files with
  | [] => ret size
  | file :: rest =>
      let* n := Sys.getsize (PosixPath.join part_path [file]) in
      _get_part_size_loop part_path rest (size + n)%Z
  end.

Definition _get_part_size (part_path : string) : M Z :=
  let* files := Sys.listdir part_path in
  _get_part_size_loop part_path files 0%Z.

Definition _get_freezed_parts (self : ClickhouseCTL) (db_name table_name : string)
  : M (list FreezedPart) :=
  let* increment := _get_shadow_increment self in
  let* relpath := _get_table_data_relpath self db_name table_name in
  let path := PosixPath.join (_shadow_data_path self) [increment; "data"; relpath] in
  let* found := Sys.exists_ path in
  if negb found then ret []
  else
    let* parts := Sys.listdir path in
    mapM (fun part =>
            let part_path := PosixPath.join path [part] in
            let* checksum := _get_part_checksum part_path in
            let* size := _get_part_size part_path in
            ret (mkFreezedPart db_name table_name part part_path checksum size))
         parts.

Definition get_partitions (self : ClickhouseCTL) (database table : string) : M (list Partition) :=
  let* resp := query (GET_TABLE_PARTITIONS_SQL database table) in
  let* data := Py.getitem resp "data" in
  let* items := Py.iterate data in
  mapM (fun item =>
          let* p := Py.getitem item "partition" in
          ret (mkPartition database table p))
       items.

Definition _freeze_table (self : ClickhouseCTL) (db_name table_name : string)
  : M (list FreezedPart) :=
  query (FREEZE_TABLE_SQL db_name table_name) ;;
  _get_freezed_parts self db_name table_name.

Fixpoint _freeze_table_compat_loop (self : ClickhouseCTL) (db_name table_name : string)
    (partitions : list Partition) (freezed_parts : list FreezedPart)
  : M (list FreezedPart) :=
  match partitions with
  | [] => ret freezed_parts
  | partition :: rest =>
      query (FREEZE_PARTITION_SQL db_name table_name (p_name partition)) ;;
      let* parts := _get_freezed_parts self db_name table_name in
      _freeze_table_compat_loop self db_name table_name rest (freezed_parts ++ parts)%list
  end.

Definition _freeze_table_compat (self : ClickhouseCTL) (db_name table_name : string)
  : M (list FreezedPart) :=
  let* partitions := get_partitions self db_name table_name in
  _freeze_table_compat_loop self db_name table_name partitions [].

Definition chown_detached_table_parts (self : ClickhouseCTL) (db_name table_name : string)
  : M unit :=
  let* detached_path := _get_table_detached_path self db_name table_name in
  _chown_dir self detached_path.

Definition attach_part (self : ClickhouseCTL) (db_name table_name part_name : string) : M unit :=
  query (PART_ATTACH_SQL db_name table_name part_name) ;; ret tt.

Definition freeze_table (self : ClickhouseCTL) (db_name table_name : string)
  : M (list FreezedPart) :=
  let* whole := _match_ch_version self "18.16.0" in
  if whole then _freeze_table self db_name table_name
  else _freeze_table_compat self db_name table_name.

Definition remove_freezed_data (self : ClickhouseCTL) : M unit :=
  _remove_shadow_data self (_shadow_data_path self).

Definition remove_freezed_part (self : ClickhouseCTL) (part : FreezedPart) : M unit :=
  _remove_shadow_data self (path part).

Definition get_database_schema (self : ClickhouseCTL) (db_name : string) : M PyVal :=
  query (SHOW_CREATE_DATABASE_SQL db_name).

Definition get_table_schema (self : ClickhouseCTL) (db_name table_name : string) : M PyVal :=
  query (SHOW_CREATE_TABLE_SQL db_name table_name).

Definition restore_meta (self : ClickhouseCTL) (query_sql : string) : M unit :=
  query (RAW_SQL query_sql) ;; ret tt.

Definition get_detached_part_path (self : ClickhouseCTL) (db_name table_name part_name : string)
  : M string :=
  let* d := _get_table_detached_path self db_name table_name in
  ret (PosixPath.join d [part_name]).

Definition get_version (self : ClickhouseCTL) : PyVal := _ch_version self.

(** [[row['name'] for row in rows if row['name'] not in exclude_dbs]] *)
Fixpoint get_all_databases_rows (exclude_dbs : list string) (rows : list PyVal)
  : M (list PyVal) :=
  match rows with
  | [] => ret []
  | row :: rest =>
      let* n := Py.getitem row "name" in
      if negb (Py.in_strs n exclude_dbs)
      then
        let* n := Py.getitem row "name" in
        let* ns := get_all_databases_rows exclude_dbs rest in
        ret (n :: ns)
      else get_all_databases_rows exclude_dbs rest
  end.

Definition get_all_databases (self : ClickhouseCTL) (exclude_dbs : option (list string))
  : M (list PyVal) :=
  let exclude_dbs :=
    match exclude_dbs with
    | Some (x :: l) => x :: l
    | _ => []
    end in
  let* ch_resp := query SHOW_DATABASES_SQL in
  let* has_data := Py.contains "data" ch_resp in
  if has_data
  then
    let* data := Py.getitem ch_resp "data" in
    let* rows := Py.iterate data in
    get_all_databases_rows exclude_dbs rows
  else ret [].

Definition get_all_db_tables (self : ClickhouseCTL) (db_name : string)
  : World -> Py.Attr (Result (list PyVal)) * World :=
  fun w =>
    match query (SHOW_TABLES_SQL db_name) w with
    | (Ok ch_resp, w1) =>
        match Py.dict_get ch_resp "data" (VList []) with
        | Py.HasAttr data =>
            let '(r, w2) :=
              (let* rows := Py.iterate data in
               mapM (fun row => Py.getitem row "name") rows) w1 in
            (Py.HasAttr r, w2)
        | Py.AttributeError => (Py.AttributeError, w1)
        end
    | (Raise e, w1) => (Py.HasAttr (Raise e), w1)
    end.

Definition does_table_exist (self : ClickhouseCTL) (db_name table_name : string) : M bool :=
  let* resp := query (CHECK_TABLE_SQL db_name table_name) in
  let* count := Py.to_int resp in
  ret (negb (count =? 0)%Z).

Definition get_tables_ordered (self : ClickhouseCTL) (db_name : string)
    (tables : option (list string)) : M (list PyVal) :=
  let tables :=
    match tables with
    | Some (x :: l) => x :: l
    | _ => []
    end in
  let* ch_resp := query (GET_TABLES_ORDERED_SQL db_name tables) in
  let* has_data := Py.contains "data" ch_resp in
  if has_data
  then
    let* data := Py.getitem ch_resp "data" in
    let* rows := Py.iterate data in
    mapM (fun row => Py.getitem row "name") rows
  else ret [].

End Controller.

(** ** A small installation

    The data root [/var/lib/clickhouse], one table [db.t] with two frozen
    parts under generation 5, an engine that answers every query and leaves
    the disk alone. *)

Module Scenario.

Definition root_owner : Owner := {| o_user := "root"; o_group := "root" |}.
Definition plain_dir : Node := NDir 4096 root_owner.
Definition newline : string := String (ascii_of_nat 10) EmptyString.

Definition shadow : list string := ["var"; "lib"; "clickhouse"; "shadow"].
Definition frozen : list string := (shadow ++ ["5"; "data"; "db"; "t"])%list.

(** the installation before any freeze *)
Definition bare_disk : FS :=
  list_to_map [
    ([], plain_dir);
    (["var"], plain_dir); (["var"; "lib"], plain_dir); (["var"; "lib"; "clickhouse"], plain_dir);
    (["var"; "lib"; "clickhouse"; "data"], plain_dir);
    (["var"; "lib"; "clickhouse"; "data"; "db"], plain_dir);
    (["var"; "lib"; "clickhouse"; "data"; "db"; "t"], plain_dir);
    (["var"; "lib"; "clickhouse"; "data"; "db"; "t"; "detached"], plain_dir);
    (["var"; "lib"; "clickhouse"; "data"; "db"; "t"; "detached"; "p0"], plain_dir);
    (["var"; "lib"; "clickhouse"; "shadow_old"], plain_dir);
    (["var"; "lib"; "clickhouse"; "shadow_old"; "1"], plain_dir);
    (shadow, plain_dir);
    ((shadow ++ ["increment.txt"])%list, NFile ("5" +:+ newline) root_owner)
  ].

(** the same with generation 5 on disk: parts [p1] and [p2] *)
Definition disk : FS :=
  list_to_map [
    ((shadow ++ ["5"])%list, plain_dir);
    ((shadow ++ ["5"; "data"])%list, plain_dir);
    ((shadow ++ ["5"; "data"; "db"])%list, plain_dir);
    (frozen, plain_dir);
    ((frozen ++ ["p1"])%list, plain_dir);
    ((frozen ++ ["p1"; "checksums.txt"])%list, NFile "abc" root_owner);
    ((frozen ++ ["p1"; "data.bin"])%list, NFile "0123456789" root_owner);
    ((frozen ++ ["p2"])%list, plain_dir);
    ((frozen ++ ["p2"; "checksums.txt"])%list, NFile "abc" root_owner);
    ((frozen ++ ["p2"; "data.bin"])%list, NFile "something else" root_owner)
  ] ∪ bare_disk.

Definition partitions : PyVal :=
  VDict [("data", VList [VDict [("partition", VStr "202301")];
                         VDict [("partition", VStr "202302")]])].

Definition steady_engine (version : string) (_ : list Event) (q : Query) (f : FS)
  : Result PyVal * FS :=
  match q with
  | GET_VERSION_SQL => (Ok (VStr version), f)
  | GET_TABLE_DATA_PATH_SQL _ _ => (Ok (VStr "/var/lib/clickhouse/data/db/t/"), f)
  | GET_TABLE_PARTITIONS_SQL _ _ => (Ok partitions, f)
  | _ => (Ok (VStr ""), f)
  end.

(** an engine whose second partition freeze fails *)
Definition failing_engine (tr : list Event) (q : Query) (f : FS) : Result PyVal * FS :=
  match q with
  | FREEZE_PARTITION_SQL _ _ (VStr p) =>
      if String.eqb p "202302" then (Raise (ClientError "no such partition"), f)
      else steady_engine "18.10.0" tr q f
  | _ => steady_engine "18.10.0" tr q f
  end.

(** generation 6 with the part [p3], and the marker moved to it *)
Definition next_generation : FS :=
  list_to_map [
    ((shadow ++ ["increment.txt"])%list, NFile ("6" +:+ newline) root_owner);
    ((shadow ++ ["6"])%list, plain_dir);
    ((shadow ++ ["6"; "data"])%list, plain_dir);
    ((shadow ++ ["6"; "data"; "db"])%list, plain_dir);
    ((shadow ++ ["6"; "data"; "db"; "t"])%list, plain_dir);
    ((shadow ++ ["6"; "data"; "db"; "t"; "p3"])%list, plain_dir);
    ((shadow ++ ["6"; "data"; "db"; "t"; "p3"; "checksums.txt"])%list, NFile "" root_owner)
  ].

(** an engine whose second partition freeze starts generation 6 *)
Definition advancing_engine (tr : list Event) (q : Query) (f : FS) : Result PyVal * FS :=
  match q with
  | FREEZE_PARTITION_SQL _ _ (VStr p) =>
      if String.eqb p "202302" then (Ok (VStr ""), next_generation ∪ f)
      else steady_engine "18.10.0" tr q f
  | _ => steady_engine "18.10.0" tr q f
  end.

Definition config : gmap string string :=
  list_to_map [("data_path", "/var/lib/clickhouse"); ("user", "clickhouse");
               ("group", "clickhouse")].

Definition ctl (version : string) : ClickhouseCTL :=
  mkClickhouseCTL config "/var/lib/clickhouse/data" "/var/lib/clickhouse/shadow"
    (VStr version).

Definition world (version : string) (f : FS) : World :=
  mkWorld f "/" [] (steady_engine version) [].

(** an engine that places the table outside the data root *)
Definition stray_engine (tr : list Event) (q : Query) (f : FS) : Result PyVal * FS :=
  match q with
  | GET_TABLE_DATA_PATH_SQL _ _ => (Ok (VStr "/srv/elsewhere/db/t/"), f)
  | _ => steady_engine "19.1.0" tr q f
  end.

(** the world in which the next removals meet the errors [errs] *)
Definition faulty_world (errs : list Errno) : World :=
  mkWorld disk "/" errs (steady_engine "19.1.0") [].

Definition listed : list Partition :=
  [mkPartition "db" "t" (VStr "202301"); mkPartition "db" "t" (VStr "202302")].

Definition p1_path : string := "/var/lib/clickhouse/shadow/5/data/db/t/p1".
Definition p2_path : string := "/var/lib/clickhouse/shadow/5/data/db/t/p2".

(** what the enumeration of generation 5 returns *)
Definition p1 : FreezedPart :=
  mkFreezedPart "db" "t" "p1" p1_path "900150983cd24fb0d6963f7d28e17f72" 13.
Definition p2 : FreezedPart :=
  mkFreezedPart "db" "t" "p2" p2_path "900150983cd24fb0d6963f7d28e17f72" 17.

Definition p3 : FreezedPart :=
  mkFreezedPart "db" "t" "p3" "/var/lib/clickhouse/shadow/6/data/db/t/p3"
    "d41d8cd98f00b204e9800998ecf8427e" 0.

(** an artifact record whose path is beside the snapshot root *)
Definition beside : FreezedPart :=
  mkFreezedPart "db" "t" "1" "/var/lib/clickhouse/shadow_old/1" "" 0.

(** an artifact record whose path runs through the increment file *)
Definition below_file : FreezedPart :=
  mkFreezedPart "db" "t" "x" "/var/lib/clickhouse/shadow/increment.txt/x" "" 0.

(** an artifact record whose path is nowhere near it *)
Definition outside : FreezedPart :=
  mkFreezedPart "db" "t" "x" "/etc" "" 0.

Definition ctl19 : ClickhouseCTL := ctl "19.1.0".
Definition ctl18 : ClickhouseCTL := ctl "18.10.0".

(** what the engine lists: three rows with a name each *)
Definition listing : PyVal :=
  VDict [("meta", VList [VDict [("name", VStr "name"); ("type", VStr "String")]]);
         ("data", VList [VDict [("name", VStr "default")];
                         VDict [("name", VStr "db")];
                         VDict [("name", VStr "system")]]);
         ("rows", VInt 3)].

(** a response without rows *)
Definition statistics : list (string * PyVal) :=
  [("meta", VList []); ("rows", VInt 0)].

(** an engine that knows the table [db.t] and no other *)
Definition catalog_engine (tr : list Event) (q : Query) (f : FS) : Result PyVal * FS :=
  match q with
  | SHOW_DATABASES_SQL | SHOW_TABLES_SQL _ | GET_TABLES_ORDERED_SQL _ _ => (Ok listing, f)
  | CHECK_TABLE_SQL d t =>
      (Ok (VStr ((if String.eqb d "db" && String.eqb t "t" then "1" else "0") +:+ newline)), f)
  | _ => steady_engine "19.1.0" tr q f
  end.

Definition catalog_world : World := mkWorld disk "/" [] catalog_engine [].

(** an engine that answers every query without rows *)
Definition bare_engine (tr : list Event) (q : Query) (f : FS) : Result PyVal * FS :=
  (Ok (VDict statistics), f).

Definition bare_world : World := mkWorld disk "/" [] bare_engine [].

(** generation 5 with a directory inside the part [p1] and a stray file
    beside the parts *)
Definition nested_disk : FS :=
  list_to_map [
    ((frozen ++ ["p1"; "sub"])%list, NDir 64 root_owner);
    ((frozen ++ ["p1"; "sub"; "big.bin"])%list,
     NFile "a file that the size of the part does not count" root_owner)
  ] ∪ disk.

Definition stray_disk : FS :=
  <[(frozen ++ ["notes.txt"])%list := NFile "not a part" root_owner]> disk.

End Scenario.

(** * Vocabulary of the properties

    Names for what the statements below talk about: kinds of events, the
    files and directories of a snapshot, the pieces of the methods that
    are reasoned about on their own. *)

(** Events that leave the disk and the pending faults as they are. *)
Definition is_passive (ev : Event) : bool :=
  match ev with
  | EvQuery _ _ | EvRmtree _ _ | EvChown _ _ _ _ => false
  | _ => true
  end.

(** The calls by which the controller itself changes the disk. *)
Definition is_mutation (ev : Event) : bool :=
  match ev with EvRmtree _ _ | EvChown _ _ _ _ => true | _ => false end.

(** An engine that answers and leaves the disk as it is. *)
Definition quiet (eng : list Event -> Query -> FS -> Result PyVal * FS) : Prop :=
  forall tr q f, snd (eng tr q f) = f.

(** [frame P w w' d]: from [w] to [w'] the events [d] were appended to the
    trace, all of them satisfy [P], the current directory and the engine are
    the same; the disk and the pending faults are the same when all the
    events are passive, and the disk is the same when the engine is quiet
    and none of the events is a removal or a change of ownership. *)
Definition frame (P : Event -> bool) (w w' : World) (d : list Event) : Prop :=
  trace w' = (trace w ++ d)%list
  /\ Forall (fun ev => P ev = true) d
  /\ cwd w' = cwd w /\ engine w' = engine w
  /\ (Forall (fun ev => is_passive ev = true) d ->
      fs w' = fs w /\ rmtree_faults w' = rmtree_faults w)
  /\ (quiet (engine w) -> Forall (fun ev => is_mutation ev = false) d ->
      fs w' = fs w).

(** [emits P m]: whatever the world, running [m] is framed by events that
    satisfy [P]. *)
Definition emits {A} (P : Event -> bool) (m : M A) : Prop :=
  forall w r w', m w = (r, w') -> exists d, frame P w w' d.

(** Events by kind. *)
Definition is_query (ev : Event) : bool :=
  match ev with EvQuery _ _ => true | _ => false end.

(** Release numbers in the order of versions: number by number from the
    left, a missing number counting as 0. *)
Fixpoint ge_zeros (a : list Z) : bool :=
  match a with
  | [] => true
  | x :: a' => if (x =? 0)%Z then ge_zeros a' else (0 <? x)%Z
  end.

Fixpoint zeros_ge (b : list Z) : bool :=
  match b with
  | [] => true
  | y :: b' => if (y =? 0)%Z then zeros_ge b' else (y <? 0)%Z
  end.

Fixpoint release_ge (a b : list Z) : bool :=
  match a, b with
  | [], _ => zeros_ge b
  | _, [] => ge_zeros a
  | x :: a', y :: b' => if (x =? y)%Z then release_ge a' b' else (y <? x)%Z
  end.

(** A semantic version, major.minor.patch, and its ordering as the
    specification words it: by major, then minor, then patch. *)
Definition semver_ge (v m : Z * Z * Z) : bool :=
  let '(a, b, c) := v in
  let '(x, y, z) := m in
  ((x <? a) || ((a =? x) && ((y <? b) || ((b =? y) && (z <=? c)))))%Z.

(** A version that is its release numbers and nothing more. *)
Definition plain (release : list Z) : Version.t :=
  Version.mk 0 release None None None None.

(** Neither a pre-release nor a development release of its release
    numbers: the release itself, or a post-release of it. *)
Definition is_release (ver : Version.t) : bool :=
  match Version.pre ver, Version.post ver, Version.dev ver with
  | None, Some _, _ | None, None, None => true
  | _, _, _ => false
  end.

(** The order of versions against a threshold that is plain release
    numbers: a later epoch is above; in epoch 0 the release numbers decide,
    and where they are those of the threshold, pre-releases and development
    releases are below it, the release and its post-releases are not. *)
Definition version_ge (ver : Version.t) (threshold : list Z) : bool :=
  (0 <? Version.epoch ver)%Z
  || ((Version.epoch ver =? 0)%Z
      && release_ge (Version.release ver) threshold
      && (negb (release_ge threshold (Version.release ver)) || is_release ver)).

(** The shape of a version string: blanks, an optional [v], numbers with
    dots between them, and a rest that neither goes on with the number nor
    adds one, nor makes an epoch of it. *)
Definition all_of (c : ascii -> bool) (s : string) : bool :=
  forallb c (list_ascii_of_string s).

Definition starts_with (c : ascii -> bool) (s : string) : bool :=
  match s with
  | String x _ => c x
  | EmptyString => false
  end.

Definition optional_v (vee : string) : bool :=
  existsb (String.eqb vee) [""; "v"; "V"].

Definition ends_release (rest : string) : bool :=
  match rest with
  | EmptyString => true
  | String c r =>
      negb (PyStr.is_digit c) && negb (Ascii.eqb c "!")
      && negb (Ascii.eqb c "." && starts_with PyStr.is_digit r)
  end.

Definition is_number (d : string) : Prop := exists n, PyStr.digits d = Some n.

(** the numbers [ds], a dot before each, then [rest] *)
Definition dots (ds : list string) (rest : string) : string :=
  fold_right (fun d acc => "." +:+ d +:+ acc) rest ds.

(** a match in which nothing follows the release *)
Definition no_tail : Version.Tail :=
  Version.mkTail None None None None None None None None.

(** the characters with which the parts after the release begin *)
Definition first_chars : list ascii := ["a"; "b"; "c"; "r"; "p"; "d"; "+"; "-"]%char.

(** The calls of one enumeration: reads of the disk, the query for the
    table's data path, nothing else. *)
Definition is_enum (ev : Event) : bool :=
  match ev with
  | EvRead _ _ | EvGetcwd | EvExists _ _ | EvListdir _ _ | EvGetsize _ _ => true
  | EvQuery (GET_TABLE_DATA_PATH_SQL _ _) _ => true
  | _ => false
  end.

(** The calls of a snapshot: queries and reads of the disk. *)
Definition is_snapshot_call (ev : Event) : bool := is_query ev || is_enum ev.

(** A name without a slash in it. *)
Definition sep_free (n : string) : Prop :=
  forallb (fun c => negb (bool_decide (c = PosixPath.sep))) (list_ascii_of_string n) = true.

(** The file that holds the generation marker. *)
Definition increment_file (self : ClickhouseCTL) : string :=
  PosixPath.join (_shadow_data_path self) ["increment.txt"].

(** The directory of a table's parts under the generation [increment]. *)
Definition snapshot_dir (self : ClickhouseCTL) (increment relpath : string) : string :=
  PosixPath.join (_shadow_data_path self) [increment; "data"; relpath].

(** The body of the loop of [_get_freezed_parts]: the artifact of the entry
    [part] of the directory [path]. *)
Definition freezed_part_of (db_name table_name path part : string) : M FreezedPart :=
  let part_path := PosixPath.join path [part] in
  let* checksum := _get_part_checksum part_path in
  let* size := _get_part_size part_path in
  ret (mkFreezedPart db_name table_name part part_path checksum size).

(** The bytes of the manifest of a part, when it is there. *)
Definition manifest_of (w : World) (part_path : string) : option string :=
  match Sys.stat w (PosixPath.join part_path ["checksums.txt"]) with
  | Ok (NFile content _) => Some content
  | _ => None
  end.

(** The calls made for the parts of a directory. *)
Definition is_part_read (ev : Event) : bool :=
  match ev with
  | EvRead _ _ | EvListdir _ _ | EvGetsize _ _ => true
  | _ => false
  end.

(** The calls made to resolve the table's path. *)
Definition is_relpath_call (ev : Event) : bool :=
  match ev with
  | EvGetcwd | EvQuery (GET_TABLE_DATA_PATH_SQL _ _) _ => true
  | _ => false
  end.

(** The directories a run checked for parts, in order. *)
Definition enumerated_dirs (d : list Event) : list string :=
  omap (fun ev => match ev with EvExists p _ => Some p | _ => None end) d.

(** The artifacts of [chunk] are entries of the directory [dir], no two
    with the same path. *)
Definition chunk_of (dir : string) (chunk : list FreezedPart) : Prop :=
  NoDup (map path chunk)
  /\ Forall (fun p => exists n, Sys.valid_name n = true /\ path p = PosixPath.join dir [n]) chunk.

(** An artifact as the enumeration of [dir] builds it from the entry [n]. *)
Definition artifact_of (db t dir : string) (w : World) (n : string) (p : FreezedPart) : Prop :=
  database p = db /\ table p = t /\ name p = n /\ path p = PosixPath.join dir [n]
  /\ exists manifest, manifest_of w (path p) = Some manifest
                     /\ checksum p = MD5.hexdigest manifest.

(** The body under the decorator: the guard, then the removal. *)
Definition remove_attempt (self : ClickhouseCTL) (target : string) : M unit :=
  py_assert (PyStr.startswith target (_shadow_data_path self)) ;;
  try_except (Sys.rmtree target) is_FileNotFoundError (ret tt).

(** A path lies strictly under a root when the root's names are the first
    of its own and it has more. *)
Definition lies_strictly_under (cwd root target : string) : bool :=
  Sys.strictly_under (Sys.resolve cwd root) (Sys.resolve cwd target).

(** A target that is a file, or that runs through one, is not a directory
    to remove: the attempt raises [NotADirectoryError]. *)
Definition not_a_directory (w : World) (target : string) : Prop :=
  (exists c o, Sys.stat w target = Ok (NFile c o))
  \/ Sys.stat w target = Raise (OSError ENOTDIR).

(** No name of the path is [..]: the system then looks the path up by the
    names it is written with, one after the other, as [Sys.walk] does with
    what [Sys.resolve] gives, and reports a missing name as [ENOENT] and a
    file on the way as [ENOTDIR] just as the lookup here does. *)
Definition no_parent_steps (p : string) : bool :=
  forallb (fun name => negb (bool_decide (name = ".."))) (PyStr.split PosixPath.sep p).

(** The failed attempts that [errs] cause, each followed by the pause. *)
Definition failed_attempts (target : string) (errs : list Errno) : list Event :=
  flat_map (fun e => [EvRmtree target (Raise (OSError e)); EvSleep]) errs.

(** The world after these failed attempts: faults used up, trace extended. *)
Definition after_failed_attempts (w : World) (target : string) (errs rest : list Errno) : World :=
  mkWorld (fs w) (cwd w) rest (engine w) (trace w ++ failed_attempts target errs).

(** The events a run added to the trace. *)
Definition new_events (w w' : World) : list Event := drop (length (trace w)) (trace w').

(** The freeze-partition command an event stands for, if it is one. *)
Definition freeze_command (ev : Event) : option (string * string * PyVal) :=
  match ev with
  | EvQuery (FREEZE_PARTITION_SQL d t p) _ => Some (d, t, p)
  | _ => None
  end.

(** The freeze-partition command of a listed partition. *)
Definition command_of (db t : string) (p : Partition) : string * string * PyVal :=
  (db, t, p_name p).

(** The steps of a snapshot that matter for the marker. *)
Inductive Step :=
| SFreezeTable (db t : string)
| SFreezePartition (db t : string) (p : PyVal)
| SReadIncrement (content : Result string)
| SEnumerate (dir : string).

(** The step an event stands for, if any. *)
Definition step_of (self : ClickhouseCTL) (ev : Event) : option Step :=
  match ev with
  | EvQuery (FREEZE_TABLE_SQL d t) _ => Some (SFreezeTable d t)
  | EvQuery (FREEZE_PARTITION_SQL d t p) _ => Some (SFreezePartition d t p)
  | EvRead p r => if bool_decide (p = increment_file self) then Some (SReadIncrement r) else None
  | EvExists p _ => Some (SEnumerate p)
  | _ => None
  end.

(** Events that are none of these steps. *)
Definition no_step (self : ClickhouseCTL) (ev : Event) : bool :=
  match step_of self ev with None => true | Some _ => false end.

(** Reads of the increment file. *)
Definition is_increment_read (self : ClickhouseCTL) (ev : Event) : bool :=
  match ev with
  | EvRead p _ => bool_decide (p = increment_file self)
  | _ => false
  end.

(** What one freeze command is followed by: the marker read, then the
    existence check of the directory that the marker just read names. *)
Definition steps_after_freeze (self : ClickhouseCTL) (g : string * string) : list Step :=
  [SReadIncrement (Ok (fst g)); SEnumerate (snapshot_dir self (PyStr.strip (fst g)) (snd g))].

(** The freeze commands of a call: one for the table, or one per partition. *)
Definition freeze_queries (db t : string) (whole : bool) (ps : list Partition) : list Query :=
  if whole then [FREEZE_TABLE_SQL db t]
  else map (fun p => FREEZE_PARTITION_SQL db t (p_name p)) ps.

(** Every command of [cmds] goes through, the marker can be read and the
    table's path resolved after it, and the snapshot directory so named
    does not exist; [w_end] is the world after the last of them. *)
Fixpoint absent_run (self : ClickhouseCTL) (db t : string) (cmds : list Query)
    (w w_end : World) : Prop :=
  match cmds with
  | [] => w_end = w
  | q :: rest =>
      exists v w1 c w2 rel w3,
        query q w = (Ok v, w1)
        /\ Sys.read (increment_file self) w1 = (Ok c, w2)
        /\ _get_table_data_relpath self db t w2 = (Ok rel, w3)
        /\ is_ok (Sys.stat w3 (snapshot_dir self (PyStr.strip c) rel)) = false
        /\ absent_run self db t rest
             (emit (EvExists (snapshot_dir self (PyStr.strip c) rel) false) w3) w_end
  end.

(** The bytes of a file, when it is there. *)
Definition content_at (w : World) (file : string) : option string :=
  match Sys.stat w file with
  | Ok (NFile c _) => Some c
  | _ => None
  end.

(** ** Vocabulary of the listings *)

(** The field [key] of a row, when the row is a dictionary that has it. *)
Definition field (key : string) (v : PyVal) : option PyVal :=
  match v with
  | VDict fields => Py.assoc key fields
  | _ => None
  end.

(** The column [key] of a response: the field [key] of every row under
    ['data'], when the response is a dictionary whose ['data'] is a list of
    rows that all have the field. *)
Definition column (key : string) (resp : PyVal) : option (list PyVal) :=
  match field "data" resp with
  | Some (VList rows) => Version.all_some (map (field key) rows)
  | _ => None
  end.

(** The names an optional argument stands for: none when it is left out. *)
Definition excluded (names : option (list string)) : list string :=
  match names with
  | Some l => l
  | None => []
  end.

(** The query for the version, and the calls that are not it. *)
Definition is_version_query (ev : Event) : bool :=
  match ev with
  | EvQuery GET_VERSION_SQL _ => true
  | _ => false
  end.

Definition other_call (ev : Event) : bool := negb (is_version_query ev).

(** A method that never asks for the version. *)
Definition leaves_version_alone {A} (m : M A) : Prop :=
  forall w, Forall (fun ev => is_version_query ev = false) (new_events w (snd (m w))).

(** ** Vocabulary of the catalogue of a snapshot directory *)

(** What [os.path.getsize] gives for a node. *)
Definition node_size (n : Node) : Z :=
  match n with
  | NFile c _ => Z.of_nat (String.length c)
  | NDir s _ => s
  end.

(** The entries of a directory. *)
Definition entries (w : World) (dir : string) : list string :=
  Sys.children (fs w) (Sys.resolve (cwd w) dir).

Definition is_dir (w : World) (p : string) : bool :=
  match Sys.stat w p with
  | Ok (NDir _ _) => true
  | _ => false
  end.

(** The size of the entry [n] of a directory: of the node itself, whatever
    lies below it. *)
Definition entry_size (w : World) (part_path n : string) : Z :=
  match fs w !! (Sys.resolve (cwd w) part_path ++ [n])%list with
  | Some x => node_size x
  | None => 0%Z
  end.

Definition size_of_entries (w : World) (part_path : string) : Z :=
  foldr Z.add 0%Z (map (entry_size w part_path) (entries w part_path)).

(** The artifact of the entry [n] of [dir], when the entry is a directory
    that holds a manifest. *)
Definition artifact_at (db t dir : string) (w : World) (n : string) : option FreezedPart :=
  let part_path := PosixPath.join dir [n] in
  match manifest_of w part_path with
  | Some manifest =>
      if is_dir w part_path
      then Some (mkFreezedPart db t n part_path (MD5.hexdigest manifest)
                   (size_of_entries w part_path))
      else None
  | None => None
  end.

(** The catalogue of a directory: the artifacts of its entries, when every
    entry has one. *)
Definition catalogue (db t dir : string) (w : World) : option (list FreezedPart) :=
  Version.all_some (map (artifact_at db t dir w) (entries w dir)).

(** A read of the marker that did not give an absolute path. *)
Definition marker_ok (self : ClickhouseCTL) (ev : Event) : bool :=
  match ev with
  | EvRead file (Ok c) =>
      negb (bool_decide (file = increment_file self)) || negb (PosixPath.isabs (PyStr.strip c))
  | _ => true
  end.

(** A piece of a relative path: not empty, no slash at either end. *)
Definition relative_piece (x : string) : Prop :=
  x <> "" /\ PosixPath.isabs x = false /\ PyStr.endswith_char x PosixPath.sep = false.

(** An artifact of the table that the guard of the teardown lets through. *)
Definition guarded (self : ClickhouseCTL) (db t : string) (p : FreezedPart) : Prop :=
  database p = db /\ table p = t
  /\ PyStr.startswith (path p) (_shadow_data_path self) = true.

(** The digits of [hexdigest]. *)
Definition is_lower_hex (c : ascii) : bool :=
  let n := Z.of_nat (nat_of_ascii c) in
  (((48 <=? n) && (n <=? 57)) || ((97 <=? n) && (n <=? 102)))%Z.

(** * Properties *)

(** ** Running a computation step by step *)

Lemma bind_inv {A B} (m : M A) (k : A -> M B) w r w' :
  bind m k w = (r, w') ->
  (exists a w1, m w = (Ok a, w1) /\ k a w1 = (r, w')) \/
  (exists e, m w = (Raise e, w') /\ r = Raise e).
Proof.
  unfold bind. destruct (m w) as [[a|e] w1]; intros H.
  - left. eauto.
  - right. inversion H; subst. eauto.
Qed.

Lemma run_eq {A} (run : Result A * World) (r : Result A) :
  fst run = r -> run = (r, snd run).
Proof. destruct run. simpl. by intros ->. Qed.

Lemma bind_ok {A B} (m : M A) (k : A -> M B) w a w1 :
  m w = (Ok a, w1) -> bind m k w = k a w1.
Proof. unfold bind. intros ->. reflexivity. Qed.

Lemma bind_raise {A B} (m : M A) (k : A -> M B) w e w1 :
  m w = (Raise e, w1) -> bind m k w = (Raise e, w1).
Proof. unfold bind. intros ->. reflexivity. Qed.

(** ** What a computation adds to the trace *)

Lemma emits_ret {A} P (a : A) : emits P (ret a).
Proof.
  intros w r w' H. inversion H; subst. exists []. unfold frame.
  split; [by rewrite app_nil_r | repeat split; by constructor].
Qed.

Lemma emits_raise {A} P e : emits P (@raise A e).
Proof.
  intros w r w' H. inversion H; subst. exists []. unfold frame.
  split; [by rewrite app_nil_r | repeat split; by constructor].
Qed.

Lemma emits_seq (P : Event -> bool) w w1 w' d1 d2 :
  frame P w w1 d1 -> frame P w1 w' d2 -> frame P w w' (d1 ++ d2).
Proof.
  intros (T1 & F1 & C1 & E1 & K1 & Q1) (T2 & F2 & C2 & E2 & K2 & Q2).
  split; [rewrite T2, T1; by rewrite app_assoc|].
  split; [by apply Forall_app|].
  split; [congruence|]. split; [congruence|]. split.
  - intros [G1 G2]%Forall_app. destruct (K1 G1), (K2 G2). split; congruence.
  - intros Hq [G1 G2]%Forall_app. rewrite Q2; [by apply Q1 | by rewrite E1 | done].
Qed.

Lemma emits_bind {A B} P (m : M A) (k : A -> M B) :
  emits P m -> (forall a, emits P (k a)) -> emits P (bind m k).
Proof.
  intros Hm Hk w r w' H. apply bind_inv in H as [(a & w1 & H1 & H2) | (e & H1 & ->)].
  - destruct (Hm _ _ _ H1) as (d1 & R1). destruct (Hk a _ _ _ H2) as (d2 & R2).
    exists (d1 ++ d2)%list. by apply (emits_seq P w w1 w').
  - exact (Hm _ _ _ H1).
Qed.

Lemma emits_one {A} P (m : M A) :
  (forall w, exists ev w0, snd (m w) = emit ev w0 /\ trace w0 = trace w
     /\ cwd w0 = cwd w /\ engine w0 = engine w
     /\ (is_passive ev = true -> fs w0 = fs w /\ rmtree_faults w0 = rmtree_faults w)
     /\ (quiet (engine w) -> is_mutation ev = false -> fs w0 = fs w)
     /\ P ev = true) ->
  emits P m.
Proof.
  intros Hm w r w' H. destruct (Hm w) as (ev & w0 & E & T & C & G & K & Q & HP).
  rewrite H in E. simpl in E. subst w'. exists [ev]. unfold frame. simpl. rewrite T.
  split; [reflexivity|]. split; [by constructor|]. split; [done|]. split; [done|].
  split.
  - intros F. inversion F; subst. by apply K.
  - intros Hq F. inversion F; subst. by apply Q.
Qed.

Lemma emits_mapM {A B} P (f : A -> M B) (l : list A) :
  (forall x, emits P (f x)) -> emits P (mapM f l).
Proof.
  intros Hf. induction l as [|x l IH]; simpl.
  - apply emits_ret.
  - apply emits_bind; [apply Hf|]. intros y.
    apply emits_bind; [apply IH|]. intros ys. apply emits_ret.
Qed.

Lemma emits_if {A} P (b : bool) (m1 m2 : M A) :
  emits P m1 -> emits P m2 -> emits P (if b then m1 else m2).
Proof. by destruct b. Qed.

Lemma emits_weaken {A} (P Q : Event -> bool) (m : M A) :
  (forall ev, P ev = true -> Q ev = true) -> emits P m -> emits Q m.
Proof.
  intros HPQ Hm w r w' H. destruct (Hm _ _ _ H) as (d & E & F & R).
  exists d. split; [done|]. split; [|done]. eapply Forall_impl; [exact F|]. exact HPQ.
Qed.

Ltac emits_prim := apply emits_one; intros ?; eexists _, _; simpl; eauto 10.

Lemma emits_getcwd P : P EvGetcwd = true -> emits P Sys.getcwd.
Proof. intros HP. emits_prim. Qed.

Lemma emits_read P path : (forall r, P (EvRead path r) = true) -> emits P (Sys.read path).
Proof. intros HP. emits_prim. Qed.

Lemma emits_exists P path : (forall r, P (EvExists path r) = true) -> emits P (Sys.exists_ path).
Proof. intros HP. emits_prim. Qed.

Lemma emits_listdir P path : (forall r, P (EvListdir path r) = true) -> emits P (Sys.listdir path).
Proof. intros HP. emits_prim. Qed.

Lemma emits_getsize P path : (forall r, P (EvGetsize path r) = true) -> emits P (Sys.getsize path).
Proof. intros HP. emits_prim. Qed.

Lemma emits_sleep P : P EvSleep = true -> emits P Sys.sleep.
Proof. intros HP. emits_prim. Qed.

Lemma emits_query P q : (forall r, P (EvQuery q r) = true) -> emits P (query q).
Proof.
  intros HP. apply emits_one. intros w. unfold query.
  pose proof (fun Hq : quiet (engine w) => Hq (trace w) q (fs w)) as Hq.
  destruct (engine w (trace w) q (fs w)) as [r f]. eexists _, _. simpl.
  repeat split; eauto; discriminate.
Qed.

Lemma emits_rmtree P path : (forall r, P (EvRmtree path r) = true) -> emits P (Sys.rmtree path).
Proof.
  intros HP. apply emits_one. intros w. unfold Sys.rmtree.
  destruct (rmtree_faults w) as [|e rest];
    [destruct (Sys.stat w path) as [[]|]|]; eexists _, _; simpl;
    repeat split; eauto; discriminate.
Qed.

Lemma emits_chown P user group path :
  (forall r, P (EvChown user group path r) = true) -> emits P (chown_dir_contents user group path).
Proof.
  intros HP. apply emits_one. intros w. unfold chown_dir_contents.
  destruct (Sys.stat w path) as [[]|]; eexists _, _; simpl;
    repeat split; eauto; discriminate.
Qed.

Lemma emits_as_str P v : emits P (Py.as_str v).
Proof. destruct v; simpl; first [apply emits_ret | apply emits_raise]. Qed.

Lemma emits_getitem P v k : emits P (Py.getitem v k).
Proof.
  destruct v; simpl; try apply emits_raise.
  destruct (Py.assoc k fields); [apply emits_ret | apply emits_raise].
Qed.

Lemma emits_iterate P v : emits P (Py.iterate v).
Proof. destruct v; simpl; first [apply emits_ret | apply emits_raise]. Qed.

Lemma emits_config_get P c k : emits P (config_get c k).
Proof. unfold config_get. destruct (c !! k); [apply emits_ret | apply emits_raise]. Qed.

Lemma emits_py_assert P b : emits P (py_assert b).
Proof. destruct b; [apply emits_ret | apply emits_raise]. Qed.

Lemma emits_try_except {A} P (body : M A) catches handler :
  emits P body -> emits P handler -> emits P (try_except body catches handler).
Proof.
  intros Hb Hh w r w' H. unfold try_except in H.
  destruct (body w) as [[a|e] w1] eqn:E.
  - inversion H; subst. exact (Hb _ _ _ E).
  - destruct (Hb _ _ _ E) as (d1 & R1). destruct (catches e).
    + destruct (Hh _ _ _ H) as (d2 & R2). exists (d1 ++ d2)%list.
      by apply (emits_seq P w w1 w').
    + inversion H; subst. eauto.
Qed.

Lemma emits_retry_go {A} P exception_types n (f : M A) :
  P EvSleep = true -> emits P f -> emits P (retry_go exception_types n f).
Proof.
  intros HS Hf. induction n as [|n IH]; intros w r w' H; simpl in H.
  - destruct (f w) as [[a|e] w1] eqn:E; inversion H; subst; exact (Hf _ _ _ E).
  - destruct (f w) as [[a|e] w1] eqn:E.
    + inversion H; subst. exact (Hf _ _ _ E).
    + destruct (Hf _ _ _ E) as (d1 & R1). destruct (exception_types e).
      * assert (Hrest : emits P (Sys.sleep ;; retry_go exception_types n f)).
        { apply emits_bind; [by apply emits_sleep | intros _; exact IH]. }
        destruct (Hrest _ _ _ H) as (d2 & R2). exists (d1 ++ d2)%list.
        by apply (emits_seq P w w1 w').
      * inversion H; subst. eauto.
Qed.

Create HintDb emits.
#[local] Hint Resolve emits_ret emits_raise emits_bind emits_mapM emits_if emits_getcwd
  emits_read emits_exists emits_listdir emits_getsize emits_sleep emits_query emits_rmtree
  emits_chown emits_as_str emits_getitem emits_iterate emits_config_get emits_py_assert
  emits_try_except emits_retry_go : emits.

(** ** The version gate *)

Lemma str_app_cons c (s t : string) : String c s +:+ t = String c (s +:+ t).
Proof. reflexivity. Qed.

Lemma str_app_assoc (s1 s2 s3 : string) : (s1 +:+ s2) +:+ s3 = s1 +:+ (s2 +:+ s3).
Proof. induction s1 as [|c s1 IH]; [done|]. by rewrite !str_app_cons, IH. Qed.

Lemma str_app_length (s1 s2 : string) :
  String.length (s1 +:+ s2) = (String.length s1 + String.length s2)%nat.
Proof.
  induction s1 as [|c s1 IH]; [done|].
  rewrite str_app_cons. cbn [String.length]. by rewrite IH.
Qed.

Lemma str_app_nil_r (s : string) : s +:+ "" = s.
Proof. induction s as [|c s IH]; [done|]. by rewrite str_app_cons, IH. Qed.

Lemma digits_go_all s : forall acc n,
  PyStr.digits_go acc s = Some n ->
  forallb PyStr.is_digit (list_ascii_of_string s) = true.
Proof.
  induction s as [|c s IH]; intros acc n; simpl; [done|].
  destruct (PyStr.is_digit c); [apply IH | discriminate].
Qed.

Lemma digits_go_nonneg s : forall acc n, (0 <= acc)%Z -> PyStr.digits_go acc s = Some n -> (0 <= n)%Z.
Proof.
  induction s as [|c s IH]; simpl; intros acc n Hacc H.
  - by inversion H; subst.
  - unfold PyStr.is_digit in H.
    destruct (_ && _) eqn:E; [|discriminate].
    apply andb_prop in E as [E1 E2]. apply Z.leb_le in E1, E2.
    eapply IH; [|exact H]. lia.
Qed.

Lemma digits_nonneg s n : PyStr.digits s = Some n -> (0 <= n)%Z.
Proof.
  destruct s; [discriminate|]. unfold PyStr.digits.
  apply digits_go_nonneg. lia.
Qed.

Lemma all_some_Forall {A} (P : A -> Prop) (l : list (option A)) r :
  Version.all_some l = Some r -> Forall (fun o => forall x, o = Some x -> P x) l -> Forall P r.
Proof.
  revert r. induction l as [|[x|] l IH]; simpl; intros r H F.
  - inversion H. constructor.
  - destruct (Version.all_some l) as [xs|]; [|discriminate]. inversion H; subst.
    inversion F; subst. constructor; eauto.
  - discriminate.
Qed.

Lemma str_app_nil_l (s : string) : "" +:+ s = s.
Proof. reflexivity. Qed.

(** *** What the pattern takes first *)

Lemma head_next {A B} (p : Version.Pat A) (k : A -> Version.Pat B) s a r x :
  head (p s) = Some (a, r) -> head (k a r) = Some x ->
  head (Version.next p k s) = Some x.
Proof.
  unfold Version.next. destruct (p s) as [|[a' r'] l]; [done|].
  intros [= -> ->] H. cbn [flat_map fst snd].
  destruct (k a r); [done|]. by simplify_eq/=.
Qed.

Lemma next_nil {A B} (p : Version.Pat A) (k : A -> Version.Pat B) s :
  Forall (fun ar => k (fst ar) (snd ar) = []) (p s) -> Version.next p k s = [].
Proof.
  unfold Version.next. induction 1 as [|x l H _ IH]; [done|].
  cbn [flat_map]. by rewrite H, IH.
Qed.

Lemma next_one {A B} (p : Version.Pat A) (k : A -> Version.Pat B) s a r :
  p s = [(a, r)] -> Version.next p k s = k a r.
Proof. unfold Version.next. intros ->. cbn [flat_map fst snd]. by rewrite app_nil_r. Qed.

Lemma maybe_skip {A} (p : Version.Pat A) s : p s = [] -> Version.maybe p s = [(None, s)].
Proof.
  intros H. unfold Version.maybe, Version.either, Version.next. by rewrite H.
Qed.

Lemma head_app_l {A} (l l' : list A) x : head l = Some x -> head (l ++ l') = Some x.
Proof. by destruct l. Qed.

Lemma head_maybe {A} (p : Version.Pat A) s a r :
  head (p s) = Some (a, r) -> head (Version.maybe p s) = Some (Some a, r).
Proof.
  intros H. unfold Version.maybe, Version.either. apply head_app_l.
  by apply (head_next p _ s a r).
Qed.

(** characters *)
Lemma ascii_cases (P : ascii -> bool) :
  forallb P (map ascii_of_nat (seq 0 256)) = true -> forall c, P c = true.
Proof.
  intros H c. rewrite forallb_forall in H. apply H.
  apply in_map_iff. exists (nat_of_ascii c). split; [apply ascii_nat_embedding|].
  apply in_seq. pose proof (nat_ascii_bounded c). lia.
Qed.

Lemma head_many c a : forall rest,
  all_of c a = true -> starts_with c rest = false ->
  head (Version.many c (a +:+ rest)) = Some (a, rest).
Proof.
  induction a as [|x a IH]; intros rest Ha Hr.
  - rewrite str_app_nil_l. destruct rest as [|y r]; [done|].
    cbn [starts_with] in Hr. cbn [Version.many]. by rewrite Hr.
  - unfold all_of in Ha. cbn [list_ascii_of_string forallb] in Ha.
    apply andb_prop in Ha as [Hx Ha]. rewrite str_app_cons. cbn [Version.many]. rewrite Hx.
    apply head_app_l. specialize (IH rest Ha Hr).
    destruct (Version.many c (a +:+ rest)) as [|[a' r'] l]; [done|].
    by simplify_eq/=.
Qed.

Lemma head_some c x a rest :
  c x = true -> all_of c a = true -> starts_with c rest = false ->
  head (Version.some c (String x a +:+ rest)) = Some (String x a, rest).
Proof.
  intros Hx Ha Hr. unfold Version.some. rewrite str_app_cons.
  eapply head_next; [cbn [Version.one]; by rewrite Hx|].
  eapply head_next; [by apply head_many|]. done.
Qed.

Lemma some_nil c s : starts_with c s = false -> Version.some c s = [].
Proof.
  intros H. unfold Version.some. apply next_nil.
  destruct s as [|x r]; [constructor|]. cbn [starts_with] in H. cbn [Version.one].
  rewrite H. constructor.
Qed.

Lemma digits_shape d n :
  PyStr.digits d = Some n ->
  exists x a, d = String x a /\ PyStr.is_digit x = true /\ all_of PyStr.is_digit a = true.
Proof.
  destruct d as [|x a]; [done|]. unfold PyStr.digits. intros H.
  apply digits_go_all in H. cbn [list_ascii_of_string forallb] in H.
  apply andb_prop in H as [Hx Ha]. by exists x, a.
Qed.

Lemma int_digits d n : PyStr.digits d = Some n -> Version.int d = n.
Proof. unfold Version.int. by intros ->. Qed.

Lemma lower_other x c :
  Version.is_alnum c = false -> Ascii.eqb (Version.lower x) c = Ascii.eqb x c.
Proof.
  intros Hc.
  pose proof (ascii_cases (fun x => forallb (fun c => implb (negb (Version.is_alnum c))
      (Bool.eqb (Ascii.eqb (Version.lower x) c) (Ascii.eqb x c)))
      (map ascii_of_nat (seq 0 256))) ltac:(vm_compute; reflexivity) x) as K.
  cbv beta in K. rewrite forallb_forall in K. specialize (K c).
  rewrite Hc in K. cbn [negb implb] in K. apply Bool.eqb_prop. apply K.
  apply in_map_iff. exists (nat_of_ascii c). split; [apply ascii_nat_embedding|].
  apply in_seq. pose proof (nat_ascii_bounded c). lia.
Qed.

Lemma digit_not_alnum_free c : PyStr.is_digit c = true -> Ascii.eqb c "!" = false /\ Ascii.eqb c "." = false.
Proof.
  intros H. pose proof (ascii_cases (fun c => implb (PyStr.is_digit c)
     (negb (Ascii.eqb c "!") && negb (Ascii.eqb c "."))) ltac:(vm_compute; reflexivity) c) as K.
  cbv beta in K. rewrite H in K. cbn [implb] in K. apply andb_prop in K as [K1 K2].
  by destruct (Ascii.eqb c "!"), (Ascii.eqb c ".").
Qed.

(** No epoch: the digits are not followed by [!]. *)
Lemma many_digits_no_bang d : forall rest,
  all_of PyStr.is_digit d = true ->
  starts_with PyStr.is_digit rest = false -> starts_with (Ascii.eqb "!") rest = false ->
  Forall (fun ar => Version.word "!" (snd ar) = []) (Version.many PyStr.is_digit (d +:+ rest)).
Proof.
  induction d as [|x d IH]; intros rest Hd Hr Hb.
  - rewrite str_app_nil_l. destruct rest as [|y r]; [repeat constructor|].
    cbn [starts_with] in *. cbn [Version.many]. rewrite Hr. repeat constructor.
    cbn [snd Version.word]. rewrite (lower_other y "!") by done.
    rewrite Ascii.eqb_sym. by rewrite Hb.
  - unfold all_of in Hd. cbn [list_ascii_of_string forallb] in Hd.
    apply andb_prop in Hd as [Hx Hd]. rewrite str_app_cons. cbn [Version.many]. rewrite Hx.
    apply Forall_app. split.
    + apply Forall_map. eapply Forall_impl; [by apply IH|]. by intros [a r].
    + repeat constructor. cbn [snd Version.word]. rewrite (lower_other x "!") by done.
      by rewrite (proj1 (digit_not_alnum_free x Hx)).
Qed.

Lemma some_eq c x r :
  c x = true ->
  Version.some c (String x r) = map (fun ar => (String x (fst ar), snd ar)) (Version.many c r).
Proof.
  intros Hx. unfold Version.some, Version.next. cbn [Version.one]. rewrite Hx.
  cbn [flat_map fst snd]. rewrite app_nil_r.
  induction (Version.many c r) as [|[a r'] l IH]; [done|].
  cbn [flat_map map fst snd Version.pure app]. by rewrite IH.
Qed.

Lemma epoch_none d rest :
  all_of PyStr.is_digit d = true ->
  starts_with PyStr.is_digit rest = false -> starts_with (Ascii.eqb "!") rest = false ->
  Version.epoch_pat (d +:+ rest) = [].
Proof.
  intros Hd Hr Hb. unfold Version.epoch_pat. apply next_nil.
  destruct d as [|x d].
  - rewrite str_app_nil_l. rewrite some_nil by done. constructor.
  - unfold all_of in Hd. cbn [list_ascii_of_string forallb] in Hd.
    apply andb_prop in Hd as [Hx Hd]. rewrite str_app_cons, some_eq by done.
    apply Forall_map. eapply Forall_impl; [by apply many_digits_no_bang|].
    intros [a r] H. cbn [fst snd] in *. apply next_nil. rewrite H. constructor.
Qed.

Lemma join_dots d ds rest : PyStr.join_with "." (d :: ds) +:+ rest = d +:+ dots ds rest.
Proof.
  revert d. induction ds as [|d2 ds IH]; intros d; [done|].
  change (PyStr.join_with "." (d :: d2 :: ds)) with (d +:+ "." +:+ PyStr.join_with "." (d2 :: ds)).
  rewrite !str_app_assoc, IH. reflexivity.
Qed.

Lemma ends_release_no_digit rest :
  ends_release rest = true -> starts_with PyStr.is_digit rest = false.
Proof.
  destruct rest as [|c r]; [done|]. cbn [ends_release starts_with].
  by destruct (PyStr.is_digit c).
Qed.

Lemma ends_release_no_bang rest :
  ends_release rest = true -> starts_with (Ascii.eqb "!") rest = false.
Proof.
  destruct rest as [|c r]; [done|]. cbn [ends_release starts_with].
  rewrite (Ascii.eqb_sym "!" c). destruct (Ascii.eqb c "!"); [|done].
  by rewrite andb_false_r.
Qed.

Lemma dots_no_digit ds rest :
  ends_release rest = true -> starts_with PyStr.is_digit (dots ds rest) = false.
Proof. destruct ds; [apply ends_release_no_digit | done]. Qed.

Lemma dots_no_bang ds rest :
  ends_release rest = true -> starts_with (Ascii.eqb "!") (dots ds rest) = false.
Proof. destruct ds; [apply ends_release_no_bang | done]. Qed.

Lemma group_nil rest :
  ends_release rest = true ->
  Version.next (Version.word ".") (fun _ => Version.some PyStr.is_digit) rest = [].
Proof.
  intros H. apply next_nil. destruct rest as [|c r]; [constructor|].
  cbn [Version.word]. rewrite (lower_other c ".") by done.
  destruct (Ascii.eqb c ".") eqn:E; [|constructor].
  cbn [map fst snd]. repeat constructor. cbn [fst snd]. apply some_nil.
  cbn [ends_release] in H. rewrite E in H. cbn [andb] in H.
  destruct (starts_with PyStr.is_digit r); [|done]. by rewrite !andb_false_r in H.
Qed.

Lemma head_group d s :
  is_number d -> starts_with PyStr.is_digit s = false ->
  head (Version.next (Version.word ".") (fun _ => Version.some PyStr.is_digit)
          ("." +:+ d +:+ s)) = Some (d, s).
Proof.
  intros [n (x & a & -> & Hx & Ha)%digits_shape] Hs.
  eapply head_next; [reflexivity|]. by apply head_some.
Qed.

Lemma head_star_go ds : forall n rest,
  length ds <= n -> Forall is_number ds -> ends_release rest = true ->
  head (Version.star_go n (Version.next (Version.word ".") (fun _ => Version.some PyStr.is_digit))
          (dots ds rest)) = Some (ds, rest).
Proof.
  induction ds as [|d ds IH]; intros n rest Hn Hds Hr.
  - cbn [dots fold_right]. destruct n; [done|]. cbn [Version.star_go]. unfold Version.either.
    rewrite (next_nil _ _ rest); [done|]. rewrite group_nil by done. constructor.
  - destruct n as [|n]; [cbn [length] in Hn; lia|].
    inversion Hds as [|? ? Hd Hds']; subst.
    cbn [dots fold_right]. fold (dots ds rest). cbn [Version.star_go]. unfold Version.either.
    apply head_app_l. eapply head_next.
    { apply head_group; [done | by apply dots_no_digit]. }
    eapply head_next; [apply IH; [cbn [length] in Hn; lia | done | done]|]. done.
Qed.

Lemma dots_length ds rest : length ds <= String.length (dots ds rest).
Proof.
  induction ds as [|d ds IH]; [cbn; lia|].
  cbn [dots fold_right length]. fold (dots ds rest).
  rewrite str_app_cons. cbn [String.length]. rewrite str_app_nil_l.
  assert (L : forall a b, String.length b <= String.length (a +:+ b)).
  { intros a b. induction a as [|x a IHa]; [done|]. rewrite str_app_cons. cbn [String.length]. lia. }
  specialize (L d (dots ds rest)). lia.
Qed.

Lemma head_release d ds rest :
  Forall is_number (d :: ds) -> ends_release rest = true ->
  head (Version.release_pat (PyStr.join_with "." (d :: ds) +:+ rest)) = Some (d :: ds, rest).
Proof.
  intros Hds Hr. inversion Hds as [|? ? Hd Hds']; subst.
  rewrite join_dots. unfold Version.release_pat.
  destruct Hd as [n (x & a & -> & Hx & Ha)%digits_shape].
  eapply head_next; [apply head_some; [done | done | by apply dots_no_digit]|].
  eapply head_next; [|done].
  unfold Version.star. apply head_star_go; [apply dots_length | done | done].
Qed.

Lemma digit_first x :
  PyStr.is_digit x = true ->
  Version.is_space x = false /\ Ascii.eqb (Version.lower x) "v" = false.
Proof.
  intros H. pose proof (ascii_cases (fun c => implb (PyStr.is_digit c)
     (negb (Version.is_space c) && negb (Ascii.eqb (Version.lower c) "v")))
     ltac:(vm_compute; reflexivity) x) as K.
  cbv beta in K. rewrite H in K. cbn [implb] in K. apply andb_prop in K as [K1 K2].
  by destruct (Version.is_space x), (Ascii.eqb (Version.lower x) "v").
Qed.

Lemma head_tail_of rest tl :
  Version.tail_of rest = Some tl -> exists r, head (Version.tail_pat rest) = Some (tl, r).
Proof.
  unfold Version.tail_of. destruct (head (Version.tail_pat rest)) as [[tl' r]|]; [|done].
  intros [= <-]. by exists r.
Qed.

Lemma search_release lead vee d ds rest tl :
  all_of Version.is_space lead = true -> optional_v vee = true ->
  Forall is_number (d :: ds) -> ends_release rest = true ->
  Version.tail_of rest = Some tl ->
  Version.search (lead +:+ vee +:+ PyStr.join_with "." (d :: ds) +:+ rest)
    = Some (Version.mkGroups None (d :: ds) tl).
Proof.
  intros Hl Hv Hds Hr Ht. destruct (head_tail_of _ _ Ht) as [r' Ht'].
  pose proof (head_release d ds rest Hds Hr) as Hrel.
  inversion Hds as [|? ? [n (x & a & -> & Hx & Ha)%digits_shape] Hds']; subst.
  destruct (digit_first x Hx) as [Hsp Hvee].
  set (body := PyStr.join_with "." (String x a :: ds) +:+ rest) in *.
  assert (Hbody : body = String x (a +:+ dots ds rest)).
  { unfold body. by rewrite join_dots. }
  unfold Version.search.
  cut (head (Version.version_pat (lead +:+ vee +:+ body))
       = Some (Version.mkGroups None (String x a :: ds) tl, r')); [by intros ->|].
  unfold Version.version_pat.
  assert (Hstart : starts_with Version.is_space (vee +:+ body) = false).
  { unfold optional_v in Hv. cbn [existsb] in Hv. rewrite Hbody.
    destruct (String.eqb_spec vee "") as [->|_]; [exact Hsp|].
    destruct (String.eqb_spec vee "v") as [->|_]; [done|].
    destruct (String.eqb_spec vee "V") as [->|_]; [done|]. done. }
  eapply head_next; [by apply head_many|].
  assert (Hv' : exists o, head (Version.maybe (Version.word "v") (vee +:+ body)) = Some (o, body)).
  { unfold optional_v in Hv. cbn [existsb] in Hv.
    destruct (String.eqb_spec vee "") as [->|_].
    { exists None. rewrite str_app_nil_l, maybe_skip; [done|].
      rewrite Hbody. cbn [Version.word]. by rewrite Hvee. }
    destruct (String.eqb_spec vee "v") as [->|_].
    { exists (Some "v"). by apply head_maybe. }
    destruct (String.eqb_spec vee "V") as [->|_]; [|done].
    exists (Some "V"). by apply head_maybe. }
  destruct Hv' as [o Ho].
  eapply head_next; [exact Ho|].
  eapply head_next.
  { rewrite maybe_skip; [reflexivity|]. rewrite Hbody.
    change (String x (a +:+ dots ds rest)) with (String x a +:+ dots ds rest).
    apply epoch_none; [|by apply dots_no_digit | by apply dots_no_bang].
    unfold all_of. cbn [list_ascii_of_string forallb]. by rewrite Hx. }
  eapply head_next; [exact Hrel|].
  eapply head_next; [exact Ht'|]. done.
Qed.

Lemma Forall2_digits_int ds ns :
  Forall2 (fun d n => PyStr.digits d = Some n) ds ns -> map Version.int ds = ns.
Proof. induction 1 as [|d n ds ns H _ IH]; [done|]. cbn [map]. by rewrite (int_digits _ _ H), IH. Qed.

Lemma Forall2_digits_number ds ns :
  Forall2 (fun d n => PyStr.digits d = Some n) ds ns -> Forall is_number ds.
Proof. induction 1 as [|d n ds ns H _ IH]; constructor; [by exists n | done]. Qed.

Lemma parse_release lead vee ds ns rest tl :
  all_of Version.is_space lead = true -> optional_v vee = true ->
  ds <> [] -> Forall2 (fun d n => PyStr.digits d = Some n) ds ns ->
  ends_release rest = true ->
  Version.tail_of rest = Some tl ->
  Version.parse (lead +:+ vee +:+ PyStr.join_with "." ds +:+ rest)
    = Some (Version.of_tail 0 ns tl).
Proof.
  intros Hl Hv Hne Hds Hr Ht. destruct ds as [|d ds]; [done|].
  unfold Version.parse.
  rewrite (search_release lead vee d ds rest tl Hl Hv (Forall2_digits_number _ _ Hds) Hr Ht).
  cbn [fmap option_fmap option_map]. unfold Version.of_groups.
  cbn [Version.epoch_g Version.release_g Version.tail_g].
  by rewrite (Forall2_digits_int _ _ Hds).
Qed.

Lemma space_first c :
  Version.is_space c = true ->
  Version.is_sep c = false
  /\ forallb (fun x => negb (Ascii.eqb (Version.lower c) x)) first_chars = true.
Proof.
  intros H. pose proof (ascii_cases (fun c => implb (Version.is_space c)
     (negb (Version.is_sep c)
      && forallb (fun x => negb (Ascii.eqb (Version.lower c) x)) first_chars))
     ltac:(vm_compute; reflexivity) c) as K.
  cbv beta in K. rewrite H in K. cbn [implb] in K. apply andb_prop in K as [K1 K2].
  split; [by destruct (Version.is_sep c) | done].
Qed.

Lemma word_first c w x r :
  Ascii.eqb (Version.lower x) c = false -> Version.word (String c w) (String x r) = [].
Proof. intros H. cbn [Version.word]. by rewrite H. Qed.

Lemma sep_skip s :
  starts_with Version.is_sep s = false -> Version.maybe (Version.one Version.is_sep) s = [(None, s)].
Proof.
  intros H. apply maybe_skip. destruct s as [|x r]; [done|].
  cbn [starts_with] in H. cbn [Version.one]. by rewrite H.
Qed.

Lemma next_nil_1 {A B} (p : Version.Pat A) (k : A -> Version.Pat B) s :
  p s = [] -> Version.next p k s = [].
Proof. intros H. apply next_nil. rewrite H. constructor. Qed.

Lemma tail_parts_nil s :
  starts_with (fun c => negb (Version.is_space c)) s = false ->
  Version.pre_pat s = [] /\ Version.post_pat s = [] /\ Version.dev_pat s = []
  /\ Version.local_pat s = [].
Proof.
  destruct s as [|c r]; [done|]. cbn [starts_with]. intros H%negb_false_iff.
  destruct (space_first c H) as [Hs Hf]. cbn [first_chars forallb] in Hf.
  repeat (apply andb_prop in Hf as [?%negb_true_iff Hf]).
  unfold Version.pre_pat, Version.post_pat, Version.dev_pat, Version.local_pat.
  unfold Version.either at 1.
  rewrite !(next_one _ _ _ _ _ (sep_skip (String c r) Hs)).
  rewrite !(next_nil_1 (Version.word _)) by by apply word_first.
  rewrite !(next_nil_1 (Version.words _)); [done| |];
    cbn [Version.words]; unfold Version.either; by rewrite !word_first.
Qed.

Lemma space_ends_release s :
  starts_with (fun c => negb (Version.is_space c)) s = false -> ends_release s = true.
Proof.
  destruct s as [|c r]; [done|]. cbn [starts_with ends_release]. intros H%negb_false_iff.
  pose proof (ascii_cases (fun c => implb (Version.is_space c)
     (negb (PyStr.is_digit c) && negb (Ascii.eqb c "!") && negb (Ascii.eqb c ".")))
     ltac:(vm_compute; reflexivity) c) as K.
  cbv beta in K. rewrite H in K. cbn [implb] in K.
  apply andb_prop in K as [[K1 K2]%andb_prop K3]. rewrite K1, K2. cbn [andb].
  by destruct (Ascii.eqb c ".").
Qed.

Lemma all_of_starts c s :
  all_of c s = true -> starts_with (fun x => negb (c x)) s = false.
Proof.
  destruct s as [|x r]; [done|]. unfold all_of. cbn [list_ascii_of_string forallb starts_with].
  by intros [-> _]%andb_prop.
Qed.

Lemma tail_of_blank trail :
  all_of Version.is_space trail = true -> Version.tail_of trail = Some no_tail.
Proof.
  intros H. pose proof (tail_parts_nil trail (all_of_starts _ _ H)) as (H1 & H2 & H3 & H4).
  unfold Version.tail_of, Version.tail_pat.
  rewrite (next_one _ _ _ _ _ (maybe_skip _ _ H1)).
  rewrite (next_one _ _ _ _ _ (maybe_skip _ _ H2)).
  rewrite (next_one _ _ _ _ _ (maybe_skip _ _ H3)).
  rewrite (next_one _ _ _ _ _ (maybe_skip _ _ H4)).
  pose proof (head_many Version.is_space trail "" H eq_refl) as Hm.
  assert (E : trail +:+ "" = trail).
  { clear. induction trail as [|x t IH]; [done|]. by rewrite str_app_cons, IH. }
  rewrite E in Hm.
  match goal with |- _ <$> ?h = _ => assert (K : h = Some (no_tail, "")) end.
  { eapply head_next; [exact Hm|]. reflexivity. }
  by rewrite K.
Qed.

(** *** The order of versions *)

Lemma int_nonneg d : (0 <= Version.int d)%Z.
Proof.
  unfold Version.int. destruct (PyStr.digits d) as [n|] eqn:E; [|done].
  by apply digits_nonneg in E.
Qed.

Lemma parse_nonneg v ver :
  Version.parse v = Some ver ->
  (0 <= Version.epoch ver)%Z /\ Forall (fun n => (0 <= n)%Z) (Version.release ver).
Proof.
  unfold Version.parse. destruct (Version.search v) as [g|]; [|done].
  intros [= <-]. unfold Version.of_groups, Version.of_tail.
  cbn [Version.epoch Version.release]. split.
  - destruct (Version.epoch_g g); [apply int_nonneg | done].
  - apply Forall_map, Forall_forall. intros d _. apply int_nonneg.
Qed.

Lemma parse_min_version : Version.parse "18.16.0" = Some (plain [18; 16; 0]%Z).
Proof. vm_compute. reflexivity. Qed.

Lemma drop_zeros_snoc l x :
  Version.drop_zeros (l ++ [x]) =
    match Version.drop_zeros l with
    | [] => Version.drop_zeros [x]
    | k => k ++ [x]
    end.
Proof.
  induction l as [|y l IH]; [done|].
  destruct y as [|p|p]; [exact IH | done | done].
Qed.

(** The comparison key, from the left. *)
Lemma cmpkey_cons x a :
  Version.cmpkey (x :: a) =
    match Version.cmpkey a with
    | [] => if (x =? 0)%Z then [] else [x]
    | k => x :: k
    end.
Proof.
  unfold Version.cmpkey. cbn [rev]. rewrite drop_zeros_snoc.
  destruct (Version.drop_zeros (rev a)) as [|z k]; cbn [rev].
  - by destruct x.
  - rewrite rev_app_distr. cbn [rev app].
    destruct (rev k ++ [z]) eqn:E; [|done].
    by destruct (rev k).
Qed.

Lemma ge_zeros_nonneg a : Forall (fun n => (0 <= n)%Z) a -> ge_zeros a = true.
Proof.
  induction 1 as [|x a Hx _ IH]; [done|]. cbn [ge_zeros].
  destruct (Z.eqb_spec x 0); [done|]. apply Z.ltb_lt. lia.
Qed.

Lemma tuple_ge_nil_r a : Version.tuple_ge a [] = true.
Proof. by destruct a. Qed.

Lemma tuple_ge_nil_cmpkey b :
  Forall (fun n => (0 <= n)%Z) b -> Version.tuple_ge [] (Version.cmpkey b) = zeros_ge b.
Proof.
  induction 1 as [|y b Hy _ IH]; [done|].
  rewrite cmpkey_cons. cbn [zeros_ge].
  destruct (Version.cmpkey b) as [|z k]; destruct (Z.eqb_spec y 0); cbn [Version.tuple_ge];
    try done; symmetry; apply Z.ltb_ge; lia.
Qed.

(** On plain release numbers the library's order is the order of versions. *)
Lemma version_ge_release a : forall b,
  Forall (fun n => (0 <= n)%Z) a -> Forall (fun n => (0 <= n)%Z) b ->
  Version.tuple_ge (Version.cmpkey a) (Version.cmpkey b) = release_ge a b.
Proof.
  induction a as [|x a IH]; intros b Ha Hb.
  - change (Version.cmpkey []) with (@nil Z). cbn [release_ge]. by apply tuple_ge_nil_cmpkey.
  - inversion Ha as [|? ? Hx Ha']; subst. destruct b as [|y b].
    + change (Version.cmpkey []) with (@nil Z). rewrite tuple_ge_nil_r.
      cbn [release_ge]. symmetry. by apply ge_zeros_nonneg.
    + inversion Hb as [|? ? Hy Hb']; subst. cbn [release_ge].
      specialize (IH b Ha' Hb'). rewrite !cmpkey_cons.
      destruct (Z.eqb_spec x y) as [->|Hxy].
      * rewrite <- IH.
        destruct (Version.cmpkey a) as [|z1 k1], (Version.cmpkey b) as [|z2 k2];
          destruct (Z.eqb_spec y 0); cbn [Version.tuple_ge]; rewrite ?Z.eqb_refl; done.
      * destruct (Version.cmpkey a) as [|z1 k1], (Version.cmpkey b) as [|z2 k2];
          destruct (Z.eqb_spec x 0), (Z.eqb_spec y 0); cbn [Version.tuple_ge];
          try (destruct (Z.eqb_spec x y); [lia|]); try done;
          try (symmetry; apply Z.ltb_lt; lia); try (symmetry; apply Z.ltb_ge; lia); lia.
Qed.

(** On major.minor.patch the order of versions is the semantic one. *)
Lemma release_ge_semver a b c x y z :
  (0 <= c)%Z -> (0 <= z)%Z ->
  release_ge [a; b; c] [x; y; z] = semver_ge (a, b, c) (x, y, z).
Proof.
  intros Hc Hz. unfold semver_ge. cbn [release_ge zeros_ge ge_zeros].
  destruct (Z.eqb_spec a x), (Z.eqb_spec b y), (Z.eqb_spec c z);
    destruct (Z.ltb_spec x a), (Z.ltb_spec y b), (Z.ltb_spec z c), (Z.leb_spec z c);
    simpl; try reflexivity; lia.
Qed.

Lemma cmp_list_tuple_ge a : forall b,
  Version.tuple_ge a b =
    match Version.cmp_list Z.compare a b with Lt => false | _ => true end.
Proof.
  induction a as [|x a IH]; intros [|y b]; try done.
  cbn [Version.tuple_ge Version.cmp_list]. rewrite IH.
  destruct (Z.compare_spec x y) as [->|H|H].
  - by rewrite Z.eqb_refl.
  - destruct (Z.eqb_spec x y); [lia|]. cbn [Version.then_cmp]. apply Z.ltb_ge. lia.
  - destruct (Z.eqb_spec x y); [lia|]. cbn [Version.then_cmp]. apply Z.ltb_lt. lia.
Qed.

Lemma cmp_list_swap a : forall b,
  Version.cmp_list Z.compare b a = CompOpp (Version.cmp_list Z.compare a b).
Proof.
  induction a as [|x a IH]; intros [|y b]; try done.
  cbn [Version.cmp_list]. rewrite IH, (Z.compare_antisym x y).
  by destruct (x ?= y)%Z.
Qed.

Lemma ge_plain ver b :
  (0 <= Version.epoch ver)%Z ->
  Forall (fun n => (0 <= n)%Z) (Version.release ver) ->
  Forall (fun n => (0 <= n)%Z) b ->
  Version.ge ver (plain b) = version_ge ver b.
Proof.
  intros He Hr Hb. unfold Version.ge, version_ge, Version._cmpkey, Version.cmp_key, plain.
  cbn [Version.epoch Version.release Version.pre Version.post Version.dev Version.local].
  rewrite <- !version_ge_release by done.
  rewrite !cmp_list_tuple_ge, (cmp_list_swap (Version.cmpkey (Version.release ver))).
  destruct (Z.compare_spec (Version.epoch ver) 0) as [E|E|E]; [|lia|].
  2:{ cbn [Version.then_cmp]. by rewrite (proj2 (Z.ltb_lt _ _) E). }
  rewrite E. cbn [Version.then_cmp Z.ltb Z.eqb orb andb Z.compare].
  destruct (Version.cmp_list Z.compare _ _); cbn [Version.then_cmp CompOpp negb orb andb]; try done.
  unfold is_release.
  destruct (Version.pre ver), (Version.post ver), (Version.dev ver), (Version.local ver); done.
Qed.

Lemma version_ge_plain ns b : version_ge (plain ns) b = release_ge ns b.
Proof.
  unfold version_ge, plain, is_release.
  cbn [Version.epoch Version.release Version.pre Version.post Version.dev].
  by rewrite orb_true_r, andb_true_r.
Qed.

Lemma match_ch_version_parsed self v ver w :
  _ch_version self = VStr v ->
  Version.parse v = Some ver ->
  _match_ch_version self "18.16.0" w = (Ok (version_ge ver [18; 16; 0]%Z), w).
Proof.
  intros Hv Hp. unfold _match_ch_version. rewrite Hv.
  unfold Py.as_str, bind, ret. rewrite Hp, parse_min_version.
  destruct (parse_nonneg _ _ Hp) as [He Hr].
  rewrite (ge_plain ver [18; 16; 0]%Z He Hr); [done|]. repeat constructor; lia.
Qed.

Lemma match_ch_version_invalid self v min_version w :
  _ch_version self = VStr v ->
  Version.parse v = None ->
  _match_ch_version self min_version w = (Raise InvalidVersion, w).
Proof.
  intros Hv Hp. unfold _match_ch_version. rewrite Hv.
  unfold Py.as_str, bind, ret. by rewrite Hp.
Qed.

(** ** Footprints of the controller's methods *)

Ltac emits_step :=
  first
    [ apply emits_ret | apply emits_raise | apply emits_as_str | apply emits_getitem
    | apply emits_iterate | apply emits_config_get | apply emits_py_assert
    | apply emits_bind; [|intros ?]
    | apply emits_mapM; intros ?
    | apply emits_try_except
    | apply emits_getcwd; reflexivity
    | apply emits_sleep; reflexivity
    | apply emits_read; intros ?; reflexivity
    | apply emits_exists; intros ?; reflexivity
    | apply emits_listdir; intros ?; reflexivity
    | apply emits_getsize; intros ?; reflexivity
    | apply emits_query; intros ?; reflexivity
    | apply emits_rmtree; intros ?; reflexivity
    | apply emits_chown; intros ?; reflexivity
    | match goal with
      | |- emits _ (if ?b then _ else _) => destruct b
      | |- emits _ (match ?x with _ => _ end) => destruct x
      end ].
Ltac emits_auto := repeat emits_step.

Lemma emits_abspath P p : P EvGetcwd = true -> emits P (Sys.os_path_abspath p).
Proof.
  intros H. unfold Sys.os_path_abspath. destruct (PosixPath.isabs p).
  - apply emits_ret.
  - apply emits_bind; [by apply emits_getcwd | intros; apply emits_ret].
Qed.

Lemma emits_relpath P p start : P EvGetcwd = true -> emits P (Sys.os_path_relpath p start).
Proof.
  intros H. unfold Sys.os_path_relpath. destruct (bool_decide _); [apply emits_raise|].
  apply emits_bind; [by apply emits_abspath | intros a1].
  apply emits_bind; [by apply emits_abspath | intros a2].
  destruct (_ ++ _)%list; apply emits_ret.
Qed.

Lemma emits_get_part_size_loop P part_path files size :
  (forall p r, P (EvGetsize p r) = true) ->
  emits P (_get_part_size_loop part_path files size).
Proof.
  intros H. revert size. induction files as [|f files IH]; intros size; simpl.
  - apply emits_ret.
  - apply emits_bind; [by apply emits_getsize | intros n; apply IH].
Qed.

Lemma emits_get_table_data_relpath self db t :
  emits is_enum (_get_table_data_relpath self db t).
Proof.
  unfold _get_table_data_relpath, _get_table_data_path.
  apply emits_bind; [apply emits_query; intros; reflexivity | intros p].
  destruct (negb _); [apply emits_raise|].
  apply emits_bind; [apply emits_as_str | intros p']. by apply emits_relpath.
Qed.

Lemma emits_get_freezed_parts self db t : emits is_enum (_get_freezed_parts self db t).
Proof.
  unfold _get_freezed_parts, _get_shadow_increment, _get_part_checksum, _get_part_size.
  apply emits_bind; [emits_auto | intros inc].
  apply emits_bind; [apply emits_get_table_data_relpath | intros rel].
  apply emits_bind; [emits_auto | intros found].
  destruct (negb found); [apply emits_ret|].
  apply emits_bind; [emits_auto | intros parts].
  apply emits_mapM. intros part.
  apply emits_bind; [emits_auto | intros ck].
  apply emits_bind; [|intros; apply emits_ret].
  apply emits_bind; [emits_auto | intros files].
  by apply emits_get_part_size_loop.
Qed.

Lemma emits_get_partitions self db t : emits is_query (get_partitions self db t).
Proof. unfold get_partitions. emits_auto. Qed.

Lemma is_enum_snapshot ev : is_enum ev = true -> is_snapshot_call ev = true.
Proof. unfold is_snapshot_call. intros ->. apply orb_true_r. Qed.

Lemma is_query_snapshot ev : is_query ev = true -> is_snapshot_call ev = true.
Proof. unfold is_snapshot_call. by intros ->. Qed.

Lemma emits_freeze_table_compat_loop self db t ps acc :
  emits is_snapshot_call (_freeze_table_compat_loop self db t ps acc).
Proof.
  revert acc. induction ps as [|p ps IH]; intros acc; simpl.
  - apply emits_ret.
  - apply emits_bind; [apply emits_query; intros; reflexivity | intros _].
    apply emits_bind; [|intros parts; apply IH].
    eapply emits_weaken; [apply is_enum_snapshot | apply emits_get_freezed_parts].
Qed.

Lemma emits_freeze_table_compat self db t :
  emits is_snapshot_call (_freeze_table_compat self db t).
Proof.
  unfold _freeze_table_compat. apply emits_bind.
  - eapply emits_weaken; [apply is_query_snapshot | apply emits_get_partitions].
  - intros ps. apply emits_freeze_table_compat_loop.
Qed.

Lemma emits__freeze_table self db t : emits is_snapshot_call (_freeze_table self db t).
Proof.
  unfold _freeze_table. apply emits_bind; [apply emits_query; intros; reflexivity | intros _].
  eapply emits_weaken; [apply is_enum_snapshot | apply emits_get_freezed_parts].
Qed.

Lemma query_ok q w v w1 :
  query q w = (Ok v, w1) ->
  trace w1 = trace w ++ [EvQuery q (Ok v)] /\ cwd w1 = cwd w.
Proof.
  unfold query. destruct (engine w (trace w) q (fs w)) as [r f].
  intros H. inversion H; subst. done.
Qed.

(** The first call a computation makes when it starts with a query. *)
Lemma query_first {B} P q (k : PyVal -> M B) w :
  (forall a, emits P (k a)) ->
  exists r, trace (snd (bind (query q) k w)) !! length (trace w) = Some (EvQuery q r).
Proof.
  intros Hk. unfold bind, query.
  destruct (engine w (trace w) q (fs w)) as [r f]. exists r.
  set (w1 := emit (EvQuery q r) (set_fs w f)).
  assert (Hw1 : trace w1 = (trace w ++ [EvQuery q r])%list) by reflexivity.
  destruct r as [a|e].
  - destruct (k a w1) as [r' w'] eqn:E. destruct (Hk a _ _ _ E) as (d & Ed & _).
    cbn [snd]. rewrite Ed, Hw1, <- app_assoc. by apply list_lookup_middle.
  - cbn [snd]. rewrite Hw1. by apply list_lookup_middle.
Qed.



(** ** One enumeration, step by step *)

Lemma get_freezed_parts_inv self db t w r w' :
  _get_freezed_parts self db t w = (r, w') ->
  (exists e, r = Raise e /\
     (Sys.read (increment_file self) w = (Raise e, w') \/
      exists c w1, Sys.read (increment_file self) w = (Ok c, w1) /\
                   _get_table_data_relpath self db t w1 = (Raise e, w'))) \/
  exists c w1 rel w2,
    Sys.read (increment_file self) w = (Ok c, w1) /\
    _get_table_data_relpath self db t w1 = (Ok rel, w2) /\
    let path := snapshot_dir self (PyStr.strip c) rel in
    let w3 := emit (EvExists path (is_ok (Sys.stat w2 path))) w2 in
    (is_ok (Sys.stat w2 path) = false /\ r = Ok [] /\ w' = w3) \/
    (is_ok (Sys.stat w2 path) = true /\
       ((exists e, Sys.listdir path w3 = (Raise e, w') /\ r = Raise e) \/
        exists parts w4, Sys.listdir path w3 = (Ok parts, w4) /\
          mapM (freezed_part_of db t path) parts w4 = (r, w'))).
Proof.
  unfold _get_freezed_parts, _get_shadow_increment. intros H.
  apply bind_inv in H as [(inc & w1 & H1 & H) | (e & H1 & ->)].
  2:{ left. exists e. split; [done|]. left.
      apply bind_inv in H1 as [(c & w1 & H1 & H2) | (e' & H1 & E)].
      - inversion H2.
      - by inversion E; subst. }
  apply bind_inv in H1 as [(c & w0 & H1 & H2) | (e' & H1 & E)]; [|discriminate].
  inversion H2; subst inc w0. clear H2.
  apply bind_inv in H as [(rel & w2 & H2 & H) | (e & H2 & ->)].
  2:{ left. exists e. split; [done|]. right. eauto. }
  right. exists c, w1, rel, w2. split; [done|]. split; [done|].
  fold (snapshot_dir self (PyStr.strip c) rel) in H.
  set (path := snapshot_dir self (PyStr.strip c) rel) in *. cbn zeta.
  apply bind_inv in H as [(found & w3 & H3 & H) | (e & H3 & _)]; [|discriminate].
  unfold Sys.exists_ in H3. inversion H3; subst found w3. clear H3.
  destruct (is_ok (Sys.stat w2 path)) eqn:Es.
  - right. split; [done|]. simpl in H.
    apply bind_inv in H as [(parts & w4 & H4 & H) | (e & H4 & ->)]; eauto 10.
  - left. simpl in H. by inversion H.
Qed.

(** ** Checksums *)

Lemma get_part_checksum_ok part_path w ck w' :
  _get_part_checksum part_path w = (Ok ck, w') ->
  exists manifest, manifest_of w part_path = Some manifest /\ ck = MD5.hexdigest manifest.
Proof.
  unfold _get_part_checksum, manifest_of, bind, Sys.read, ret.
  destruct (Sys.stat w _) as [[content o|]|]; intros H; inversion H; eauto.
Qed.

Lemma get_part_checksum_run part_path w manifest :
  manifest_of w part_path = Some manifest ->
  fst (_get_part_checksum part_path w) = Ok (MD5.hexdigest manifest).
Proof.
  unfold _get_part_checksum, manifest_of, bind, Sys.read, ret.
  destruct (Sys.stat w _) as [[content o|]|]; intros H; inversion H; reflexivity.
Qed.

Lemma get_part_checksum_world part_path w :
  exists ev, snd (_get_part_checksum part_path w) = emit ev w.
Proof.
  unfold _get_part_checksum, bind, Sys.read.
  destruct (Sys.stat w _) as [[content o|]|]; simpl; eauto.
Qed.

(** ** Strings *)

(** Two strings with suffixes of the same length are equal only when the
    suffixes are. *)
Lemma str_app_eq_suffix (s1 s2 t1 t2 : string) :
  String.length t1 = String.length t2 -> s1 +:+ t1 = s2 +:+ t2 -> t1 = t2.
Proof.
  revert s2. induction s1 as [|c s1 IH]; intros s2 L E.
  - destruct s2 as [|d s2]; [exact E|].
    apply (f_equal String.length) in E. rewrite str_app_cons in E.
    cbn [String.length] in E. rewrite !str_app_length in E.
    cbn [String.length] in E. lia.
  - destruct s2 as [|d s2].
    + apply (f_equal String.length) in E. rewrite str_app_cons in E.
      cbn [String.length] in E. rewrite !str_app_length in E.
      cbn [String.length] in E. lia.
    + rewrite !str_app_cons in E. inversion E; subst. by eapply IH.
Qed.

(** ** Directory listings *)

Lemma strip_prefix_Some d : forall k r, Sys.strip_prefix d k = Some r -> k = (d ++ r)%list.
Proof.
  induction d as [|x d IH]; intros k r H; simpl in *.
  - by inversion H.
  - destruct k as [|y k]; [discriminate|].
    destruct (bool_decide_reflect (x = y)); [|discriminate].
    subst. f_equal. by apply IH.
Qed.

Lemma strip_prefix_app d r : Sys.strip_prefix d (d ++ r) = Some r.
Proof.
  induction d as [|x d IH]; simpl; [done|].
  by rewrite bool_decide_eq_true_2.
Qed.

Lemma child_of_Some d k n :
  Sys.child_of d k = Some n -> k = (d ++ [n])%list /\ Sys.valid_name n = true.
Proof.
  unfold Sys.child_of. destruct (Sys.strip_prefix d k) as [[|x [|? ?]]|] eqn:E; try discriminate.
  destruct (Sys.valid_name x) eqn:V; [|discriminate].
  intros H. inversion H; subst. split; [by apply strip_prefix_Some | done].
Qed.

Lemma NoDup_omap_inj {A B} (f : A -> option B) (l : list A) :
  (forall x y z, f x = Some z -> f y = Some z -> x = y) ->
  NoDup l -> NoDup (omap f l).
Proof.
  intros Hinj. induction 1 as [|x l Hx Hl IH]; simpl; [constructor|].
  destruct (f x) as [z|] eqn:E; [|exact IH].
  constructor; [|exact IH].
  intros Hin. apply list_elem_of_omap in Hin as (y & Hy & Ey).
  by rewrite (Hinj _ _ _ E Ey) in Hx.
Qed.

Lemma children_NoDup (f : FS) d : NoDup (Sys.children f d).
Proof.
  unfold Sys.children. apply NoDup_omap_inj.
  - intros k1 k2 n H1 H2.
    apply child_of_Some in H1 as [-> _]. by apply child_of_Some in H2 as [-> _].
  - apply NoDup_fst_map_to_list.
Qed.

Lemma children_valid (f : FS) d n : n ∈ Sys.children f d -> Sys.valid_name n = true.
Proof.
  unfold Sys.children. intros (k & _ & H)%list_elem_of_omap.
  by apply child_of_Some in H as [_ ?].
Qed.

Lemma listdir_ok dir w names w' :
  Sys.listdir dir w = (Ok names, w') ->
  NoDup names /\ Forall (fun n => Sys.valid_name n = true) names
  /\ fs w' = fs w /\ cwd w' = cwd w.
Proof.
  unfold Sys.listdir. destruct (Sys.stat w dir) as [[|]|]; intros H; inversion H; subst.
  split; [apply children_NoDup|]. split; [|done].
  apply Forall_forall. intros n. apply children_valid.
Qed.

Lemma valid_name_not_abs n : Sys.valid_name n = true -> PyStr.startswith n "/" = false.
Proof.
  unfold Sys.valid_name, PyStr.startswith. destruct n as [|c n]; [done|].
  intros H. apply andb_prop in H as [_ H]. cbn [list_ascii_of_string forallb] in H.
  apply andb_prop in H as [H _]. cbn [String.prefix].
  destruct (Ascii.ascii_dec "/" c) as [E|]; [|done].
  subst c. by rewrite bool_decide_eq_true_2 in H.
Qed.

(** Joining a directory and an entry name puts the name after a prefix
    that the directory alone decides. *)
Lemma join_entry dir n :
  PyStr.startswith n "/" = false ->
  PosixPath.join dir [n] =
    (if bool_decide (dir = "") || PyStr.endswith_char dir PosixPath.sep
     then dir else dir +:+ "/") +:+ n.
Proof.
  intros H. unfold PosixPath.join. simpl. unfold PosixPath.join2. rewrite H.
  destruct (_ || _); [done|]. by rewrite str_app_assoc.
Qed.

Lemma join_entry_inj dir n1 n2 :
  Sys.valid_name n1 = true -> Sys.valid_name n2 = true ->
  PosixPath.join dir [n1] = PosixPath.join dir [n2] -> n1 = n2.
Proof.
  intros V1 V2. rewrite !join_entry by by apply valid_name_not_abs.
  apply String.app_inj.
Qed.

Lemma NoDup_join_entries dir names :
  NoDup names -> Forall (fun n => Sys.valid_name n = true) names ->
  NoDup (map (fun n => PosixPath.join dir [n]) names).
Proof.
  induction 1 as [|n names Hn Hnames IH]; intros HV; simpl; [constructor|].
  inversion HV as [|? ? V VS]; subst. constructor; [|by apply IH].
  intros Hin. apply list_elem_of_fmap in Hin as (n' & E & Hin').
  rewrite Forall_forall in VS.
  apply join_entry_inj in E; [by subst| done | by apply VS].
Qed.

(** ** Paths and the nodes they name *)

Lemma rev_app_app (s t u : string) : String.rev_app s t +:+ u = String.rev_app s (t +:+ u).
Proof. revert t. induction s as [|c s IH]; intros t; [done|]. cbn [String.rev_app]. by rewrite IH. Qed.

Lemma split_go_app sep s : forall cur t,
  PyStr.split_go sep cur (s +:+ String sep t) = PyStr.split_go sep cur s ++ PyStr.split_go sep "" t.
Proof.
  induction s as [|c s IH]; intros cur t.
  - change ("" +:+ String sep t) with (String sep t). cbn [PyStr.split_go].
    by rewrite bool_decide_eq_true_2.
  - rewrite str_app_cons. cbn [PyStr.split_go]. destruct (bool_decide (c = sep)).
    + by rewrite IH.
    + apply IH.
Qed.

Lemma split_go_sep_free n : forall cur,
  sep_free n -> PyStr.split_go PosixPath.sep cur n = [String.rev cur +:+ n].
Proof.
  unfold sep_free. induction n as [|c n IH]; intros cur H.
  - cbn [PyStr.split_go]. by rewrite str_app_nil_r.
  - cbn [list_ascii_of_string forallb] in H. apply andb_prop in H as [Hc Hn].
    cbn [PyStr.split_go]. apply negb_true_iff in Hc. rewrite Hc. rewrite IH by done.
    f_equal. unfold String.rev. cbn [String.rev_app].
    by rewrite !rev_app_app.
Qed.

Lemma valid_name_sep_free n : Sys.valid_name n = true -> sep_free n.
Proof. unfold Sys.valid_name. by intros [_ H]%andb_prop. Qed.

Lemma norm_step_valid b acc n :
  Sys.valid_name n = true -> PosixPath.norm_step b acc n = n :: acc.
Proof.
  unfold Sys.valid_name, PosixPath.norm_step. intros H.
  apply andb_prop in H as [H _]. apply andb_prop in H as [H H3].
  apply andb_prop in H as [H1 H2].
  apply negb_true_iff in H1, H2, H3. by rewrite H1, H2, H3.
Qed.

Lemma endswith_char_split s c :
  PyStr.endswith_char s c = true -> exists s', s = s' +:+ String c "".
Proof.
  unfold PyStr.endswith_char. induction s as [|a s IH]; [done|].
  cbn [PyStr.last_char]. destruct s as [|b s].
  - intros H. apply bool_decide_eq_true_1 in H. subst. by exists "".
  - intros H. destruct (IH H) as [s' ->]. by exists (String a s').
Qed.

Lemma fold_split_join2 b P n :
  Sys.valid_name n = true ->
  fold_left (PosixPath.norm_step b) (PyStr.split PosixPath.sep (PosixPath.join2 P n)) [] =
  n :: fold_left (PosixPath.norm_step b) (PyStr.split PosixPath.sep P) [].
Proof.
  intros V. pose proof (valid_name_sep_free n V) as SF.
  unfold PosixPath.join2. rewrite (valid_name_not_abs n V). unfold PyStr.split.
  destruct (decide (P = "")) as [->|HP].
  - rewrite bool_decide_eq_true_2 by done. cbn [orb].
    change ("" +:+ n) with n. rewrite split_go_sep_free by done.
    cbn [fold_left]. change (String.rev "" +:+ n) with n. by rewrite norm_step_valid.
  - rewrite bool_decide_eq_false_2 by done. cbn [orb].
    destruct (PyStr.endswith_char P PosixPath.sep) eqn:E.
    + apply endswith_char_split in E as [P' ->].
      rewrite str_app_assoc. change (String PosixPath.sep "" +:+ n) with (String PosixPath.sep n).
      rewrite !split_go_app, !fold_left_app, split_go_sep_free by done.
      cbn [fold_left PyStr.split_go]. change (String.rev "" +:+ n) with n.
      by rewrite norm_step_valid.
    + change ("/" +:+ n) with (String PosixPath.sep n).
      rewrite split_go_app, fold_left_app, split_go_sep_free by done.
      cbn [fold_left]. change (String.rev "" +:+ n) with n.
      by rewrite norm_step_valid.
Qed.

Lemma norm_comps_join2 b P n :
  Sys.valid_name n = true ->
  PosixPath.norm_comps b (PosixPath.join2 P n) = PosixPath.norm_comps b P ++ [n].
Proof. intros V. unfold PosixPath.norm_comps. by rewrite fold_split_join2. Qed.

Lemma startswith_app s t :
  s <> "" -> PyStr.startswith (s +:+ t) "/" = PyStr.startswith s "/".
Proof. destruct s as [|c s]; [done|]. intros _. unfold PyStr.startswith. rewrite str_app_cons.
  cbn [String.prefix]. destruct (Ascii.ascii_dec "/" c); [|done].
  by destruct (s +:+ t), s. Qed.

Lemma last_char_app s t : t <> "" -> PyStr.last_char (s +:+ t) = PyStr.last_char t.
Proof.
  intros Ht. induction s as [|c s IH]; [done|].
  rewrite str_app_cons. cbn [PyStr.last_char]. rewrite IH.
  destruct (s +:+ t) eqn:E; [|done].
  destruct s; [|discriminate]. by destruct t.
Qed.

Lemma endswith_char_app s t c :
  t <> "" -> PyStr.endswith_char (s +:+ t) c = PyStr.endswith_char t c.
Proof. intros Ht. unfold PyStr.endswith_char. by rewrite last_char_app. Qed.

Lemma app_eq_nil_str (s t : string) : s +:+ t = "" -> s = "" /\ t = "".
Proof. destruct s; [done|]. rewrite str_app_cons. discriminate. Qed.

(** Joining commutes with making a path absolute. *)
Lemma absolute_join2 cwd p n :
  Sys.valid_name n = true ->
  (if PosixPath.isabs (PosixPath.join2 p n) then PosixPath.join2 p n
   else PosixPath.join cwd [PosixPath.join2 p n]) =
  PosixPath.join2 (if PosixPath.isabs p then p else PosixPath.join cwd [p]) n.
Proof.
  intros V. pose proof (valid_name_not_abs n V) as NA.
  assert (Hn : n <> "") by (intros ->; discriminate).
  unfold PosixPath.isabs, PosixPath.join. cbn [fold_left].
  destruct (decide (p = "")) as [->|Hp].
  - (* empty path *)
    assert (E : PosixPath.join2 "" n = n) by (unfold PosixPath.join2; by rewrite NA).
    rewrite E, NA. change (PyStr.startswith "" "/") with false. cbv iota.
    unfold PosixPath.join2 at 1 3. rewrite NA. change (PyStr.startswith "" "/") with false.
    cbv iota. destruct (bool_decide (cwd = "") || PyStr.endswith_char cwd PosixPath.sep) eqn:Ec.
    + rewrite str_app_nil_r. unfold PosixPath.join2. by rewrite NA, Ec.
    + unfold PosixPath.join2. rewrite NA.
      rewrite str_app_nil_r.
      assert (Hc : cwd +:+ "/" <> "") by (intros [_ ?]%app_eq_nil_str; discriminate).
      rewrite bool_decide_eq_false_2 by done.
      rewrite endswith_char_app by done. cbn [orb]. 
      change (PyStr.endswith_char "/" PosixPath.sep) with true. cbv iota.
      by rewrite str_app_assoc.
  - assert (Ej : PosixPath.join2 p n = p +:+ (if PyStr.endswith_char p PosixPath.sep then n else "/" +:+ n)).
    { unfold PosixPath.join2. rewrite NA, (bool_decide_eq_false_2 (p = "")) by done. cbn [orb].
      by destruct (PyStr.endswith_char p PosixPath.sep). }
    rewrite Ej, startswith_app by done.
    destruct (PyStr.startswith p "/") eqn:Ea; [by rewrite <- Ej|].
    rewrite <- Ej.
    assert (Ea' : PyStr.startswith (PosixPath.join2 p n) "/" = false)
      by (by rewrite Ej, startswith_app).
    unfold PosixPath.join2 at 1. rewrite Ea'.
    assert (Ec : PosixPath.join2 cwd p =
                 (if bool_decide (cwd = "") || PyStr.endswith_char cwd PosixPath.sep
                  then cwd +:+ p else cwd +:+ "/" +:+ p))
      by (unfold PosixPath.join2; by rewrite Ea).
    rewrite Ec.
    set (C := if bool_decide (cwd = "") || PyStr.endswith_char cwd PosixPath.sep
              then cwd else cwd +:+ "/").
    assert (E1 : (if bool_decide (cwd = "") || PyStr.endswith_char cwd PosixPath.sep
                  then cwd +:+ PosixPath.join2 p n else cwd +:+ "/" +:+ PosixPath.join2 p n)
                 = C +:+ PosixPath.join2 p n).
    { unfold C. destruct (_ || _); [done|]. by rewrite str_app_assoc. }
    assert (E2 : (if bool_decide (cwd = "") || PyStr.endswith_char cwd PosixPath.sep
                  then cwd +:+ p else cwd +:+ "/" +:+ p) = C +:+ p).
    { unfold C. destruct (_ || _); [done|]. by rewrite str_app_assoc. }
    rewrite E1, E2, Ej. unfold PosixPath.join2. rewrite NA.
    assert (Hcp : C +:+ p <> "") by (by intros [_ ?]%app_eq_nil_str).
    rewrite (bool_decide_eq_false_2 (C +:+ p = "")) by done. cbn [orb].
    rewrite endswith_char_app by done.
    destruct (PyStr.endswith_char p PosixPath.sep); by rewrite ?str_app_assoc.
Qed.

(** The node an entry of a directory names is the one below the directory's. *)
Lemma resolve_join_entry cwd p n :
  Sys.valid_name n = true ->
  Sys.resolve cwd (PosixPath.join p [n]) = Sys.resolve cwd p ++ [n].
Proof.
  intros V. unfold Sys.resolve. unfold PosixPath.join at 1. cbn [fold_left].
  rewrite absolute_join2 by done. by apply norm_comps_join2.
Qed.

(** ** The artifacts of one enumeration *)

Lemma emits_frame {A} P (m : M A) w r w' :
  emits P m -> (forall ev, P ev = true -> is_passive ev = true) ->
  m w = (r, w') ->
  fs w' = fs w /\ cwd w' = cwd w /\ engine w' = engine w /\ rmtree_faults w' = rmtree_faults w.
Proof.
  intros Hm HP H. destruct (Hm _ _ _ H) as (d & _ & F & C & E & K & _).
  destruct K as [K1 K2]; [eapply Forall_impl; [exact F | exact HP]|]. done.
Qed.

Lemma is_part_read_passive ev : is_part_read ev = true -> is_passive ev = true.
Proof. by destruct ev. Qed.

Lemma emits_freezed_part_of db t dir n : emits is_part_read (freezed_part_of db t dir n).
Proof.
  unfold freezed_part_of, _get_part_checksum, _get_part_size.
  apply emits_bind; [emits_auto | intros ck].
  apply emits_bind; [|intros; apply emits_ret].
  apply emits_bind; [emits_auto | intros files].
  by apply emits_get_part_size_loop.
Qed.

Lemma manifest_of_ext w1 w2 p :
  fs w1 = fs w2 -> cwd w1 = cwd w2 -> manifest_of w1 p = manifest_of w2 p.
Proof. unfold manifest_of, Sys.stat. by intros -> ->. Qed.

Lemma freezed_part_of_ok db t dir n w p w' :
  freezed_part_of db t dir n w = (Ok p, w') ->
  artifact_of db t dir w n p /\ fs w' = fs w /\ cwd w' = cwd w.
Proof.
  intros H.
  destruct (emits_frame _ _ _ _ _ (emits_freezed_part_of db t dir n)
              is_part_read_passive H) as (F & C & _).
  split; [|done]. unfold freezed_part_of in H.
  apply bind_inv in H as [(ck & w1 & H1 & H) | (e & _ & ?)]; [|discriminate].
  apply bind_inv in H as [(sz & w2 & H2 & H) | (e & _ & ?)]; [|discriminate].
  inversion H; subst. unfold artifact_of. simpl.
  apply get_part_checksum_ok in H1. done.
Qed.

Lemma mapM_freezed_part_of db t dir names : forall w parts w',
  mapM (freezed_part_of db t dir) names w = (Ok parts, w') ->
  Forall2 (artifact_of db t dir w) names parts /\ fs w' = fs w /\ cwd w' = cwd w.
Proof.
  induction names as [|n names IH]; intros w parts w' H; simpl in H.
  - inversion H; subst. split; [constructor | done].
  - apply bind_inv in H as [(p & w1 & H1 & H) | (e & _ & ?)]; [|discriminate].
    apply bind_inv in H as [(ps & w2 & H2 & H) | (e & _ & ?)]; [|discriminate].
    inversion H; subst.
    apply freezed_part_of_ok in H1 as (A1 & F1 & C1).
    apply IH in H2 as (A2 & F2 & C2).
    split; [|split; congruence].
    constructor; [done|].
    eapply Forall2_impl; [exact A2|].
    intros n' p' (? & ? & ? & ? & m & Hm & ?). repeat split; try done.
    exists m. split; [|done]. by rewrite <- (manifest_of_ext w1 w).
Qed.

Lemma artifacts_paths db t dir w names parts :
  Forall2 (artifact_of db t dir w) names parts ->
  map path parts = map (fun n => PosixPath.join dir [n]) names.
Proof.
  induction 1 as [|n p names parts (_ & _ & _ & E & _) _ IH]; simpl; [done|].
  by rewrite E, IH.
Qed.

Lemma emits_relpath_call self db t :
  emits is_relpath_call (_get_table_data_relpath self db t).
Proof.
  unfold _get_table_data_relpath, _get_table_data_path.
  apply emits_bind; [apply emits_query; intros; reflexivity | intros p].
  destruct (negb _); [apply emits_raise|].
  apply emits_bind; [apply emits_as_str | intros p']. by apply emits_relpath.
Qed.

(** What a successful enumeration returns: nothing when the snapshot
    directory is absent, else one artifact per entry of the directory. *)
Lemma get_freezed_parts_ok self db t w parts w' :
  _get_freezed_parts self db t w = (Ok parts, w') ->
  exists c w1 rel w2,
    Sys.read (increment_file self) w = (Ok c, w1) /\
    _get_table_data_relpath self db t w1 = (Ok rel, w2) /\
    fs w' = fs w2 /\ cwd w' = cwd w2 /\ cwd w2 = cwd w /\
    (exists d0, trace w2 = trace w ++ EvRead (increment_file self) (Ok c) :: d0
                /\ Forall (fun ev => is_relpath_call ev = true) d0) /\
    let dir := snapshot_dir self (PyStr.strip c) rel in
    exists d, trace w' = (trace w2 ++ EvExists dir (is_ok (Sys.stat w2 dir)) :: d)%list
         /\ Forall (fun ev => is_part_read ev = true) d
         /\ ((is_ok (Sys.stat w2 dir) = false /\ parts = [] /\ d = []) \/
             (exists names, is_ok (Sys.stat w2 dir) = true /\ NoDup names /\
                Forall (fun n => Sys.valid_name n = true) names /\
                Forall2 (artifact_of db t dir w') names parts)).
Proof.
  intros H. apply get_freezed_parts_inv in H as [(e & ? & _) | H]; [discriminate|].
  destruct H as (c & w1 & rel & w2 & H1 & H2 & H).
  exists c, w1, rel, w2. split; [done|]. split; [done|]. cbn zeta in *.
  set (dir := snapshot_dir self (PyStr.strip c) rel) in *.
  assert (Hpre : cwd w2 = cwd w /\
            exists d0, trace w2 = trace w ++ EvRead (increment_file self) (Ok c) :: d0
                       /\ Forall (fun ev => is_relpath_call ev = true) d0).
  { destruct (emits_relpath_call self db t _ _ _ H2) as (d0 & T0 & F0 & C0 & _).
    unfold Sys.read in H1.
    assert (T1 : trace w1 = trace w ++ [EvRead (increment_file self) (Ok c)]
                 /\ cwd w1 = cwd w).
    { destruct (Sys.stat w _) as [[]|]; inversion H1; subst; done. }
    destruct T1 as [T1 C1]. split; [congruence|].
    exists d0. split; [|done]. rewrite T0, T1. by rewrite <- app_assoc. }
  destruct Hpre as [Hc Hpre].
  destruct H as [(Es & E & ->) | (Es & [(e & _ & ?) | (names & w4 & H4 & H5)])];
    [|discriminate|].
  - inversion E; subst. split; [done|]. split; [done|]. split; [done|]. split; [done|].
    exists []. split; [done|]. split; [constructor|]. by left.
  - pose proof (listdir_ok _ _ _ _ H4) as (ND & V & F4 & C4).
    pose proof (mapM_freezed_part_of _ _ _ _ _ _ _ H5) as (A & F5 & C5).
    simpl in F4, C4. split; [congruence|]. split; [congruence|].
    split; [done|]. split; [done|].
    assert (E4 : emits is_part_read (Sys.listdir dir)) by emits_auto.
    assert (E5 : emits is_part_read (mapM (freezed_part_of db t dir) names)).
    { apply emits_mapM. intros. apply emits_freezed_part_of. }
    destruct (E4 _ _ _ H4) as (d4 & T4 & P4 & _). destruct (E5 _ _ _ H5) as (d5 & T5 & P5 & _).
    exists (d4 ++ d5)%list. split.
    { rewrite T5, T4. simpl. rewrite <- !app_assoc. reflexivity. }
    split; [by apply Forall_app|].
    right. exists names. repeat split; try done.
    eapply Forall2_impl; [exact A|].
    intros n' p' (? & ? & ? & ? & m & Hm & ?). repeat split; try done.
    exists m. split; [|done]. by rewrite (manifest_of_ext w' w4).
Qed.

(** ** Checksums of the artifacts *)

Lemma get_freezed_parts_checksum self db t w parts w' p :
  _get_freezed_parts self db t w = (Ok parts, w') -> p ∈ parts ->
  exists manifest, manifest_of w' (path p) = Some manifest
                   /\ checksum p = MD5.hexdigest manifest.
Proof.
  intros H Hp. apply get_freezed_parts_ok in H
    as (c & w1 & rel & w2 & _ & _ & _ & _ & _ & _ & d & _ & _
        & [(_ & -> & _) | (names & _ & _ & _ & A)]).
  - by apply elem_of_nil in Hp.
  - apply list_elem_of_lookup in Hp as [i Hi].
    destruct (Forall2_lookup_r _ _ _ _ _ A Hi) as (n & _ & (_ & _ & _ & _ & Hm)). exact Hm.
Qed.

(** C8: the checksum of an artifact is the MD5 of the bytes of the
    [checksums.txt] of its part and of nothing else.  Two artifacts, of any
    two enumerations on any two disks, whose manifests hold the same bytes
    carry the same checksum, whatever else the part directories hold; the
    checksum is the digest of the manifest, and computing it again on the
    same manifest gives it again. *)
Theorem artifact_checksum_of_manifest_only
    self1 db1 t1 w1 parts1 w1' self2 db2 t2 w2 parts2 w2' p1 p2 :
  _get_freezed_parts self1 db1 t1 w1 = (Ok parts1, w1') ->
  _get_freezed_parts self2 db2 t2 w2 = (Ok parts2, w2') ->
  p1 ∈ parts1 -> p2 ∈ parts2 ->
  manifest_of w1' (path p1) = manifest_of w2' (path p2) ->
  checksum p1 = checksum p2
  /\ (exists manifest, manifest_of w1' (path p1) = Some manifest
                       /\ checksum p1 = MD5.hexdigest manifest)
  /\ fst (_get_part_checksum (path p1) w1') = Ok (checksum p1)
  /\ fst (_get_part_checksum (path p1) (snd (_get_part_checksum (path p1) w1')))
     = Ok (checksum p1).
Proof.
  intros H1 H2 Hp1 Hp2 E.
  destruct (get_freezed_parts_checksum _ _ _ _ _ _ _ H1 Hp1) as (m1 & M1 & C1).
  destruct (get_freezed_parts_checksum _ _ _ _ _ _ _ H2 Hp2) as (m2 & M2 & C2).
  assert (m1 = m2) as <- by congruence.
  split; [congruence|]. split; [eauto|].
  rewrite C1. split; [by apply get_part_checksum_run|].
  apply get_part_checksum_run.
  destruct (get_part_checksum_world (path p1) w1') as [ev ->]. exact M1.
Qed.

(** ** Paths of the artifacts *)

Lemma get_freezed_parts_NoDup self db t w parts w' :
  _get_freezed_parts self db t w = (Ok parts, w') -> NoDup (map path parts).
Proof.
  intros H. apply get_freezed_parts_ok in H
    as (c & w1 & rel & w2 & _ & _ & _ & _ & _ & _ & d & _ & _
        & [(_ & -> & _) | (names & _ & ND & V & A)]).
  - constructor.
  - rewrite (artifacts_paths _ _ _ _ _ _ A). by apply NoDup_join_entries.
Qed.

Lemma enumerated_dirs_none P d :
  (forall ev, P ev = true -> match ev with EvExists _ _ => False | _ => True end) ->
  Forall (fun ev => P ev = true) d -> enumerated_dirs d = [].
Proof.
  intros HP. induction 1 as [|ev d Hev _ IH]; [done|].
  unfold enumerated_dirs in *. cbn [omap list_omap]. specialize (HP ev Hev).
  destruct ev; try done; exact IH.
Qed.

(** One enumeration checks one directory and returns entries of it. *)
Lemma get_freezed_parts_dir self db t w parts w' :
  _get_freezed_parts self db t w = (Ok parts, w') ->
  exists dir d, trace w' = trace w ++ d /\ cwd w' = cwd w
    /\ enumerated_dirs d = [dir] /\ chunk_of dir parts.
Proof.
  intros H. pose proof (get_freezed_parts_NoDup _ _ _ _ _ _ H) as ND.
  apply get_freezed_parts_ok in H
    as (c & w1 & rel & w2 & _ & _ & _ & C2 & C1 & (d0 & T0 & F0) & d & T & F & A).
  cbn zeta in *. set (dir := snapshot_dir self (PyStr.strip c) rel) in *.
  exists dir, (EvRead (increment_file self) (Ok c) :: d0
                 ++ EvExists dir (is_ok (Sys.stat w2 dir)) :: d).
  split; [rewrite T, T0; by rewrite <- !app_assoc|]. split; [congruence|]. split.
  - unfold enumerated_dirs. cbn [omap list_omap].
    fold (enumerated_dirs (d0 ++ EvExists dir (is_ok (Sys.stat w2 dir)) :: d)).
    unfold enumerated_dirs. rewrite omap_app. cbn [omap list_omap].
    fold (enumerated_dirs d0). fold (enumerated_dirs d).
    rewrite (enumerated_dirs_none is_relpath_call d0), (enumerated_dirs_none is_part_read d);
      [done | by intros [] | done | by intros [[]| | | | | | | |] | done].
  - split; [done|]. destruct A as [(_ & -> & _) | (names & _ & _ & V & A)]; [constructor|].
    apply Forall_forall. intros p Hp.
    apply list_elem_of_lookup in Hp as [i Hi].
    destruct (Forall2_lookup_r _ _ _ _ _ A Hi) as (n & Hn & (_ & _ & _ & E & _)).
    exists n. split; [|done]. rewrite Forall_forall in V. apply V.
    by eapply list_elem_of_lookup_2.
Qed.

Lemma freeze_table_compat_loop_chunks self db t ps : forall acc w parts w',
  _freeze_table_compat_loop self db t ps acc w = (Ok parts, w') ->
  exists d dirs chunks,
    trace w' = trace w ++ d /\ cwd w' = cwd w
    /\ enumerated_dirs d = dirs
    /\ length chunks = length ps /\ parts = (acc ++ concat chunks)%list
    /\ Forall2 chunk_of dirs chunks.
Proof.
  induction ps as [|p ps IH]; intros acc w parts w' H; simpl in H.
  - inversion H; subst. exists [], [], []. rewrite !app_nil_r. repeat split; constructor.
  - apply bind_inv in H as [(v & w1 & H1 & H) | (e & _ & ?)]; [|discriminate].
    apply query_ok in H1 as [T1 C1].
    apply bind_inv in H as [(c & w2 & H2 & H) | (e & _ & ?)]; [|discriminate].
    apply get_freezed_parts_dir in H2 as (dir & d2 & T2 & C2 & E2 & K2).
    apply IH in H as (d3 & dirs & chunks & T3 & C3 & E3 & L & -> & F).
    exists (EvQuery (FREEZE_PARTITION_SQL db t (p_name p)) (Ok v) :: d2 ++ d3),
           (dir :: dirs), (c :: chunks).
    split; [rewrite T3, T2, T1; by rewrite <- !app_assoc|].
    split; [congruence|].
    split.
    { unfold enumerated_dirs in *. cbn [omap list_omap].
      fold (omap (fun ev => match ev with EvExists p0 _ => Some p0 | _ => None end) (d2 ++ d3)).
      by rewrite omap_app, E2, E3. }
    split; [cbn [length]; by rewrite L|].
    split; [cbn [concat]; by rewrite <- app_assoc|].
    by constructor.
Qed.

Lemma chunk_member dirs chunks q :
  Forall2 chunk_of dirs chunks -> q ∈ concat chunks ->
  exists dir n, dir ∈ dirs /\ Sys.valid_name n = true /\ path q = PosixPath.join dir [n].
Proof.
  induction 1 as [|dir chunk dirs chunks [_ Hc] _ IH]; cbn [concat].
  - by intros ?%elem_of_nil.
  - intros [Hq|Hq]%elem_of_app.
    + rewrite Forall_forall in Hc. destruct (Hc q Hq) as (n & V & E).
      exists dir, n. split; [left|done].
    + destruct (IH Hq) as (dir' & n & Hd & V & E). exists dir', n. split; [by right|done].
Qed.

(** Enumerations of different directories return different paths. *)
Lemma chunks_NoDup cwd dirs chunks :
  Forall2 chunk_of dirs chunks ->
  NoDup (map (Sys.resolve cwd) dirs) ->
  NoDup (map path (concat chunks)).
Proof.
  induction 1 as [|dir chunk dirs chunks [ND Hc] F IH]; cbn [concat map]; [constructor|].
  intros [Hdir Hdirs]%NoDup_cons. rewrite map_app. apply NoDup_app.
  split; [done|]. split; [|by apply IH].
  intros x Hx Hx'.
  apply list_elem_of_fmap in Hx as (p & -> & Hp).
  apply list_elem_of_fmap in Hx' as (q & Epq & Hq).
  rewrite Forall_forall in Hc. destruct (Hc p Hp) as (n & V & E).
  destruct (chunk_member _ _ _ F Hq) as (dir' & n' & Hd' & V' & E').
  apply Hdir. apply list_elem_of_fmap. exists dir'. split; [|done].
  assert (R : Sys.resolve cwd (path p) = Sys.resolve cwd (path q)) by by rewrite Epq.
  rewrite E, E', !resolve_join_entry in R by done.
  by apply app_inj_tail in R as [R _].
Qed.

Lemma match_ch_version_world self v w : snd (_match_ch_version self v w) = w.
Proof.
  unfold _match_ch_version, bind.
  destruct (_ch_version self); simpl; try reflexivity.
  destruct (Version.parse s), (Version.parse v); reflexivity.
Qed.

(** A snapshot returns the enumerations it made, one after the other:
    one on the whole-table path, one per partition on the other. *)
Lemma freeze_table_enumerations self db t w parts w' :
  freeze_table self db t w = (Ok parts, w') ->
  exists chunks,
    parts = concat chunks
    /\ Forall2 chunk_of (enumerated_dirs (new_events w w')) chunks
    /\ (fst (_match_ch_version self "18.16.0" w) = Ok true -> length chunks = 1)
    /\ (fst (_match_ch_version self "18.16.0" w) = Ok false ->
        exists ps w0, get_partitions self db t w = (Ok ps, w0) /\ length chunks = length ps).
Proof.
  intros H. unfold freeze_table in H.
  apply bind_inv in H as [(whole & w1 & H1 & H) | (e & _ & ?)]; [|discriminate].
  pose proof (match_ch_version_world self "18.16.0" w) as Hw.
  rewrite H1 in *. simpl in Hw. subst w1. cbn [fst]. unfold new_events.
  destruct whole.
  - unfold _freeze_table in H.
    apply bind_inv in H as [(v & w1 & Hq & H) | (e & _ & ?)]; [|discriminate].
    apply query_ok in Hq as [T1 C1].
    apply get_freezed_parts_dir in H as (dir & d & T & C & E & K).
    exists [parts]. cbn [concat]. rewrite app_nil_r. split; [done|].
    rewrite T, T1, <- app_assoc, drop_app_length.
    unfold enumerated_dirs in *. cbn [app omap list_omap]. rewrite E.
    split; [constructor; [exact K | constructor]|]. split; [done|]. intros ?; discriminate.
  - unfold _freeze_table_compat in H.
    apply bind_inv in H as [(ps & w0 & H0 & H) | (e & _ & ?)]; [|discriminate].
    destruct (emits_get_partitions self db t _ _ _ H0) as (d0 & T0 & F0 & _).
    apply freeze_table_compat_loop_chunks in H as (d & dirs & chunks & T & C & E & L & -> & F).
    exists chunks. split; [done|].
    rewrite T, T0, <- app_assoc, drop_app_length.
    unfold enumerated_dirs in *. rewrite omap_app.
    fold (enumerated_dirs d0). rewrite (enumerated_dirs_none is_query d0);
      [| by intros [] | done].
    unfold enumerated_dirs. rewrite E. cbn [app].
    split; [done|]. split; [intros ?; discriminate|]. intros _. by exists ps, w0.
Qed.

(** C10, as the code has it: no two artifacts of the returned list share a
    path as long as the directories enumerated after the freeze commands
    are different directories, and so always on the whole-table path, which
    enumerates one.  On the per-partition path the list is made of one
    enumeration per freeze command, in the order of the partitions, each
    without a repeated path; nothing is dropped when a later enumeration
    lists a part again. *)
Theorem freeze_table_artifact_paths self db t w parts w' :
  freeze_table self db t w = (Ok parts, w') ->
  (NoDup (map (Sys.resolve (cwd w)) (enumerated_dirs (new_events w w'))) ->
   NoDup (map path parts))
  /\ (fst (_match_ch_version self "18.16.0" w) = Ok true -> NoDup (map path parts))
  /\ (fst (_match_ch_version self "18.16.0" w) = Ok false ->
      exists ps w0 chunks,
        get_partitions self db t w = (Ok ps, w0)
        /\ length chunks = length ps
        /\ parts = concat chunks
        /\ Forall2 chunk_of (enumerated_dirs (new_events w w')) chunks).
Proof.
  intros H. apply freeze_table_enumerations in H as (chunks & -> & F & Hwhole & Hcompat).
  split; [by apply chunks_NoDup|]. split.
  - intros E. apply Hwhole in E. destruct chunks as [|c [|]]; try discriminate.
    cbn [concat]. rewrite app_nil_r. inversion F as [|? ? ? ? [ND _]]. done.
  - intros E. destruct (Hcompat E) as (ps & w0 & H0 & L). by exists ps, w0, chunks.
Qed.

(** ** Teardown and the path guard *)

Lemma remove_attempt_refused self target w :
  PyStr.startswith target (_shadow_data_path self) = false ->
  remove_attempt self target w = (Raise AssertionError, w).
Proof. unfold remove_attempt, bind. by intros ->. Qed.

Lemma retry_go_not_covered {A} exception_types n (f : M A) w e w' :
  f w = (Raise e, w') -> exception_types e = false ->
  retry_go exception_types n f w = (Raise e, w').
Proof. intros H E. destruct n; simpl; rewrite H; [done|]. by rewrite E. Qed.

Lemma retry_go_first_ok {A} exception_types n (f : M A) w a w' :
  f w = (Ok a, w') -> retry_go exception_types n f w = (Ok a, w').
Proof. intros H. destruct n; simpl; by rewrite H. Qed.

Lemma remove_shadow_data_refused max_attempts self target w :
  PyStr.startswith target (_shadow_data_path self) = false ->
  _remove_shadow_data max_attempts self target w = (Raise AssertionError, w).
Proof.
  intros H. unfold _remove_shadow_data, retry.
  apply retry_go_not_covered; [|done]. by apply remove_attempt_refused.
Qed.

Lemma chown_dir_refused self dir_path w :
  PyStr.startswith dir_path (_data_path self) = false ->
  _chown_dir self dir_path w = (Raise AssertionError, w).
Proof. unfold _chown_dir, bind. by intros ->. Qed.

Lemma query_run q w :
  query q w = (fst (engine w (trace w) q (fs w)),
               emit (EvQuery q (fst (engine w (trace w) q (fs w))))
                 (set_fs w (snd (engine w (trace w) q (fs w))))).
Proof. unfold query. by destruct (engine w (trace w) q (fs w)). Qed.

(** The snapshot root itself always passes the guard of teardown. *)
Lemma startswith_refl s : PyStr.startswith s s = true.
Proof.
  unfold PyStr.startswith. induction s as [|c s IH]; [done|].
  cbn [String.prefix]. by destruct (Ascii.ascii_dec c c).
Qed.

(** One run of the removal. *)
Lemma remove_attempt_fault self target w e rest :
  PyStr.startswith target (_shadow_data_path self) = true ->
  rmtree_faults w = e :: rest ->
  remove_attempt self target w =
    (if bool_decide (e = ENOENT) then Ok tt else Raise (OSError e),
     emit (EvRmtree target (Raise (OSError e))) (set_faults w rest)).
Proof.
  intros Hs Hf. unfold remove_attempt, bind, py_assert. rewrite Hs. cbn [ret].
  unfold try_except, Sys.rmtree. rewrite Hf.
  destruct e; reflexivity.
Qed.

Lemma remove_attempt_absent self target w :
  PyStr.startswith target (_shadow_data_path self) = true ->
  rmtree_faults w = [] -> Sys.stat w target = Raise (OSError ENOENT) ->
  remove_attempt self target w = (Ok tt, emit (EvRmtree target (Raise (OSError ENOENT))) w).
Proof.
  intros Hs Hf Ha. unfold remove_attempt, bind, py_assert. rewrite Hs. cbn [ret].
  unfold try_except, Sys.rmtree. rewrite Hf, Ha. reflexivity.
Qed.

Lemma remove_attempt_dir self target w s o :
  PyStr.startswith target (_shadow_data_path self) = true ->
  rmtree_faults w = [] -> Sys.stat w target = Ok (NDir s o) ->
  remove_attempt self target w =
    (Ok tt, emit (EvRmtree target (Ok tt))
              (set_fs w (filter (fun kv => Sys.under (Sys.resolve (cwd w) target) (fst kv) = false)
                           (fs w)))).
Proof.
  intros Hs Hf Ha. unfold remove_attempt, bind, py_assert. rewrite Hs. cbn [ret].
  unfold try_except, Sys.rmtree. rewrite Hf, Ha. reflexivity.
Qed.

Lemma remove_attempt_not_a_directory self target w :
  PyStr.startswith target (_shadow_data_path self) = true ->
  rmtree_faults w = [] -> not_a_directory w target ->
  remove_attempt self target w =
    (Raise (OSError ENOTDIR), emit (EvRmtree target (Raise (OSError ENOTDIR))) w).
Proof.
  intros Hs Hf Hn. unfold remove_attempt, bind, py_assert. rewrite Hs. cbn [ret].
  unfold try_except, Sys.rmtree. rewrite Hf.
  destruct Hn as [(c & o & ->) | ->]; reflexivity.
Qed.

Lemma retry_go_not_a_directory self target n : forall w,
  PyStr.startswith target (_shadow_data_path self) = true ->
  rmtree_faults w = [] -> not_a_directory w target ->
  fst (retry_go is_OSError n (remove_attempt self target) w) = Raise (OSError ENOTDIR).
Proof.
  induction n as [|n IH]; intros w Hs Hf Hn; cbn [retry_go];
    rewrite (remove_attempt_not_a_directory _ _ _ Hs Hf Hn); [done|].
  cbn [is_OSError]. unfold bind, Sys.sleep. by apply IH.
Qed.

Lemma under_refl d : Sys.under d d = true.
Proof.
  unfold Sys.under. apply bool_decide_eq_true_2.
  rewrite <- (app_nil_r d) at 2. rewrite strip_prefix_app. by eexists.
Qed.

Lemma strip_prefix_length d : forall k r,
  Sys.strip_prefix d k = Some r -> length d <= length k.
Proof. intros k r ->%strip_prefix_Some. rewrite length_app. lia. Qed.

(** ** Lookups *)

Lemma walk_errors f rest : forall seen e,
  Sys.walk f seen rest = Raise e -> e = OSError ENOENT \/ e = OSError ENOTDIR.
Proof.
  induction rest as [|x rest IH]; intros seen e; cbn [Sys.walk].
  - destruct (f !! seen); intros H; inversion H; auto.
  - destruct (f !! seen) as [[c o|s o]|]; intros H; try (inversion H; auto; fail).
    by eapply IH.
Qed.

(** A lookup only sees the nodes on its way. *)
Lemma walk_ext f1 f2 rest : forall seen,
  (forall i, i <= length rest -> f1 !! (seen ++ take i rest) = f2 !! (seen ++ take i rest)) ->
  Sys.walk f1 seen rest = Sys.walk f2 seen rest.
Proof.
  induction rest as [|x rest IH]; intros seen H; cbn [Sys.walk].
  - specialize (H 0%nat (Nat.le_refl _)). cbn [take] in H. rewrite app_nil_r in H. by rewrite H.
  - pose proof (H 0%nat (Nat.le_0_l _)) as H0. cbn [take] in H0. rewrite app_nil_r in H0.
    rewrite H0. destruct (f2 !! seen) as [[c o|s o]|]; try done.
    apply IH. intros i Hi. specialize (H (S i)). cbn [take length] in H.
    rewrite <- !app_assoc. cbn [app]. apply H. lia.
Qed.

(** When the last node is gone and the way to it is as before, the lookup
    that found it reports its absence. *)
Lemma walk_gone f f' rest : forall seen n,
  Sys.walk f seen rest = Ok n ->
  (forall i, i < length rest -> f' !! (seen ++ take i rest) = f !! (seen ++ take i rest)) ->
  f' !! (seen ++ rest) = None ->
  Sys.walk f' seen rest = Raise (OSError ENOENT).
Proof.
  induction rest as [|x rest IH]; intros seen n Hw H Hn; cbn [Sys.walk] in *.
  - rewrite app_nil_r in Hn. by rewrite Hn.
  - pose proof (H 0%nat ltac:(cbn [length]; lia)) as H0. cbn [take] in H0.
    rewrite app_nil_r in H0. rewrite H0.
    destruct (f !! seen) as [[c o|s o]|]; try discriminate.
    eapply IH; [exact Hw | | by rewrite <- app_assoc].
    intros i Hi. specialize (H (S i)). cbn [take length] in H.
    rewrite <- !app_assoc. cbn [app]. apply H. lia.
Qed.

(** A change of owners changes no lookup but in the owner found. *)
Lemma walk_imap_owner (g : list string -> Node -> Node) f rest :
  (forall k n, match n, g k n with
               | NFile c _, NFile c' _ => c = c'
               | NDir s _, NDir s' _ => s = s'
               | _, _ => False
               end) ->
  forall seen,
  Sys.walk (map_imap (fun k n => Some (g k n)) f) seen rest =
    match Sys.walk f seen rest with
    | Ok n => Ok (g (seen ++ rest) n)
    | Raise e => Raise e
    end.
Proof.
  intros Hg. induction rest as [|x rest IH]; intros seen; cbn [Sys.walk];
    rewrite map_lookup_imap.
  - rewrite app_nil_r. by destruct (f !! seen).
  - destruct (f !! seen) as [n|]; cbn; [|done].
    specialize (Hg seen n). destruct n as [c o|s o], (g seen _) as [c' o'|s' o']; try done.
    rewrite IH. by rewrite <- app_assoc.
Qed.

Lemma stat_ext w1 w2 p : fs w1 = fs w2 -> cwd w1 = cwd w2 -> Sys.stat w1 p = Sys.stat w2 p.
Proof. unfold Sys.stat. by intros -> ->. Qed.

(** After a removal that went through the target is absent. *)
Lemma stat_after_removal w target s o :
  Sys.stat w target = Ok (NDir s o) ->
  Sys.walk (filter (fun kv => Sys.under (Sys.resolve (cwd w) target) (fst kv) = false) (fs w))
    [] (Sys.resolve (cwd w) target) = Raise (OSError ENOENT).
Proof.
  unfold Sys.stat. set (d := Sys.resolve (cwd w) target). intros H.
  eapply walk_gone; [exact H | |].
  - intros i Hi. cbn [app].
    destruct (fs w !! take i d) as [n|] eqn:E.
    + apply map_lookup_filter_Some_2; [done|]. cbn [fst].
      unfold Sys.under. apply bool_decide_eq_false_2. intros [r Hr].
      apply strip_prefix_length in Hr. rewrite length_take in Hr. lia.
    + apply map_lookup_filter_None_2. by left.
  - cbn [app]. apply map_lookup_filter_None_2. right. intros x _. cbn [fst].
    by rewrite under_refl.
Qed.

(** What is missing stays missing however the path goes on. *)
Lemma walk_absent_extends f rest : forall seen more,
  Sys.walk f seen rest = Raise (OSError ENOENT) ->
  Sys.walk f seen (rest ++ more) = Raise (OSError ENOENT).
Proof.
  induction rest as [|x rest IH]; intros seen more; cbn [Sys.walk app].
  - destruct (f !! seen) eqn:E; [discriminate|]. intros _.
    destruct more; cbn [Sys.walk]; by rewrite E.
  - destruct (f !! seen) as [[c o|s o]|]; try done. apply IH.
Qed.

Lemma increment_file_resolve cwd self :
  Sys.resolve cwd (increment_file self)
  = Sys.resolve cwd (_shadow_data_path self) ++ ["increment.txt"].
Proof. unfold increment_file. by apply resolve_join_entry. Qed.

(** Removing the snapshot root removes the increment file. *)
Lemma remove_freezed_data_takes_increment max_attempts self w s o :
  rmtree_faults w = [] ->
  Sys.stat w (_shadow_data_path self) = Ok (NDir s o) ->
  fst (remove_freezed_data max_attempts self w) = Ok tt
  /\ Sys.stat (snd (remove_freezed_data max_attempts self w)) (increment_file self)
     = Raise (OSError ENOENT).
Proof.
  intros Hf Hs. unfold remove_freezed_data, _remove_shadow_data, retry.
  fold (remove_attempt self (_shadow_data_path self)).
  rewrite (retry_go_first_ok _ _ _ _ _ _
             (remove_attempt_dir _ _ _ _ _ (startswith_refl _) Hf Hs)).
  split; [done|]. cbn [snd]. unfold Sys.stat. cbn [fs cwd emit set_fs].
  rewrite increment_file_resolve. apply walk_absent_extends.
  by eapply stat_after_removal.
Qed.

(** The errors of a removal that passed the guard are those of the system. *)
Lemma stat_errors w p e : Sys.stat w p = Raise e -> is_OSError e = true.
Proof. unfold Sys.stat. intros E. by destruct (walk_errors _ _ _ _ E) as [-> | ->]. Qed.

Lemma rmtree_raises p w e w' : Sys.rmtree p w = (Raise e, w') -> is_OSError e = true.
Proof.
  unfold Sys.rmtree. destruct (rmtree_faults w); [|by intros [= <- _]].
  destruct (Sys.stat w p) as [[]|e0] eqn:E; intros H; inversion H; subst; try done.
  by eapply stat_errors.
Qed.

Lemma remove_attempt_raises self target w e w' :
  PyStr.startswith target (_shadow_data_path self) = true ->
  remove_attempt self target w = (Raise e, w') -> is_OSError e = true.
Proof.
  intros Hs. unfold remove_attempt. rewrite Hs. unfold py_assert, bind at 1, ret at 1.
  unfold try_except. destruct (Sys.rmtree target w) as [[|e0] w1] eqn:E; [discriminate|].
  destruct (is_FileNotFoundError e0); [discriminate|]. intros [= <- _].
  by eapply rmtree_raises.
Qed.

Lemma retry_go_raises self target n : forall w e w',
  PyStr.startswith target (_shadow_data_path self) = true ->
  retry_go is_OSError n (remove_attempt self target) w = (Raise e, w') -> is_OSError e = true.
Proof.
  induction n as [|n IH]; intros w e w' Hs; simpl.
  - destruct (remove_attempt self target w) as [[|e0] w1] eqn:E; [discriminate|].
    intros [= <- _]. by eapply remove_attempt_raises.
  - destruct (remove_attempt self target w) as [[|e0] w1] eqn:E; [discriminate|].
    rewrite (remove_attempt_raises _ _ _ _ _ Hs E). unfold bind, Sys.sleep. by apply IH.
Qed.

(** C1, as the code has it: with assertions on (the interpreter not run
    with [-O]), a target that does not start, as a string, with the snapshot
    root (teardown) or the data root (change of ownership) is refused with
    an [AssertionError] before any call to the filesystem: the world is as
    it was, and for [chown_detached_table_parts] as the query for the
    table's data path left it.  Each refusal follows from the failure of
    its own guard and from nothing else.  [remove_freezed_data], whose
    target is the snapshot root itself, is never refused. *)
Theorem path_guard_refuses max_attempts self w :
  (forall part,
     PyStr.startswith (path part) (_shadow_data_path self) = false ->
     remove_freezed_part max_attempts self part w = (Raise AssertionError, w))
  /\ (forall target,
     PyStr.startswith target (_shadow_data_path self) = false ->
     _remove_shadow_data max_attempts self target w = (Raise AssertionError, w))
  /\ (forall dir_path,
     PyStr.startswith dir_path (_data_path self) = false ->
     _chown_dir self dir_path w = (Raise AssertionError, w))
  /\ (forall db_name table_name data_path f,
     engine w (trace w) (GET_TABLE_DATA_PATH_SQL db_name table_name) (fs w)
       = (Ok (VStr data_path), f) ->
     PyStr.startswith (PosixPath.join data_path ["detached"]) (_data_path self) = false ->
     chown_detached_table_parts self db_name table_name w =
       (Raise AssertionError,
        emit (EvQuery (GET_TABLE_DATA_PATH_SQL db_name table_name) (Ok (VStr data_path)))
          (set_fs w f)))
  /\ fst (remove_freezed_data max_attempts self w) <> Raise AssertionError.
Proof.
  split; [intros part Hs; by apply remove_shadow_data_refused|].
  split; [intros target Hs; by apply remove_shadow_data_refused|].
  split; [intros dir_path Hd; by apply chown_dir_refused|].
  split.
  - intros db_name table_name data_path f He Hd.
    unfold chown_detached_table_parts, _get_table_detached_path, _get_table_data_path.
    unfold bind at 1. unfold bind at 1. rewrite query_run, He. cbn [fst snd Py.as_str ret bind].
    by apply chown_dir_refused.
  - intros Hr. unfold remove_freezed_data, _remove_shadow_data, retry in Hr.
    fold (remove_attempt self (_shadow_data_path self)) in Hr.
    destruct (retry_go _ _ _ w) as [r w1] eqn:E. cbn [fst] in Hr. subst r.
    by apply retry_go_raises in E; [|apply startswith_refl].
Qed.

(** ** Removing what is not there *)

(** C7, as the code has it: removing what the system reports as not found
    is no error, and other kinds of absence are.  With no fault pending,
    [remove_freezed_data] on a snapshot root and [remove_freezed_part] on a
    path under the guard return normally after one call of [rmtree] when
    the lookup of the target ends in [ENOENT] (the path, and maybe
    directories above it, are not there): the [FileNotFoundError] is caught
    and the disk is left as it is; and a removal that went through can be
    made again with the same outcome.  A target whose path runs through a
    regular file is not there either ([os.path.exists] is false), but
    [rmtree] raises [NotADirectoryError] for it, which is not caught: it is
    retried and then raised.  The paths are written without [..], so that
    the lookup is the system's. *)
Theorem teardown_of_absent_path max_attempts self w :
  rmtree_faults w = [] ->
  (no_parent_steps (_shadow_data_path self) = true ->
   Sys.stat w (_shadow_data_path self) = Raise (OSError ENOENT) ->
     remove_freezed_data max_attempts self w =
       (Ok tt, emit (EvRmtree (_shadow_data_path self) (Raise (OSError ENOENT))) w))
  /\ (forall part,
       PyStr.startswith (path part) (_shadow_data_path self) = true ->
       no_parent_steps (path part) = true ->
       Sys.stat w (path part) = Raise (OSError ENOENT) ->
       remove_freezed_part max_attempts self part w =
         (Ok tt, emit (EvRmtree (path part) (Raise (OSError ENOENT))) w))
  /\ (forall part w1,
       PyStr.startswith (path part) (_shadow_data_path self) = true ->
       no_parent_steps (path part) = true ->
       remove_freezed_part max_attempts self part w = (Ok tt, w1) ->
       remove_freezed_part max_attempts self part w1 =
         (Ok tt, emit (EvRmtree (path part) (Raise (OSError ENOENT))) w1)
       /\ fs (snd (remove_freezed_part max_attempts self part w1)) = fs w1)
  /\ (forall part,
       PyStr.startswith (path part) (_shadow_data_path self) = true ->
       no_parent_steps (path part) = true ->
       Sys.stat w (path part) = Raise (OSError ENOTDIR) ->
       fst (Sys.exists_ (path part) w) = Ok false
       /\ fst (remove_freezed_part max_attempts self part w) = Raise (OSError ENOTDIR)).
Proof.
  intros Hf.
  assert (Habs : forall w0 target,
    PyStr.startswith target (_shadow_data_path self) = true ->
    rmtree_faults w0 = [] -> Sys.stat w0 target = Raise (OSError ENOENT) ->
    _remove_shadow_data max_attempts self target w0 =
      (Ok tt, emit (EvRmtree target (Raise (OSError ENOENT))) w0)).
  { intros w0 target H1 H2 H3. unfold _remove_shadow_data, retry.
    apply retry_go_first_ok. by apply remove_attempt_absent. }
  split; [intros _ Ha; apply Habs; [apply startswith_refl | done | done]|].
  split; [intros part Hs _ Ha; by apply Habs|].
  split.
  - intros part w1 Hs _ H.
    assert (Hw1 : rmtree_faults w1 = [] /\ Sys.stat w1 (path part) = Raise (OSError ENOENT)).
    { unfold remove_freezed_part, _remove_shadow_data, retry in H.
      fold (remove_attempt self (path part)) in H.
      assert (Hstuck : not_a_directory w (path part) -> False).
      { intros Hn.
        pose proof (retry_go_not_a_directory self (path part) (Nat.pred max_attempts) w Hs Hf Hn) as E.
        rewrite H in E. discriminate. }
      destruct (Sys.stat w (path part)) as [[c o|s o]|e] eqn:Es.
      - destruct Hstuck. left. eauto.
      - rewrite (retry_go_first_ok _ _ _ _ _ _ (remove_attempt_dir _ _ _ _ _ Hs Hf Es)) in H.
        inversion H; subst w1. split; [done|].
        unfold Sys.stat at 1. cbn [fs cwd emit set_fs]. by eapply stat_after_removal.
      - unfold Sys.stat in Es. destruct (walk_errors _ _ _ _ Es) as [-> | ->].
        + rewrite (retry_go_first_ok _ _ _ _ _ _ (remove_attempt_absent _ _ _ Hs Hf Es)) in H.
          inversion H; subst w1. done.
        + destruct Hstuck. by right. }
    destruct Hw1 as [F1 S1]. unfold remove_freezed_part.
    rewrite (Habs w1 (path part) Hs F1 S1). done.
  - intros part Hs _ Hn. split.
    + unfold Sys.exists_. cbn [fst]. by rewrite Hn.
    + unfold remove_freezed_part, _remove_shadow_data, retry.
      fold (remove_attempt self (path part)).
      apply retry_go_not_a_directory; [done | done | by right].
Qed.

(** ** The retry policy of teardown *)

Lemma retry_go_faults self target errs : forall n w rest,
  PyStr.startswith target (_shadow_data_path self) = true ->
  Forall (fun e => e <> ENOENT) errs ->
  rmtree_faults w = (errs ++ rest)%list ->
  retry_go is_OSError (length errs + n) (remove_attempt self target) w =
  retry_go is_OSError n (remove_attempt self target) (after_failed_attempts w target errs rest).
Proof.
  induction errs as [|e errs IH]; intros n w rest Hs Hne Hf.
  - simpl in *. unfold after_failed_attempts, failed_attempts. simpl.
    rewrite app_nil_r. destruct w; simpl in *; by subst.
  - inversion Hne as [|? ? He Hne']; subst.
    cbn [length Nat.add retry_go].
    rewrite (remove_attempt_fault self target w e (errs ++ rest) Hs Hf).
    rewrite bool_decide_eq_false_2 by done. cbn [is_OSError].
    unfold bind at 1. unfold Sys.sleep at 1.
    erewrite (IH n _ rest Hs Hne'); [|reflexivity].
    f_equal. unfold after_failed_attempts, failed_attempts. simpl.
    by rewrite <- !app_assoc.
Qed.

(** C6, as the code has it: the decorator covers [OSError], so the removal
    is made again, after a pause, on every error of the operating system
    but the absence of the path, permission denied and resource busy alike,
    and at most [max_attempts] times in all (once when [max_attempts] is 0).
    When the errors stop in time and the target is a directory or missing
    the call returns normally; when they do not stop, the error of the last
    attempt surfaces. *)
Theorem teardown_retry_policy max_attempts self part w errs e rest :
  PyStr.startswith (path part) (_shadow_data_path self) = true ->
  Forall (fun e => e <> ENOENT) errs ->
  e <> ENOENT ->
  (rmtree_faults w = errs ->
   length errs <= Nat.pred max_attempts ->
   (Sys.stat w (path part) = Raise (OSError ENOENT)
    \/ exists s o, Sys.stat w (path part) = Ok (NDir s o)) ->
   fst (remove_freezed_part max_attempts self part w) = Ok tt
   /\ exists r, trace (snd (remove_freezed_part max_attempts self part w)) =
                 (trace w ++ failed_attempts (path part) errs ++ [EvRmtree (path part) r])%list)
  /\ (rmtree_faults w = (errs ++ e :: rest)%list ->
      length errs = Nat.pred max_attempts ->
      remove_freezed_part max_attempts self part w =
        (Raise (OSError e),
         emit (EvRmtree (path part) (Raise (OSError e)))
           (after_failed_attempts w (path part) errs rest))).
Proof.
  intros Hs Hne He. unfold remove_freezed_part, _remove_shadow_data, retry.
  fold (remove_attempt self (path part)). split.
  - intros Hf Hlen Hnf.
    replace (Nat.pred max_attempts) with (length errs + (Nat.pred max_attempts - length errs))%nat by lia.
    rewrite (retry_go_faults self (path part) errs _ w [] Hs Hne) by by rewrite app_nil_r.
    set (w1 := after_failed_attempts w (path part) errs []).
    assert (Hst : Sys.stat w1 (path part) = Sys.stat w (path part)) by reflexivity.
    destruct Hnf as [Es | (s & o & Es)]; rewrite Es in Hst.
    + rewrite (retry_go_first_ok _ _ _ _ _ _ (remove_attempt_absent self _ w1 Hs eq_refl Hst)).
      split; [done|]. exists (Raise (OSError ENOENT)). cbn [snd emit trace after_failed_attempts w1].
      by rewrite <- app_assoc.
    + rewrite (retry_go_first_ok _ _ _ _ _ _ (remove_attempt_dir self _ w1 s o Hs eq_refl Hst)).
      split; [done|]. exists (Ok tt). cbn [snd emit trace set_fs after_failed_attempts w1].
      by rewrite <- app_assoc.
  - intros Hf Hlen. rewrite <- Hlen.
    replace (length errs) with (length errs + 0)%nat at 1 by lia.
    rewrite (retry_go_faults self (path part) errs 0 w (e :: rest) Hs Hne Hf).
    cbn [retry_go].
    erewrite (remove_attempt_fault self (path part) _ e rest Hs); [|reflexivity].
    by rewrite bool_decide_eq_false_2.
Qed.

(** ** The per-partition path, command by command *)

Lemma new_events_app w w' d : trace w' = (trace w ++ d)%list -> new_events w w' = d.
Proof. unfold new_events. intros ->. by rewrite drop_app_length. Qed.

Lemma omap_all_None {A B} (f : A -> option B) (l : list A) :
  Forall (fun x => f x = None) l -> omap f l = [].
Proof. induction 1 as [|x l Hx _ IH]; simpl; [done|]. by rewrite Hx. Qed.

Lemma is_enum_no_freeze_command d :
  Forall (fun ev => is_enum ev = true) d -> omap freeze_command d = [].
Proof.
  intros F. apply omap_all_None. eapply Forall_impl; [exact F|].
  intros [[]| | | | | | | |]; simpl; done.
Qed.

Lemma is_enum_not_freeze d i db t q r :
  Forall (fun ev => is_enum ev = true) d ->
  d !! i = Some (EvQuery (FREEZE_PARTITION_SQL db t q) r) -> False.
Proof.
  intros F Hi. rewrite Forall_forall in F.
  specialize (F _ (list_elem_of_lookup_2 _ _ _ Hi)). discriminate.
Qed.

Lemma freeze_table_compat_loop_commands self db t ps : forall acc w r w',
  _freeze_table_compat_loop self db t ps acc w = (r, w') ->
  exists d, trace w' = (trace w ++ d)%list
    /\ (exists k, omap freeze_command d = map (command_of db t) (take k ps))
    /\ (is_ok r = true -> omap freeze_command d = map (command_of db t) ps)
    /\ (forall i q e,
          d !! i = Some (EvQuery (FREEZE_PARTITION_SQL db t q) (Raise e)) ->
          S i = length d /\ r = Raise e).
Proof.
  induction ps as [|p ps IH]; intros acc w r w' H; simpl in H.
  - inversion H; subst. exists []. rewrite app_nil_r. split; [done|].
    split; [by exists 0%nat|]. split; [done|]. intros i q e Hi. by destruct i.
  - apply bind_inv in H as [(v & w1 & H1 & H) | (e & H1 & ->)].
    + rewrite query_run in H1. inversion H1 as [[Hv Hw1]].
      set (ev1 := EvQuery (FREEZE_PARTITION_SQL db t (p_name p)) (Ok v)).
      assert (T1 : trace w1 = (trace w ++ [ev1])%list).
      { rewrite <- Hw1. cbn [trace emit set_fs]. by rewrite Hv. }
      clear Hv Hw1 H1.
      apply bind_inv in H as [(parts & w2 & H2 & H) | (e & H2 & ->)].
      * destruct (emits_get_freezed_parts self db t _ _ _ H2) as (d2 & T2 & F2 & _).
        destruct (IH _ _ _ _ H) as (d3 & T3 & (k & K3) & O3 & I3).
        exists (ev1 :: d2 ++ d3)%list. split.
        { rewrite T3, T2, T1. by rewrite <- !app_assoc. }
        assert (Hom : omap freeze_command (ev1 :: d2 ++ d3) =
                      command_of db t p :: omap freeze_command d3).
        { cbn [omap list_omap ev1 freeze_command]. fold (omap freeze_command (d2 ++ d3)).
          by rewrite omap_app, (is_enum_no_freeze_command d2 F2). }
        split; [exists (S k); by rewrite Hom, K3|].
        split; [intros Hr; by rewrite Hom, O3|].
        intros [|i] q e Hi; [discriminate|]. cbn [lookup list_lookup] in Hi.
        fold (lookup (M:=list Event) i (d2 ++ d3)) in Hi.
        apply lookup_app_Some in Hi as [Hi | [Hl Hi]].
        { destruct (is_enum_not_freeze _ _ _ _ _ _ F2 Hi). }
        destruct (I3 _ _ _ Hi) as [L3 ->]. split; [|done].
        cbn [length]. rewrite length_app. lia.
      * destruct (emits_get_freezed_parts self db t _ _ _ H2) as (d2 & T2 & F2 & _).
        exists (ev1 :: d2). split.
        { rewrite T2, T1. by rewrite <- !app_assoc. }
        assert (Hom : omap freeze_command (ev1 :: d2) = [command_of db t p]).
        { cbn [omap list_omap ev1 freeze_command]. fold (omap freeze_command d2).
          by rewrite (is_enum_no_freeze_command d2 F2). }
        split; [exists 1%nat; rewrite Hom; cbn [take map]; by rewrite take_0|].
        split; [done|].
        intros [|i] q e' Hi; [discriminate|]. cbn [lookup list_lookup] in Hi.
        destruct (is_enum_not_freeze _ _ _ _ _ _ F2 Hi).
    + rewrite query_run in H1. inversion H1 as [[Hv Hw1]].
      exists [EvQuery (FREEZE_PARTITION_SQL db t (p_name p)) (Raise e)].
      split; [cbn [trace emit set_fs]; by rewrite Hv|].
      split; [exists 1%nat; cbn [take map]; by rewrite take_0|].
      split; [done|].
      intros [|i] q e' Hi; [|by destruct i]. inversion Hi; subst. done.
Qed.


(** ** The generation marker *)

Lemma manifest_is_not_increment self part_path :
  PosixPath.join part_path ["checksums.txt"] <> increment_file self.
Proof.
  unfold increment_file. rewrite !join_entry by done.
  intros E. apply str_app_eq_suffix in E; [discriminate | reflexivity].
Qed.

Lemma no_step_omap self d :
  Forall (fun ev => no_step self ev = true) d -> omap (step_of self) d = [].
Proof.
  intros F. apply omap_all_None. eapply Forall_impl; [exact F|].
  intros ev. unfold no_step. by destruct (step_of self ev).
Qed.

Lemma no_step_filter self d :
  Forall (fun ev => no_step self ev = true) d -> filter (fun ev => is_increment_read self ev = true) d = [].
Proof.
  induction 1 as [|ev d Hev _ IH]; [done|].
  rewrite filter_cons_False; [done|].
  unfold no_step in Hev. destruct ev; simpl in *; try done.
  destruct (bool_decide _); done.
Qed.

Lemma emits_no_step_relpath self db t : emits (no_step self) (_get_table_data_relpath self db t).
Proof.
  unfold _get_table_data_relpath, _get_table_data_path.
  apply emits_bind; [apply emits_query; intros; reflexivity | intros p].
  destruct (negb _); [apply emits_raise|].
  apply emits_bind; [apply emits_as_str | intros p']. by apply emits_relpath.
Qed.

Lemma emits_no_step_part self db t dir n : emits (no_step self) (freezed_part_of db t dir n).
Proof.
  unfold freezed_part_of, _get_part_checksum, _get_part_size.
  apply emits_bind.
  { apply emits_bind; [|intros; apply emits_ret].
    apply emits_read. intros r. unfold no_step. cbn [step_of].
    rewrite bool_decide_eq_false_2; [done | apply manifest_is_not_increment]. }
  intros ck. apply emits_bind; [|intros; apply emits_ret].
  apply emits_bind; [emits_auto | intros files].
  by apply emits_get_part_size_loop.
Qed.

Lemma get_freezed_parts_steps self db t w parts w' :
  _get_freezed_parts self db t w = (Ok parts, w') ->
  exists g d, trace w' = trace w ++ d
    /\ omap (step_of self) d = steps_after_freeze self g
    /\ length (filter (fun ev => is_increment_read self ev = true) d) = 1%nat.
Proof.
  intros H. apply get_freezed_parts_inv in H as [(e & ? & _) | H]; [discriminate|].
  destruct H as (c & w1 & rel & w2 & H1 & H2 & H). cbn zeta in H.
  set (dir := snapshot_dir self (PyStr.strip c) rel) in *.
  unfold Sys.read in H1.
  assert (T1 : trace w1 = trace w ++ [EvRead (increment_file self) (Ok c)]).
  { destruct (Sys.stat w _) as [[]|]; inversion H1; subst; reflexivity. }
  destruct (emits_no_step_relpath self db t _ _ _ H2) as (d2 & T2 & F2 & _).
  set (ev3 := EvExists dir (is_ok (Sys.stat w2 dir))) in *.
  assert (Hrest : exists d4, trace w' = trace w2 ++ ev3 :: d4
                             /\ Forall (fun ev => no_step self ev = true) d4).
  { destruct H as [(_ & _ & ->) | (_ & [(e & _ & ?) | (names & w4 & H4 & H5)])];
      [by exists [] | discriminate |].
    assert (E4 : emits (no_step self) (Sys.listdir dir)) by emits_auto.
    assert (E5 : emits (no_step self) (mapM (freezed_part_of db t dir) names)).
    { apply emits_mapM. intros. apply emits_no_step_part. }
    destruct (E4 _ _ _ H4) as (d4 & T4 & P4 & _). destruct (E5 _ _ _ H5) as (d5 & T5 & P5 & _).
    exists (d4 ++ d5). split; [|by apply Forall_app].
    rewrite T5, T4. cbn [trace emit]. by rewrite <- !app_assoc. }
  destruct Hrest as (d4 & T4 & F4).
  exists (c, rel), (EvRead (increment_file self) (Ok c) :: d2 ++ ev3 :: d4).
  split; [rewrite T4, T2, T1; by rewrite <- !app_assoc|].
  split.
  - cbn [omap list_omap step_of]. rewrite bool_decide_eq_true_2 by done.
    fold (omap (step_of self) (d2 ++ ev3 :: d4)).
    rewrite omap_app, (no_step_omap self d2 F2).
    cbn [omap list_omap step_of ev3 app]. fold (omap (step_of self) d4).
    by rewrite (no_step_omap self d4 F4).
  - rewrite filter_cons_True by (cbn; by rewrite bool_decide_eq_true_2).
    rewrite filter_app, (no_step_filter self d2 F2).
    rewrite filter_cons_False by (cbn; done).
    by rewrite (no_step_filter self d4 F4).
Qed.

Lemma freeze_table_compat_loop_steps self db t ps : forall acc w parts w',
  _freeze_table_compat_loop self db t ps acc w = (Ok parts, w') ->
  exists d gens, trace w' = trace w ++ d
    /\ length gens = length ps
    /\ omap (step_of self) d =
       concat (zip_with (fun p g => SFreezePartition db t (p_name p) :: steps_after_freeze self g)
                 ps gens)
    /\ length (filter (fun ev => is_increment_read self ev = true) d) = length ps.
Proof.
  induction ps as [|p ps IH]; intros acc w parts w' H; simpl in H.
  - inversion H; subst. exists [], []. by rewrite app_nil_r.
  - apply bind_inv in H as [(v & w1 & H1 & H) | (e & _ & ?)]; [|discriminate].
    rewrite query_run in H1. inversion H1 as [[Hv Hw1]].
    set (ev1 := EvQuery (FREEZE_PARTITION_SQL db t (p_name p)) (Ok v)).
    assert (T1 : trace w1 = trace w ++ [ev1]).
    { rewrite <- Hw1. cbn [trace emit set_fs]. by rewrite Hv. }
    clear Hv Hw1 H1.
    apply bind_inv in H as [(c & w2 & H2 & H) | (e & _ & ?)]; [|discriminate].
    apply get_freezed_parts_steps in H2 as (g & d2 & T2 & S2 & R2).
    apply IH in H as (d3 & gens & T3 & L3 & S3 & R3).
    exists (ev1 :: d2 ++ d3), (g :: gens).
    split; [rewrite T3, T2, T1; by rewrite <- !app_assoc|].
    split; [cbn [length]; by rewrite L3|]. split.
    + cbn [omap list_omap step_of ev1 zip_with concat].
      fold (omap (step_of self) (d2 ++ d3)).
      by rewrite omap_app, S2, S3.
    + rewrite filter_cons_False by (cbn; done).
      rewrite filter_app, length_app, R2, R3. reflexivity.
Qed.


(** ** Snapshots of tables without data *)

Lemma get_freezed_parts_absent self db t w c w1 rel w2 :
  Sys.read (increment_file self) w = (Ok c, w1) ->
  _get_table_data_relpath self db t w1 = (Ok rel, w2) ->
  is_ok (Sys.stat w2 (snapshot_dir self (PyStr.strip c) rel)) = false ->
  _get_freezed_parts self db t w =
    (Ok [], emit (EvExists (snapshot_dir self (PyStr.strip c) rel) false) w2).
Proof.
  intros H1 H2 H3. unfold _get_freezed_parts, _get_shadow_increment.
  fold (increment_file self).
  rewrite (bind_ok _ _ w (PyStr.strip c) w1) by (by rewrite (bind_ok _ _ _ _ _ H1)).
  rewrite (bind_ok _ _ _ _ _ H2). fold (snapshot_dir self (PyStr.strip c) rel).
  unfold bind, Sys.exists_. rewrite H3. reflexivity.
Qed.

Lemma freeze_table_compat_loop_absent self db t ps : forall acc w w',
  absent_run self db t (freeze_queries db t false ps) w w' ->
  _freeze_table_compat_loop self db t ps acc w = (Ok acc, w').
Proof.
  induction ps as [|p ps IH]; intros acc w w' H; simpl in H.
  - by subst.
  - destruct H as (v & w1 & c & w2 & rel & w3 & H1 & H2 & H3 & H4 & H).
    cbn [_freeze_table_compat_loop]. rewrite (bind_ok _ _ _ _ _ H1).
    rewrite (bind_ok _ _ _ _ _ (get_freezed_parts_absent _ _ _ _ _ _ _ _ H2 H3 H4)).
    rewrite app_nil_r. by apply IH.
Qed.

(** C5: a snapshot directory that is not on disk is an empty result, not
    an error.  An enumeration whose marker read and path resolution went
    through and whose directory is absent returns the empty list; and a
    [freeze_table] every command of which is followed by such an
    enumeration returns the empty list, on either path. *)
Theorem snapshot_of_absent_directory self db t w whole ps w0 w' :
  fst (_match_ch_version self "18.16.0" w) = Ok whole ->
  (if whole then w0 = w else get_partitions self db t w = (Ok ps, w0)) ->
  absent_run self db t (freeze_queries db t whole ps) w0 w' ->
  freeze_table self db t w = (Ok [], w')
  /\ (forall w1 c w2 rel w3,
       Sys.read (increment_file self) w1 = (Ok c, w2) ->
       _get_table_data_relpath self db t w2 = (Ok rel, w3) ->
       is_ok (Sys.stat w3 (snapshot_dir self (PyStr.strip c) rel)) = false ->
       _get_freezed_parts self db t w1 =
         (Ok [], emit (EvExists (snapshot_dir self (PyStr.strip c) rel) false) w3)).
Proof.
  intros Hv H0 H. split; [|intros; by eapply get_freezed_parts_absent].
  unfold freeze_table.
  pose proof (match_ch_version_world self "18.16.0" w) as Hw.
  destruct (_match_ch_version self "18.16.0" w) as [r w1] eqn:E.
  simpl in Hv, Hw. subst r w1. rewrite (bind_ok _ _ _ _ _ E).
  destruct whole.
  - subst w0. simpl in H.
    destruct H as (v & w1 & c & w2 & rel & w3 & H1 & H2 & H3 & H4 & ->).
    unfold _freeze_table. rewrite (bind_ok _ _ _ _ _ H1).
    by eapply get_freezed_parts_absent.
  - unfold _freeze_table_compat. rewrite (bind_ok _ _ _ _ _ H0).
    by apply freeze_table_compat_loop_absent.
Qed.

(** ** The increment file *)

Lemma emits_quiet_frame {A} P (m : M A) w r w' :
  emits P m -> (forall ev, P ev = true -> is_mutation ev = false) ->
  quiet (engine w) -> m w = (r, w') ->
  fs w' = fs w /\ cwd w' = cwd w.
Proof.
  intros Hm HP Hq H. destruct (Hm _ _ _ H) as (d & _ & F & C & _ & _ & Q).
  split; [|done]. apply Q; [done|]. eapply Forall_impl; [exact F | exact HP].
Qed.

Lemma is_snapshot_call_no_mutation ev : is_snapshot_call ev = true -> is_mutation ev = false.
Proof. destruct ev as [[]| | | | | | | |]; done. Qed.

Lemma emits_match_ch_version P self v : emits P (_match_ch_version self v).
Proof.
  unfold _match_ch_version. apply emits_bind; [apply emits_as_str | intros s].
  destruct (Version.parse s), (Version.parse v); first [apply emits_ret | apply emits_raise].
Qed.

Lemma emits_freeze_table self db t : emits is_snapshot_call (freeze_table self db t).
Proof.
  unfold freeze_table. apply emits_bind; [apply emits_match_ch_version | intros whole].
  destruct whole; [apply emits__freeze_table | apply emits_freeze_table_compat].
Qed.

Lemma emits_attach_part self db t p : emits is_snapshot_call (attach_part self db t p).
Proof. unfold attach_part. emits_auto. Qed.

Lemma under_take d k i : Sys.under d k = false -> Sys.under d (take i k) = false.
Proof.
  unfold Sys.under. intros H. apply bool_decide_eq_false_2. intros [r Hr].
  apply bool_decide_eq_false_1 in H. apply H.
  apply strip_prefix_Some in Hr.
  rewrite <- (take_drop i k), Hr, <- app_assoc, strip_prefix_app. by eexists.
Qed.

(** A removal leaves what is not below its target. *)
Lemma rmtree_outside target w r w' k :
  Sys.rmtree target w = (r, w') ->
  Sys.under (Sys.resolve (cwd w) target) k = false ->
  fs w' !! k = fs w !! k /\ cwd w' = cwd w.
Proof.
  unfold Sys.rmtree. intros H Hk.
  destruct (rmtree_faults w) as [|e rest]; [|by inversion H].
  destruct (Sys.stat w target) as [[c o|s o]|]; inversion H; subst; try done.
  split; [|done]. cbn [fs emit set_fs].
  destruct (fs w !! k) as [n|] eqn:E.
  - apply map_lookup_filter_Some_2; done.
  - apply map_lookup_filter_None_2. by left.
Qed.

Lemma remove_attempt_outside self target w r w' k :
  remove_attempt self target w = (r, w') ->
  Sys.under (Sys.resolve (cwd w) target) k = false ->
  fs w' !! k = fs w !! k /\ cwd w' = cwd w.
Proof.
  unfold remove_attempt, bind, py_assert, try_except. intros H Hk.
  destruct (PyStr.startswith _ _); cbn [ret raise] in H; [|by inversion H].
  destruct (Sys.rmtree target w) as [[[]|e] w1] eqn:E.
  - inversion H; subst. by eapply rmtree_outside.
  - destruct (is_FileNotFoundError e); inversion H; subst; by eapply rmtree_outside.
Qed.

Lemma retry_go_outside self target k n : forall w r w',
  retry_go is_OSError n (remove_attempt self target) w = (r, w') ->
  Sys.under (Sys.resolve (cwd w) target) k = false ->
  fs w' !! k = fs w !! k /\ cwd w' = cwd w.
Proof.
  induction n as [|n IH]; intros w r w' H Hk; simpl in H.
  - destruct (remove_attempt self target w) as [[a|e] w1] eqn:E; inversion H; subst;
      by eapply remove_attempt_outside.
  - destruct (remove_attempt self target w) as [[a|e] w1] eqn:E.
    + inversion H; subst. by eapply remove_attempt_outside.
    + destruct (remove_attempt_outside _ _ _ _ _ _ E Hk) as [F1 C1].
      destruct (is_OSError e); [|inversion H; by subst].
      unfold bind, Sys.sleep in H.
      destruct (IH _ _ _ H) as [F2 C2]; [cbn [cwd emit]; by rewrite C1|].
      cbn [fs cwd emit] in F2, C2. split; congruence.
Qed.

Lemma chown_dir_contents_content user group dir_path w r w' file :
  chown_dir_contents user group dir_path w = (r, w') ->
  content_at w' file = content_at w file.
Proof.
  unfold chown_dir_contents. intros H.
  destruct (Sys.stat w dir_path) as [[c o|s o]|]; inversion H; subst; try done.
  unfold content_at, Sys.stat. cbn [fs cwd emit set_fs].
  rewrite (walk_imap_owner (fun k n =>
             if Sys.strictly_under (Sys.resolve (cwd w) dir_path) k
             then Sys.set_owner {| o_user := user; o_group := group |} n else n)).
  - destruct (Sys.walk (fs w) [] _) as [[c' o'|s' o']|]; try done;
      by destruct (Sys.strictly_under _ _).
  - intros k [c' o'|s' o']; by destruct (Sys.strictly_under _ _).
Qed.

Lemma content_at_ext w1 w2 p : fs w1 = fs w2 -> cwd w1 = cwd w2 -> content_at w1 p = content_at w2 p.
Proof. unfold content_at, Sys.stat. by intros -> ->. Qed.

Lemma chown_detached_table_parts_content self db t w file :
  quiet (engine w) ->
  content_at (snd (chown_detached_table_parts self db t w)) file = content_at w file.
Proof.
  intros Hq. destruct (chown_detached_table_parts self db t w) as [r w'] eqn:H.
  cbn [snd]. unfold chown_detached_table_parts in H.
  apply bind_inv in H as [(dp & w1 & H1 & H) | (e & H1 & _)].
  - assert (E1 : emits is_query (_get_table_detached_path self db t)).
    { unfold _get_table_detached_path, _get_table_data_path. emits_auto. }
    destruct (emits_quiet_frame _ _ _ _ _ E1 (fun ev => ltac:(by destruct ev)) Hq H1) as [F1 C1].
    rewrite <- (content_at_ext w1 w) by done.
    unfold _chown_dir in H.
    apply bind_inv in H as [([] & w2 & H2 & H) | (e & H2 & _)].
    2:{ unfold py_assert in H2. destruct (PyStr.startswith _ _); by inversion H2. }
    assert (w2 = w1) as -> by (unfold py_assert in H2; destruct (PyStr.startswith _ _); by inversion H2).
    apply bind_inv in H as [(u & w3 & H3 & H) | (e & H3 & _)].
    2:{ unfold config_get in H3. destruct (_ !! _); by inversion H3. }
    assert (w3 = w1) as -> by (unfold config_get in H3; destruct (_ !! _); by inversion H3).
    apply bind_inv in H as [(g & w4 & H4 & H) | (e & H4 & _)].
    2:{ unfold config_get in H4. destruct (_ !! _); by inversion H4. }
    assert (w4 = w1) as -> by (unfold config_get in H4; destruct (_ !! _); by inversion H4).
    by eapply chown_dir_contents_content.
  - assert (E1 : emits is_query (_get_table_detached_path self db t)).
    { unfold _get_table_detached_path, _get_table_data_path. emits_auto. }
    destruct (emits_quiet_frame _ _ _ _ _ E1 (fun ev => ltac:(by destruct ev)) Hq H1) as [F1 C1].
    by apply content_at_ext.
Qed.

Lemma chown_dir_content self dir_path w file :
  content_at (snd (_chown_dir self dir_path w)) file = content_at w file.
Proof.
  destruct (_chown_dir self dir_path w) as [r w'] eqn:H. cbn [snd].
  unfold _chown_dir in H.
  apply bind_inv in H as [([] & w2 & H2 & H) | (e & H2 & _)].
  2:{ unfold py_assert in H2. destruct (PyStr.startswith _ _); by inversion H2. }
  assert (w2 = w) as -> by (unfold py_assert in H2; destruct (PyStr.startswith _ _); by inversion H2).
  apply bind_inv in H as [(u & w3 & H3 & H) | (e & H3 & _)].
  2:{ unfold config_get in H3. destruct (_ !! _); by inversion H3. }
  assert (w3 = w) as -> by (unfold config_get in H3; destruct (_ !! _); by inversion H3).
  apply bind_inv in H as [(g & w4 & H4 & H) | (e & H4 & _)].
  2:{ unfold config_get in H4. destruct (_ !! _); by inversion H4. }
  assert (w4 = w) as -> by (unfold config_get in H4; destruct (_ !! _); by inversion H4).
  by eapply chown_dir_contents_content.
Qed.

(** C9, as the code has it: nothing in the controller writes to
    [increment.txt].  Whatever the engine does, [freeze_table] and
    [attach_part] make no removal and no change of ownership, the change of
    ownership leaves the content of the file, and the removal of an artifact
    leaves the file as it is when the artifact's path is not the file or a
    directory above it.  So with an engine that leaves the disk alone, a
    snapshot and an attach leave the file as it is, and
    [chown_detached_table_parts] leaves its content; what an engine that
    freezes does to its own marker is not the controller's doing.
    [remove_freezed_data] is not among these: when it goes through on a
    snapshot root that is there, the file is gone with the root. *)
Theorem increment_file_untouched max_attempts self w :
  (forall db t,
     Forall (fun ev => is_mutation ev = false)
       (new_events w (snd (freeze_table self db t w))))
  /\ (forall db t part_name,
     Forall (fun ev => is_mutation ev = false)
       (new_events w (snd (attach_part self db t part_name w))))
  /\ (forall part,
     Sys.under (Sys.resolve (cwd w) (path part)) (Sys.resolve (cwd w) (increment_file self))
       = false ->
     Sys.stat (snd (remove_freezed_part max_attempts self part w)) (increment_file self)
       = Sys.stat w (increment_file self))
  /\ (forall dir_path,
     content_at (snd (_chown_dir self dir_path w)) (increment_file self)
       = content_at w (increment_file self))
  /\ (quiet (engine w) -> forall db t part_name,
     Sys.stat (snd (freeze_table self db t w)) (increment_file self)
       = Sys.stat w (increment_file self)
     /\ Sys.stat (snd (attach_part self db t part_name w)) (increment_file self)
       = Sys.stat w (increment_file self)
     /\ content_at (snd (chown_detached_table_parts self db t w)) (increment_file self)
       = content_at w (increment_file self))
  /\ (forall s o, rmtree_faults w = [] ->
       Sys.stat w (_shadow_data_path self) = Ok (NDir s o) ->
       fst (remove_freezed_data max_attempts self w) = Ok tt
       /\ Sys.stat (snd (remove_freezed_data max_attempts self w)) (increment_file self)
          = Raise (OSError ENOENT)).
Proof.
  split.
  { intros db t. destruct (freeze_table self db t w) as [r1 w1] eqn:E1. cbn [snd].
    destruct (emits_freeze_table self db t _ _ _ E1) as (d & T & F & _).
    rewrite (new_events_app _ _ _ T). eapply Forall_impl; [exact F|].
    apply is_snapshot_call_no_mutation. }
  split.
  { intros db t part_name.
    destruct (attach_part self db t part_name w) as [r2 w2] eqn:E2. cbn [snd].
    destruct (emits_attach_part self db t part_name _ _ _ E2) as (d & T & F & _).
    rewrite (new_events_app _ _ _ T). eapply Forall_impl; [exact F|].
    apply is_snapshot_call_no_mutation. }
  split.
  { intros part Hout.
    destruct (remove_freezed_part max_attempts self part w) as [r3 w3] eqn:E3. cbn [snd].
    unfold remove_freezed_part, _remove_shadow_data, retry in E3.
    fold (remove_attempt self (path part)) in E3.
    destruct (retry_go_outside _ _ _ _ _ _ _ E3 Hout) as [_ C3].
    unfold Sys.stat. rewrite C3. apply walk_ext. intros i _. cbn [app].
    by destruct (retry_go_outside _ _ (take i (Sys.resolve (cwd w) (increment_file self)))
                  _ _ _ _ E3 (under_take _ _ i Hout)). }
  split; [intros dir_path; apply chown_dir_content|].
  split; [|intros s o Hf Hs; by eapply remove_freezed_data_takes_increment].
  intros Hq db t part_name.
  destruct (freeze_table self db t w) as [r1 w1] eqn:E1.
  destruct (attach_part self db t part_name w) as [r2 w2] eqn:E2.
  cbn [snd].
  destruct (emits_quiet_frame _ _ _ _ _ (emits_freeze_table self db t)
              is_snapshot_call_no_mutation Hq E1) as [F1 C1].
  destruct (emits_quiet_frame _ _ _ _ _ (emits_attach_part self db t part_name)
              is_snapshot_call_no_mutation Hq E2) as [F2 C2].
  split; [by apply stat_ext|]. split; [by apply stat_ext|].
  by apply chown_detached_table_parts_content.
Qed.

(** * The properties on the small installation *)

Import Scenario.

Ltac absent_step v c rel :=
  match goal with
  | |- absent_run ?self ?db ?t (?q :: _) ?w _ =>
      let w1 := constr:(snd (query q w)) in
      let w2 := constr:(snd (Sys.read (increment_file self) w1)) in
      let w3 := constr:(snd (_get_table_data_relpath self db t w2)) in
      exists v, w1, c, w2, rel, w3;
      split; [apply run_eq; vm_compute; reflexivity|];
      split; [apply run_eq; vm_compute; reflexivity|];
      split; [apply run_eq; vm_compute; reflexivity|];
      split; [vm_compute; reflexivity|]
  end.

Example init_builds_the_controller :
  fst (__init__ config (world "19.1.0" disk)) = Ok ctl19.
Proof. vm_compute. reflexivity. Qed.

(** Version 18.9.0 is below 18.16.0 although its text sorts above. *)
Example semantic_not_lexical :
  fst (_match_ch_version (ctl "18.9.0") "18.16.0" (world "18.9.0" disk)) = Ok false
  /\ String.ltb "18.16.0" "18.9.0" = true.
Proof. vm_compute. done. Qed.

(** The engine's own four-number releases are compared the same way. *)
Example four_number_release :
  fst (_match_ch_version (ctl "19.17.4.11") "18.16.0" (world "19.17.4.11" disk)) = Ok true
  /\ fst (_match_ch_version (ctl "18.16.0") "18.16.0" (world "18.16.0" disk)) = Ok true
  /\ fst (_match_ch_version (ctl "1.1.54388") "18.16.0" (world "1.1.54388" disk)) = Ok false.
Proof. vm_compute. done. Qed.

(** C1, refuted as worded: the snapshot root itself, which is not strictly
    under the snapshot root, passes the guard and is removed by
    [remove_freezed_data]; and so does a directory beside the root whose
    path starts with the root's text. *)
Lemma guard_admits_root_and_sibling :
  lies_strictly_under "/" (_shadow_data_path ctl19) (_shadow_data_path ctl19) = false
  /\ fst (remove_freezed_data 3 ctl19 (faulty_world [])) = Ok tt
  /\ trace (snd (remove_freezed_data 3 ctl19 (faulty_world [])))
     = [EvRmtree "/var/lib/clickhouse/shadow" (Ok tt)]
  /\ lies_strictly_under "/" (_shadow_data_path ctl19) (path beside) = false
  /\ Sys.stat (faulty_world []) (path beside) = Ok plain_dir
  /\ fst (remove_freezed_part 3 ctl19 beside (faulty_world [])) = Ok tt
  /\ trace (snd (remove_freezed_part 3 ctl19 beside (faulty_world [])))
     = [EvRmtree "/var/lib/clickhouse/shadow_old/1" (Ok tt)]
  /\ Sys.stat (snd (remove_freezed_part 3 ctl19 beside (faulty_world []))) (path beside)
     = Raise (OSError ENOENT).
Proof. vm_compute. done. Qed.

Lemma path_guard_refuses_witness :
  remove_freezed_part 3 ctl19 outside (world "19.1.0" disk)
    = (Raise AssertionError, world "19.1.0" disk)
  /\ remove_freezed_part 3 ctl19 outside (world "18.10.0" disk)
    = (Raise AssertionError, world "18.10.0" disk)
  /\ _chown_dir ctl19 "/etc" (world "19.1.0" disk) = (Raise AssertionError, world "19.1.0" disk)
  /\ chown_detached_table_parts ctl19 "db" "t" (mkWorld disk "/" [] stray_engine []) =
       (Raise AssertionError,
        mkWorld disk "/" [] stray_engine
          [EvQuery (GET_TABLE_DATA_PATH_SQL "db" "t") (Ok (VStr "/srv/elsewhere/db/t/"))]).
Proof.
  split; [apply (path_guard_refuses 3 ctl19 (world "19.1.0" disk)); reflexivity|].
  split; [apply (path_guard_refuses 3 ctl19 (world "18.10.0" disk)); reflexivity|].
  split; [apply (path_guard_refuses 3 ctl19 (world "19.1.0" disk)); reflexivity|].
  destruct (path_guard_refuses 3 ctl19 (mkWorld disk "/" [] stray_engine []))
    as (_ & _ & _ & H4 & _).
  apply (H4 "db" "t" "/srv/elsewhere/db/t/" disk); reflexivity.
Defined.




Lemma snapshot_of_absent_directory_witness :
  let w := world "18.10.0" bare_disk in
  fst (_match_ch_version ctl18 "18.16.0" w) = Ok false
  /\ get_partitions ctl18 "db" "t" w = (Ok listed, snd (get_partitions ctl18 "db" "t" w))
  /\ fst (freeze_table ctl18 "db" "t" w) = Ok [].
Proof.
  cbn zeta.
  assert (H0 : get_partitions ctl18 "db" "t" (world "18.10.0" bare_disk)
               = (Ok listed, snd (get_partitions ctl18 "db" "t" (world "18.10.0" bare_disk))))
    by (apply run_eq; vm_compute; reflexivity).
  split; [reflexivity|]. split; [exact H0|].
  pose proof (fun w' => snapshot_of_absent_directory ctl18 "db" "t"
                          (world "18.10.0" bare_disk) false listed _ w' eq_refl H0) as HH.
  edestruct HH as [H _]; [|rewrite H; reflexivity].
  cbn [freeze_queries map listed p_name].
  absent_step (VStr "") ("5" +:+ newline) "db/t".
  absent_step (VStr "") ("5" +:+ newline) "db/t".
  reflexivity.
Defined.

(** C6, refuted as worded: with two attempts allowed, a removal that
    meets permission denied is made again after the pause and goes
    through; the error does not reach the caller. *)
Lemma permission_denied_is_retried :
  is_PermissionError (OSError EACCES) = true
  /\ fst (remove_freezed_part 2 ctl19 p1 (faulty_world [EACCES])) = Ok tt
  /\ trace (snd (remove_freezed_part 2 ctl19 p1 (faulty_world [EACCES])))
     = [EvRmtree p1_path (Raise (OSError EACCES)); EvSleep; EvRmtree p1_path (Ok tt)].
Proof. vm_compute. done. Qed.

Lemma teardown_retry_policy_witness :
  fst (remove_freezed_part 3 ctl19 p1 (faulty_world [EACCES; EBUSY])) = Ok tt
  /\ (exists r, trace (snd (remove_freezed_part 3 ctl19 p1 (faulty_world [EACCES; EBUSY]))) =
                 [EvRmtree p1_path (Raise (OSError EACCES)); EvSleep;
                  EvRmtree p1_path (Raise (OSError EBUSY)); EvSleep;
                  EvRmtree p1_path r])
  /\ fst (remove_freezed_part 3 ctl19 p1 (faulty_world [EACCES; EBUSY; EMFILE]))
     = Raise (OSError EMFILE).
Proof.
  assert (Hne : Forall (fun e => e <> ENOENT) [EACCES; EBUSY]) by (repeat constructor; discriminate).
  assert (He : EMFILE <> ENOENT) by discriminate.
  destruct (teardown_retry_policy 3 ctl19 p1 (faulty_world [EACCES; EBUSY])
              [EACCES; EBUSY] EMFILE [] eq_refl Hne He) as [Ha _].
  destruct (teardown_retry_policy 3 ctl19 p1 (faulty_world [EACCES; EBUSY; EMFILE])
              [EACCES; EBUSY] EMFILE [] eq_refl Hne He) as [_ Hb].
  destruct Ha as [Ha1 Ha2];
    [reflexivity | simpl; lia | right; exists 4096%Z, root_owner; vm_compute; reflexivity |].
  split; [exact Ha1|]. split; [exact Ha2|].
  rewrite Hb; [reflexivity | reflexivity | reflexivity].
Defined.

(** C7, refuted as worded: the path [shadow/increment.txt/x] lies strictly
    under the snapshot root, passes the guard and is absent from the disk
    ([os.path.exists] is false, the lookup fails), yet its removal is no
    success: it runs through the regular file [increment.txt], so [rmtree]
    raises [NotADirectoryError], which is not what the method catches; it
    is retried and then raised. *)
Lemma teardown_below_a_file_raises :
  lies_strictly_under "/" (_shadow_data_path ctl19) (path below_file) = true
  /\ PyStr.startswith (path below_file) (_shadow_data_path ctl19) = true
  /\ no_parent_steps (path below_file) = true
  /\ fst (Sys.exists_ (path below_file) (faulty_world [])) = Ok false
  /\ Sys.stat (faulty_world []) (path below_file) = Raise (OSError ENOTDIR)
  /\ fst (remove_freezed_part 2 ctl19 below_file (faulty_world [])) = Raise (OSError ENOTDIR)
  /\ trace (snd (remove_freezed_part 2 ctl19 below_file (faulty_world [])))
     = [EvRmtree (path below_file) (Raise (OSError ENOTDIR)); EvSleep;
        EvRmtree (path below_file) (Raise (OSError ENOTDIR))].
Proof. vm_compute. done. Qed.

Lemma teardown_of_absent_path_witness :
  let w := world "19.1.0" ∅ in
  rmtree_faults w = []
  /\ Sys.stat w (_shadow_data_path ctl19) = Raise (OSError ENOENT)
  /\ Sys.stat w (path p1) = Raise (OSError ENOENT)
  /\ remove_freezed_data 3 ctl19 w =
       (Ok tt, emit (EvRmtree (_shadow_data_path ctl19) (Raise (OSError ENOENT))) w)
  /\ remove_freezed_part 3 ctl19 p1 w =
       (Ok tt, emit (EvRmtree (path p1) (Raise (OSError ENOENT))) w)
  /\ fst (remove_freezed_part 3 ctl19 p1 (world "19.1.0" disk)) = Ok tt
  /\ fst (remove_freezed_part 3 ctl19 p1 (snd (remove_freezed_part 3 ctl19 p1 (world "19.1.0" disk))))
     = Ok tt.
Proof.
  cbn zeta.
  destruct (teardown_of_absent_path 3 ctl19 (world "19.1.0" ∅) eq_refl) as (H1 & H2 & _).
  destruct (teardown_of_absent_path 3 ctl19 (world "19.1.0" disk) eq_refl) as (_ & _ & H3 & _).
  assert (E : remove_freezed_part 3 ctl19 p1 (world "19.1.0" disk)
              = (Ok tt, snd (remove_freezed_part 3 ctl19 p1 (world "19.1.0" disk))))
    by (apply run_eq; vm_compute; reflexivity).
  split; [reflexivity|]. split; [reflexivity|]. split; [reflexivity|].
  split; [apply H1; reflexivity|].
  split; [apply (H2 p1); reflexivity|].
  split; [by rewrite E|].
  destruct (H3 p1 _ eq_refl eq_refl E) as [-> _]. reflexivity.
Defined.

Lemma artifact_checksum_of_manifest_only_witness :
  let w := world "19.1.0" disk in
  let w' := snd (_get_freezed_parts ctl19 "db" "t" w) in
  _get_freezed_parts ctl19 "db" "t" w = (Ok [p2; p1], w')
  /\ manifest_of w' (path p1) = manifest_of w' (path p2)
  /\ content_at w' (PosixPath.join (path p1) ["data.bin"])
     <> content_at w' (PosixPath.join (path p2) ["data.bin"])
  /\ checksum p1 = checksum p2
  /\ fst (_get_part_checksum (path p1) w') = Ok (checksum p1).
Proof.
  cbn zeta.
  assert (H : _get_freezed_parts ctl19 "db" "t" (world "19.1.0" disk)
              = (Ok [p2; p1], snd (_get_freezed_parts ctl19 "db" "t" (world "19.1.0" disk))))
    by (apply run_eq; vm_compute; reflexivity).
  assert (Hm : manifest_of (snd (_get_freezed_parts ctl19 "db" "t" (world "19.1.0" disk))) (path p1)
               = manifest_of (snd (_get_freezed_parts ctl19 "db" "t" (world "19.1.0" disk))) (path p2))
    by (vm_compute; reflexivity).
  split; [exact H|]. split; [exact Hm|]. split; [vm_compute; discriminate|].
  destruct (artifact_checksum_of_manifest_only _ _ _ _ _ _ _ _ _ _ _ _ p1 p2 H H)
    as (H1 & _ & H3 & _); [repeat constructor | repeat constructor | exact Hm |].
  split; [exact H1 | exact H3].
Defined.

(** C9, refuted as worded: [remove_freezed_data] removes the snapshot
    root, and [increment.txt] with it. *)
Lemma remove_freezed_data_removes_increment_file :
  content_at (faulty_world []) (increment_file ctl19) = Some ("5" +:+ newline)
  /\ fst (remove_freezed_data 3 ctl19 (faulty_world [])) = Ok tt
  /\ trace (snd (remove_freezed_data 3 ctl19 (faulty_world [])))
     = [EvRmtree "/var/lib/clickhouse/shadow" (Ok tt)]
  /\ Sys.stat (snd (remove_freezed_data 3 ctl19 (faulty_world []))) (increment_file ctl19)
     = Raise (OSError ENOENT).
Proof. vm_compute. done. Qed.

Lemma scenario_engine_quiet v : quiet (steady_engine v).
Proof. intros tr q f. by destruct q. Qed.

Lemma increment_file_untouched_witness :
  let w := world "19.1.0" disk in
  let busy := mkWorld disk "/" [] advancing_engine [] in
  Forall (fun ev => is_mutation ev = false)
    (new_events busy (snd (freeze_table ctl19 "db" "t" busy)))
  /\ Sys.stat (snd (remove_freezed_part 3 ctl19 p1 busy)) (increment_file ctl19)
     = Sys.stat busy (increment_file ctl19)
  /\ Sys.stat (snd (freeze_table ctl19 "db" "t" w)) (increment_file ctl19)
     = Sys.stat w (increment_file ctl19)
  /\ content_at (snd (chown_detached_table_parts ctl19 "db" "t" w)) (increment_file ctl19)
     = Some ("5" +:+ newline).
Proof.
  cbn zeta.
  destruct (increment_file_untouched 3 ctl19 (mkWorld disk "/" [] advancing_engine []))
    as (H1 & _ & H3 & _).
  destruct (increment_file_untouched 3 ctl19 (world "19.1.0" disk))
    as (_ & _ & _ & _ & H5 & _).
  destruct (H5 (scenario_engine_quiet "19.1.0") "db" "t" "p0") as (H6 & _ & H8).
  split; [apply H1|]. split; [apply (H3 p1); vm_compute; reflexivity|].
  split; [exact H6|]. rewrite H8. vm_compute. reflexivity.
Defined.

(** C10, refuted as worded: two partition freezes that resolve to the
    same generation make the per-partition path list every part twice. *)
Lemma compat_snapshot_repeats_paths :
  fst (freeze_table ctl18 "db" "t" (world "18.10.0" disk)) = Ok [p2; p1; p2; p1]
  /\ ~ NoDup (map path [p2; p1; p2; p1]).
Proof.
  split; [vm_compute; reflexivity|].
  intros H. apply NoDup_cons in H as [H _]. apply H. cbn [map path p1 p2].
  apply list_elem_of_further, list_elem_of_here.
Qed.

Lemma freeze_table_artifact_paths_witness :
  let w := mkWorld disk "/" [] advancing_engine [] in
  let w' := snd (freeze_table ctl18 "db" "t" w) in
  freeze_table ctl18 "db" "t" w = (Ok [p2; p1; p3], w')
  /\ enumerated_dirs (new_events w w')
     = ["/var/lib/clickhouse/shadow/5/data/db/t"; "/var/lib/clickhouse/shadow/6/data/db/t"]
  /\ NoDup (map path [p2; p1; p3]).
Proof.
  cbn zeta. set (w := mkWorld disk "/" [] advancing_engine []).
  assert (H : freeze_table ctl18 "db" "t" w
              = (Ok [p2; p1; p3], snd (freeze_table ctl18 "db" "t" w)))
    by (apply run_eq; vm_compute; reflexivity).
  assert (E : enumerated_dirs (new_events w (snd (freeze_table ctl18 "db" "t" w)))
              = ["/var/lib/clickhouse/shadow/5/data/db/t";
                 "/var/lib/clickhouse/shadow/6/data/db/t"])
    by (vm_compute; reflexivity).
  split; [exact H|]. split; [exact E|].
  destruct (freeze_table_artifact_paths _ _ _ _ _ _ H) as [H1 _]. apply H1.
  rewrite E. apply (bool_decide_unpack _). vm_compute. exact I.
Defined.

(** * The rest of the controller

    The listings and checks that go to the gateway, where the version comes
    from, where a snapshot is looked for, what the catalogue of a snapshot
    directory holds, and what a removal takes away. *)

(** ** Listings *)

Lemma getitem_field v key x w : field key v = Some x -> Py.getitem v key w = (Ok x, w).
Proof. destruct v; try discriminate. simpl. by intros ->. Qed.

Lemma all_some_cons {A} (o : option A) l r :
  Version.all_some (o :: l) = Some r ->
  exists x xs, o = Some x /\ Version.all_some l = Some xs /\ r = x :: xs.
Proof.
  simpl. destruct o as [x|]; [|discriminate].
  destruct (Version.all_some l) as [xs|]; [|discriminate].
  intros [= <-]. by exists x, xs.
Qed.

Lemma rows_fields key rows : forall names w,
  Version.all_some (map (field key) rows) = Some names ->
  mapM (fun row => Py.getitem row key) rows w = (Ok names, w).
Proof.
  induction rows as [|row rows IH]; intros names w H.
  - by inversion H.
  - apply all_some_cons in H as (x & xs & Hx & Hxs & ->).
    cbn [mapM]. rewrite (bind_ok _ _ _ _ _ (getitem_field _ _ _ w Hx)).
    by rewrite (bind_ok _ _ _ _ _ (IH _ w Hxs)).
Qed.

Lemma column_data key resp names :
  column key resp = Some names ->
  exists fields rows, resp = VDict fields /\ Py.assoc "data" fields = Some (VList rows)
                      /\ Version.all_some (map (field key) rows) = Some names.
Proof.
  unfold column, field. destruct resp as [| | |fields]; try discriminate.
  destruct (Py.assoc "data" fields) as [[| |rows|]|] eqn:E; try discriminate.
  intros H. by exists fields, rows.
Qed.

Lemma rows_excluded exclude rows : forall names w,
  Version.all_some (map (field "name") rows) = Some names ->
  get_all_databases_rows exclude rows w
  = (Ok (filter (fun v => Py.in_strs v exclude = false) names), w).
Proof.
  induction rows as [|row rows IH]; intros names w H.
  - by inversion H.
  - apply all_some_cons in H as (x & xs & Hx & Hxs & ->).
    cbn [get_all_databases_rows].
    rewrite (bind_ok _ _ _ _ _ (getitem_field _ _ _ w Hx)).
    rewrite filter_cons. destruct (Py.in_strs x exclude) eqn:E; cbn [negb].
    + rewrite decide_False by done. by apply IH.
    + rewrite decide_True by done.
      rewrite (bind_ok _ _ _ _ _ (getitem_field _ _ _ w Hx)).
      by rewrite (bind_ok _ _ _ _ _ (IH _ w Hxs)).
Qed.

Lemma excluded_or_empty (l : option (list string)) :
  match l with Some (x :: l) => x :: l | _ => [] end = excluded l.
Proof. by destruct l as [[|]|]. Qed.

(** X1: the three listings by name give the names of the rows of the
    response, in the order of the response: [get_all_db_tables] and
    [get_tables_ordered] all of them, [get_all_databases] those that are not
    among the excluded ones; leaving the optional argument out is the same
    as passing no name. *)
Theorem listings_follow_the_response self resp names :
  column "name" resp = Some names ->
  (forall exclude_dbs w w1,
     query SHOW_DATABASES_SQL w = (Ok resp, w1) ->
     get_all_databases self exclude_dbs w
     = (Ok (filter (fun v => Py.in_strs v (excluded exclude_dbs) = false) names), w1))
  /\ (forall db_name w w1,
        query (SHOW_TABLES_SQL db_name) w = (Ok resp, w1) ->
        get_all_db_tables self db_name w = (Py.HasAttr (Ok names), w1))
  /\ (forall db_name tables w w1,
        query (GET_TABLES_ORDERED_SQL db_name (excluded tables)) w = (Ok resp, w1) ->
        get_tables_ordered self db_name tables w = (Ok names, w1)).
Proof.
  intros (fields & rows & -> & D & R)%column_data. split; [|split].
  - intros exclude_dbs w w1 Hq. unfold get_all_databases.
    rewrite (bind_ok _ _ _ _ _ Hq). unfold Py.contains, Py.getitem, Py.iterate, bind, ret.
    rewrite D. rewrite bool_decide_eq_true_2 by eauto.
    replace (match exclude_dbs with Some (x :: l) => x :: l | _ => [] end)
      with (excluded exclude_dbs) by by destruct exclude_dbs as [[|]|].
    by apply rows_excluded.
  - intros db_name w w1 Hq. unfold get_all_db_tables. rewrite Hq.
    unfold Py.dict_get. rewrite D. unfold Py.iterate, bind, ret.
    by rewrite (rows_fields _ _ _ w1 R).
  - intros db_name tables w w1 Hq. unfold get_tables_ordered.
    replace (match tables with Some (x :: l) => x :: l | _ => [] end)
      with (excluded tables) by by destruct tables as [[|]|].
    rewrite (bind_ok _ _ _ _ _ Hq). unfold Py.contains, Py.getitem, Py.iterate, bind, ret.
    rewrite D. rewrite bool_decide_eq_true_2 by eauto.
    by apply rows_fields.
Qed.

Lemma listings_follow_the_response_witness :
  column "name" listing = Some [VStr "default"; VStr "db"; VStr "system"]
  /\ fst (get_all_databases ctl19 (Some ["system"]) catalog_world)
     = Ok [VStr "default"; VStr "db"]
  /\ fst (get_all_db_tables ctl19 "db" catalog_world)
     = Py.HasAttr (Ok [VStr "default"; VStr "db"; VStr "system"])
  /\ fst (get_tables_ordered ctl19 "db" None catalog_world)
     = Ok [VStr "default"; VStr "db"; VStr "system"].
Proof.
  assert (Hc : column "name" listing = Some [VStr "default"; VStr "db"; VStr "system"])
    by (vm_compute; reflexivity).
  destruct (listings_follow_the_response ctl19 listing _ Hc) as (H1 & H2 & H3).
  split; [exact Hc|]. split; [|split].
  - rewrite (H1 (Some ["system"]) catalog_world (snd (query SHOW_DATABASES_SQL catalog_world)));
      [vm_compute; reflexivity | apply run_eq; vm_compute; reflexivity].
  - rewrite (H2 "db" catalog_world (snd (query (SHOW_TABLES_SQL "db") catalog_world)));
      [reflexivity | apply run_eq; vm_compute; reflexivity].
  - rewrite (H3 "db" None catalog_world
               (snd (query (GET_TABLES_ORDERED_SQL "db" []) catalog_world)));
      [reflexivity | apply run_eq; vm_compute; reflexivity].
Defined.

Lemma rows_never_excluded exclude rows : forall w result w',
  get_all_databases_rows exclude rows w = (Ok result, w') ->
  Forall (fun v => Py.in_strs v exclude = false) result.
Proof.
  induction rows as [|row rows IH]; intros w result w' H; cbn [get_all_databases_rows] in H.
  - inversion H. constructor.
  - apply bind_inv in H as [(n & w1 & H1 & H) | (e & _ & ?)]; [|discriminate].
    destruct (Py.in_strs n exclude) eqn:E; cbn [negb] in H; [by eapply IH|].
    apply bind_inv in H as [(n' & w2 & H2 & H) | (e & _ & ?)]; [|discriminate].
    apply bind_inv in H as [(ns & w3 & H3 & H) | (e & _ & ?)]; [|discriminate].
    inversion H; subst. constructor; [|by eapply IH].
    assert (w1 = w /\ w2 = w1) as [-> ->].
    { unfold Py.getitem in H1, H2. destruct row; try (by inversion H1).
      destruct (Py.assoc "name" fields); inversion H1; inversion H2; by subst. }
    rewrite H1 in H2. by inversion H2; subst.
Qed.

Lemma in_strs_elem s l : s ∈ l -> Py.in_strs (VStr s) l = true.
Proof.
  intros H. unfold Py.in_strs. apply existsb_exists. exists s.
  split; [by apply list_elem_of_In|]. simpl. by apply bool_decide_eq_true_2.
Qed.

(** X2: whatever the gateway answers, a list that [get_all_databases]
    returns holds none of the excluded names. *)
Theorem excluded_databases_are_left_out self exclude_dbs w result w' s :
  get_all_databases self exclude_dbs w = (Ok result, w') ->
  s ∈ excluded exclude_dbs ->
  VStr s ∉ result.
Proof.
  unfold get_all_databases. rewrite excluded_or_empty. intros H Hs Hin.
  apply bind_inv in H as [(resp & w1 & _ & H) | (e & _ & ?)]; [|discriminate].
  apply bind_inv in H as [(has & w2 & _ & H) | (e & _ & ?)]; [|discriminate].
  destruct has.
  - apply bind_inv in H as [(data & w3 & _ & H) | (e & _ & ?)]; [|discriminate].
    apply bind_inv in H as [(rows & w4 & _ & H) | (e & _ & ?)]; [|discriminate].
    apply rows_never_excluded in H. rewrite Forall_forall in H.
    specialize (H _ Hin). by rewrite in_strs_elem in H.
  - inversion H; subst. by apply elem_of_nil in Hin.
Qed.

Lemma excluded_databases_are_left_out_witness :
  get_all_databases ctl19 (Some ["system"]) catalog_world
  = (Ok [VStr "default"; VStr "db"],
     snd (get_all_databases ctl19 (Some ["system"]) catalog_world))
  /\ "system" ∈ excluded (Some ["system"])
  /\ VStr "system" ∉ [VStr "default"; VStr "db"].
Proof.
  assert (H : get_all_databases ctl19 (Some ["system"]) catalog_world
              = (Ok [VStr "default"; VStr "db"],
                 snd (get_all_databases ctl19 (Some ["system"]) catalog_world)))
    by (apply run_eq; vm_compute; reflexivity).
  assert (Hin : "system" ∈ excluded (Some ["system"])) by apply list_elem_of_here.
  split; [exact H|]. split; [exact Hin|].
  exact (excluded_databases_are_left_out _ _ _ _ _ _ H Hin).
Defined.

(** X3: a response that is a dictionary without ['data'] is an empty
    listing for [get_all_databases], [get_all_db_tables] and
    [get_tables_ordered], and a [KeyError] for [get_partitions], which
    subscripts the response.  A response that is text is an empty list of
    databases unless the text has [data] in it, where the subscript fails
    with a [TypeError]; it is an [AttributeError] for [get_all_db_tables],
    which calls [get] on it, and a [TypeError] for [get_partitions]. *)
Theorem listings_of_other_responses self fields text :
  Py.assoc "data" fields = None ->
  (forall exclude_dbs w w1,
     query SHOW_DATABASES_SQL w = (Ok (VDict fields), w1) ->
     get_all_databases self exclude_dbs w = (Ok [], w1))
  /\ (forall db_name w w1,
        query (SHOW_TABLES_SQL db_name) w = (Ok (VDict fields), w1) ->
        get_all_db_tables self db_name w = (Py.HasAttr (Ok []), w1))
  /\ (forall db_name tables w w1,
        query (GET_TABLES_ORDERED_SQL db_name (excluded tables)) w = (Ok (VDict fields), w1) ->
        get_tables_ordered self db_name tables w = (Ok [], w1))
  /\ (forall database table w w1,
        query (GET_TABLE_PARTITIONS_SQL database table) w = (Ok (VDict fields), w1) ->
        get_partitions self database table w = (Raise (KeyError "data"), w1))
  /\ (forall exclude_dbs w w1,
        query SHOW_DATABASES_SQL w = (Ok (VStr text), w1) ->
        get_all_databases self exclude_dbs w
        = (if PyStr.contains_sub "data" text then Raise TypeError else Ok [], w1))
  /\ (forall db_name w w1,
        query (SHOW_TABLES_SQL db_name) w = (Ok (VStr text), w1) ->
        get_all_db_tables self db_name w = (Py.AttributeError, w1))
  /\ (forall database table w w1,
        query (GET_TABLE_PARTITIONS_SQL database table) w = (Ok (VStr text), w1) ->
        get_partitions self database table w = (Raise TypeError, w1)).
Proof.
  intros D. repeat split.
  - intros exclude_dbs w w1 Hq. unfold get_all_databases.
    rewrite (bind_ok _ _ _ _ _ Hq). unfold Py.contains, bind, ret. rewrite D.
    rewrite bool_decide_eq_false_2; [done | by intros []].
  - intros db_name w w1 Hq. unfold get_all_db_tables. rewrite Hq.
    unfold Py.dict_get. by rewrite D.
  - intros db_name tables w w1 Hq. unfold get_tables_ordered. rewrite excluded_or_empty.
    rewrite (bind_ok _ _ _ _ _ Hq). unfold Py.contains, bind, ret. rewrite D.
    rewrite bool_decide_eq_false_2; [done | by intros []].
  - intros database table w w1 Hq. unfold get_partitions.
    rewrite (bind_ok _ _ _ _ _ Hq). unfold Py.getitem, bind, raise. by rewrite D.
  - intros exclude_dbs w w1 Hq. unfold get_all_databases.
    rewrite (bind_ok _ _ _ _ _ Hq). unfold Py.contains, bind, ret.
    by destruct (PyStr.contains_sub "data" text).
  - intros db_name w w1 Hq. unfold get_all_db_tables. by rewrite Hq.
  - intros database table w w1 Hq. unfold get_partitions.
    by rewrite (bind_ok _ _ _ _ _ Hq).
Qed.

Lemma listings_of_other_responses_witness :
  Py.assoc "data" statistics = None
  /\ fst (get_all_databases ctl19 None bare_world) = Ok []
  /\ fst (get_all_db_tables ctl19 "db" bare_world) = Py.HasAttr (Ok [])
  /\ fst (get_partitions ctl19 "db" "t" bare_world) = Raise (KeyError "data")
  /\ fst (get_all_db_tables ctl19 "db" (world "19.1.0" disk)) = Py.AttributeError.
Proof.
  assert (Hd : Py.assoc "data" statistics = None) by reflexivity.
  destruct (listings_of_other_responses ctl19 statistics "" Hd)
    as (H1 & H2 & _ & H4 & _ & H6 & _).
  split; [exact Hd|]. split; [|split; [|split]].
  - by rewrite (H1 None bare_world (snd (query SHOW_DATABASES_SQL bare_world)) eq_refl).
  - by rewrite (H2 "db" bare_world (snd (query (SHOW_TABLES_SQL "db") bare_world)) eq_refl).
  - by rewrite (H4 "db" "t" bare_world
                  (snd (query (GET_TABLE_PARTITIONS_SQL "db" "t") bare_world)) eq_refl).
  - by rewrite (H6 "db" (world "19.1.0" disk)
                  (snd (query (SHOW_TABLES_SQL "db") (world "19.1.0" disk))) eq_refl).
Defined.

Lemma rows_partitions db t rows : forall vs w,
  Version.all_some (map (field "partition") rows) = Some vs ->
  mapM (fun item => let* p := Py.getitem item "partition" in ret (mkPartition db t p)) rows w
  = (Ok (map (mkPartition db t) vs), w).
Proof.
  induction rows as [|row rows IH]; intros vs w H.
  - by inversion H.
  - apply all_some_cons in H as (x & xs & Hx & Hxs & ->).
    cbn [mapM].
    assert (Hf : (let* p := Py.getitem row "partition" in ret (mkPartition db t p)) w
                 = (Ok (mkPartition db t x), w))
      by by rewrite (bind_ok _ _ _ _ _ (getitem_field _ _ _ w Hx)).
    rewrite (bind_ok _ _ _ _ _ Hf). by rewrite (bind_ok _ _ _ _ _ (IH _ w Hxs)).
Qed.

(** X4: [get_partitions] gives one partition per row of the response, in
    the order of the rows, each with the database and the table asked for
    and the row's ['partition'] as its name; and these are the partitions
    that a per-partition snapshot that goes through freezes, in that
    order.  For a table without partitions the per-partition snapshot is
    the empty list, with no call after the listing of the partitions. *)
Theorem partitions_follow_the_response self database table w resp w1 vs :
  query (GET_TABLE_PARTITIONS_SQL database table) w = (Ok resp, w1) ->
  column "partition" resp = Some vs ->
  get_partitions self database table w = (Ok (map (mkPartition database table) vs), w1)
  /\ (forall parts w',
        _freeze_table_compat self database table w = (Ok parts, w') ->
        omap freeze_command (new_events w1 w') = map (fun v => (database, table, v)) vs)
  /\ (vs = [] -> _freeze_table_compat self database table w = (Ok [], w1)).
Proof.
  intros Hq (fields & rows & -> & D & R)%column_data.
  assert (Hp : get_partitions self database table w
               = (Ok (map (mkPartition database table) vs), w1)).
  { unfold get_partitions. rewrite (bind_ok _ _ _ _ _ Hq).
    unfold Py.getitem, Py.iterate, bind at 1 2, ret at 1 2. rewrite D.
    by apply rows_partitions. }
  split; [done|]. split.
  - intros parts w' H. unfold _freeze_table_compat in H.
    rewrite (bind_ok _ _ _ _ _ Hp) in H.
    apply freeze_table_compat_loop_commands in H as (d & T & _ & Hc & _).
    rewrite (new_events_app _ _ _ T), (Hc eq_refl), map_map. done.
  - intros ->. unfold _freeze_table_compat. by rewrite (bind_ok _ _ _ _ _ Hp).
Qed.

Lemma partitions_follow_the_response_witness :
  column "partition" partitions = Some [VStr "202301"; VStr "202302"]
  /\ fst (get_partitions ctl18 "db" "t" (world "18.10.0" disk)) = Ok listed.
Proof.
  assert (Hc : column "partition" partitions = Some [VStr "202301"; VStr "202302"])
    by reflexivity.
  assert (Hq : query (GET_TABLE_PARTITIONS_SQL "db" "t") (world "18.10.0" disk)
               = (Ok partitions,
                  snd (query (GET_TABLE_PARTITIONS_SQL "db" "t") (world "18.10.0" disk))))
    by reflexivity.
  split; [exact Hc|].
  destruct (partitions_follow_the_response ctl18 "db" "t" _ _ _ _ Hq Hc) as [H _].
  by rewrite H.
Defined.

(** ** Whether a table exists *)

Lemma digits_go_int_digits s : forall acc n,
  PyStr.digits_go acc s = Some n -> PyStr.int_digits acc true s = Some n.
Proof.
  induction s as [|c s IH]; intros acc n; simpl; [done|].
  destruct (PyStr.is_digit c); [apply IH | discriminate].
Qed.

Lemma digits_int_digits d n : PyStr.digits d = Some n -> PyStr.int_digits 0 false d = Some n.
Proof.
  destruct d as [|c d]; [discriminate|]. unfold PyStr.digits. simpl.
  destruct (PyStr.is_digit c); [apply digits_go_int_digits | discriminate].
Qed.

Lemma is_digit_not_space c : PyStr.is_digit c = true -> PyStr.is_c_space c = false.
Proof.
  unfold PyStr.is_digit, PyStr.is_c_space. cbv zeta.
  set (n := Z.of_nat (nat_of_ascii c)). lia.
Qed.

Lemma is_digit_not_sign c : PyStr.is_digit c = true -> c <> "+"%char /\ c <> "-"%char.
Proof. split; intros ->; discriminate. Qed.

Lemma rev_app_rev_app s : forall a b,
  String.rev_app (String.rev_app s a) b = String.rev_app a (s +:+ b).
Proof.
  induction s as [|c s IH]; intros a b; simpl; [done|].
  by rewrite IH.
Qed.

Lemma rev_app_append s : forall t acc,
  String.rev_app (s +:+ t) acc = String.rev_app t (String.rev_app s acc).
Proof. induction s as [|c s IH]; intros t acc; [done|]. rewrite str_app_cons. simpl. apply IH. Qed.

Lemma skip_c_space_rev_digits s : forall acc,
  s <> "" ->
  forallb PyStr.is_digit (list_ascii_of_string s) = true ->
  PyStr.skip_c_space (String.rev_app s acc) = String.rev_app s acc.
Proof.
  induction s as [|c s IH]; intros acc Hne H; [done|].
  simpl in H. apply andb_prop in H as [Hc Hs]. simpl.
  destruct s as [|c' s'].
  - simpl. by rewrite (is_digit_not_space _ Hc).
  - by apply IH.
Qed.

Lemma to_int_digits d n ending :
  PyStr.digits d = Some n -> ending = "" \/ ending = newline ->
  PyStr.to_int (d +:+ ending) = Some n.
Proof.
  intros Hd He. pose proof (digits_int_digits _ _ Hd) as Hi.
  assert (Hne : d <> "") by (by destruct d).
  assert (Hall : forallb PyStr.is_digit (list_ascii_of_string d) = true).
  { destruct d; [done|]. unfold PyStr.digits in Hd. by eapply digits_go_all. }
  assert (H1 : PyStr.skip_c_space (d +:+ ending) = d +:+ ending).
  { destruct d as [|c d]; [done|]. rewrite str_app_cons. simpl. simpl in Hall.
    apply andb_prop in Hall as [Hc _]. by rewrite (is_digit_not_space _ Hc). }
  assert (H2 : PyStr.skip_c_space (String.rev (d +:+ ending)) = String.rev d).
  { unfold String.rev. rewrite rev_app_append.
    destruct He as [-> | ->]; simpl; by apply skip_c_space_rev_digits. }
  unfold PyStr.to_int. rewrite H1, H2. unfold String.rev.
  rewrite rev_app_rev_app. simpl. unfold String.app. rewrite str_app_nil_r.
  destruct d as [|c d]; [done|]. simpl in Hall. apply andb_prop in Hall as [Hc _].
  destruct (is_digit_not_sign _ Hc) as [Hp Hm].
  destruct (decide (c = "+"%char)); [done|]. destruct (decide (c = "-"%char)); [done|].
  revert Hi. clear -n0 n1. 
  destruct c as [[] [] [] [] [] [] [] []]; try done.
Qed.

(** X5: [does_table_exist] is true exactly when the count that the gateway
    reports, a line of digits with or without its newline, is above zero;
    on an empty response it raises [ValueError].  The digits are at most
    4300, the length up to which every interpreter converts a string. *)
Theorem table_exists_when_the_count_is_positive self db t w d ending n w1 :
  PyStr.digits d = Some n ->
  String.length d <= 4300 ->
  ending = "" \/ ending = newline ->
  query (CHECK_TABLE_SQL db t) w = (Ok (VStr (d +:+ ending)), w1) ->
  does_table_exist self db t w = (Ok (0 <? n)%Z, w1)
  /\ forall w0 w2,
       query (CHECK_TABLE_SQL db t) w0 = (Ok (VStr ""), w2) ->
       does_table_exist self db t w0 = (Raise ValueError, w2).
Proof.
  intros Hd _ He Hq. split.
  - unfold does_table_exist. rewrite (bind_ok _ _ _ _ _ Hq).
    unfold Py.to_int. rewrite (to_int_digits _ _ _ Hd He). unfold bind, ret.
    pose proof (digits_nonneg _ _ Hd). do 2 f_equal.
    destruct (Z.eqb_spec n 0), (Z.ltb_spec 0 n); simpl; try done; lia.
  - intros w0 w2 Hq0. unfold does_table_exist. by rewrite (bind_ok _ _ _ _ _ Hq0).
Qed.

Lemma table_exists_when_the_count_is_positive_witness :
  PyStr.digits "1" = Some 1%Z
  /\ fst (does_table_exist ctl19 "db" "t" catalog_world) = Ok true
  /\ fst (does_table_exist ctl19 "db" "u" catalog_world) = Ok false.
Proof.
  split; [reflexivity|]. split.
  - destruct (table_exists_when_the_count_is_positive ctl19 "db" "t" catalog_world
                "1" newline 1 (snd (query (CHECK_TABLE_SQL "db" "t") catalog_world)))
      as [H _];
      [reflexivity | cbn [String.length]; lia | by right
      | apply run_eq; vm_compute; reflexivity |].
    by rewrite H.
  - destruct (table_exists_when_the_count_is_positive ctl19 "db" "u" catalog_world
                "0" newline 0 (snd (query (CHECK_TABLE_SQL "db" "u") catalog_world)))
      as [H _];
      [reflexivity | cbn [String.length]; lia | by right
      | apply run_eq; vm_compute; reflexivity |].
    by rewrite H.
Defined.

(** ** The version *)

Lemma emits_leaves_version_alone {A} (m : M A) : emits other_call m -> leaves_version_alone m.
Proof.
  intros Hm w. destruct (m w) as [r w'] eqn:E. destruct (Hm _ _ _ E) as (d & T & F & _).
  cbn [snd]. rewrite (new_events_app _ _ _ T).
  eapply Forall_impl; [exact F|]. intros ev. unfold other_call. by destruct (is_version_query ev).
Qed.

Lemma is_enum_other ev : is_enum ev = true -> other_call ev = true.
Proof. by destruct ev as [[] ?| | | | | | | |]. Qed.

Lemma emits_other_get_freezed_parts self db t : emits other_call (_get_freezed_parts self db t).
Proof. eapply emits_weaken; [apply is_enum_other | apply emits_get_freezed_parts]. Qed.

Lemma emits_other_compat_loop self db t ps : forall acc,
  emits other_call (_freeze_table_compat_loop self db t ps acc).
Proof.
  induction ps as [|p ps IH]; intros acc; simpl.
  - apply emits_ret.
  - apply emits_bind; [apply emits_query; intros; reflexivity | intros _].
    apply emits_bind; [apply emits_other_get_freezed_parts | intros parts; apply IH].
Qed.

Lemma emits_other_get_partitions self db t : emits other_call (get_partitions self db t).
Proof. unfold get_partitions. emits_auto. Qed.

Lemma emits_other_freeze_table self db t : emits other_call (freeze_table self db t).
Proof.
  unfold freeze_table. apply emits_bind; [apply emits_match_ch_version | intros whole].
  destruct whole.
  - unfold _freeze_table. apply emits_bind; [apply emits_query; intros; reflexivity | intros _].
    apply emits_other_get_freezed_parts.
  - unfold _freeze_table_compat.
    apply emits_bind; [apply emits_other_get_partitions | intros ps].
    apply emits_other_compat_loop.
Qed.

Lemma emits_other_remove_shadow_data max_attempts self target :
  emits other_call (_remove_shadow_data max_attempts self target).
Proof.
  unfold _remove_shadow_data, retry. apply emits_retry_go; [done|]. emits_auto.
Qed.

Lemma emits_other_detached_path self db t : emits other_call (_get_table_detached_path self db t).
Proof. unfold _get_table_detached_path, _get_table_data_path. emits_auto. Qed.

Lemma emits_contains P key v : emits P (Py.contains key v).
Proof. destruct v; first [apply emits_ret | apply emits_raise]. Qed.

Lemma emits_to_int P v : emits P (Py.to_int v).
Proof.
  destruct v; simpl; try first [apply emits_ret | apply emits_raise].
  destruct (PyStr.to_int s); first [apply emits_ret | apply emits_raise].
Qed.

Lemma emits_get_all_databases_rows P exclude rows : emits P (get_all_databases_rows exclude rows).
Proof.
  induction rows as [|row rows IH]; simpl; [apply emits_ret|].
  apply emits_bind; [apply emits_getitem | intros n].
  destruct (negb _); [|exact IH].
  apply emits_bind; [apply emits_getitem | intros n'].
  apply emits_bind; [exact IH | intros; apply emits_ret].
Qed.

(** X6: the version is asked for once.  With a data path in the
    configuration, [__init__] sends the version query and nothing else (the
    constructor of the client, which is not among the sources, is taken to
    send nothing), and
    the controller it returns carries the answer, the data directory and the
    shadow directory under the root; a failure of the query is the failure
    of the construction.  No method sends the query again, and
    [get_version] is the answer that was stored. *)
Theorem version_is_asked_once max_attempts config root w :
  config !! "data_path" = Some root ->
  (exists r,
     new_events w (snd (__init__ config w)) = [EvQuery GET_VERSION_SQL r]
     /\ fst (__init__ config w)
        = match r with
          | Ok v => Ok (mkClickhouseCTL config (PosixPath.join root ["data"])
                          (PosixPath.join root ["shadow"]) v)
          | Raise e => Raise e
          end)
  /\ forall self db t part_name part exclude_dbs tables,
       get_version self = _ch_version self
       /\ leaves_version_alone (freeze_table self db t)
       /\ leaves_version_alone (attach_part self db t part_name)
       /\ leaves_version_alone (chown_detached_table_parts self db t)
       /\ leaves_version_alone (remove_freezed_data max_attempts self)
       /\ leaves_version_alone (remove_freezed_part max_attempts self part)
       /\ leaves_version_alone (get_partitions self db t)
       /\ leaves_version_alone (get_database_schema self db)
       /\ leaves_version_alone (get_table_schema self db t)
       /\ leaves_version_alone (get_detached_part_path self db t part_name)
       /\ leaves_version_alone (get_all_databases self exclude_dbs)
       /\ leaves_version_alone (get_tables_ordered self db tables)
       /\ leaves_version_alone (does_table_exist self db t).
Proof.
  intros Hc. split.
  - unfold __init__, config_get. rewrite Hc. unfold bind, ret. rewrite query_run. set (r := fst (engine w (trace w) GET_VERSION_SQL (fs w))).
    clearbody r. exists r. destruct r; cbn [fst snd]; (split; [|done]); by apply new_events_app.
  - intros self db t part_name part exclude_dbs tables. split; [done|].
    repeat split; apply emits_leaves_version_alone.
    + apply emits_other_freeze_table.
    + unfold attach_part. emits_auto.
    + unfold chown_detached_table_parts, _chown_dir.
      apply emits_bind; [apply emits_other_detached_path | intros p]. emits_auto.
    + apply emits_other_remove_shadow_data.
    + apply emits_other_remove_shadow_data.
    + apply emits_other_get_partitions.
    + unfold get_database_schema. emits_auto.
    + unfold get_table_schema. emits_auto.
    + unfold get_detached_part_path.
      apply emits_bind; [apply emits_other_detached_path | intros p; apply emits_ret].
    + unfold get_all_databases.
      apply emits_bind; [apply emits_query; intros; reflexivity | intros resp].
      apply emits_bind; [apply emits_contains | intros has]. destruct has; [|apply emits_ret].
      apply emits_bind; [apply emits_getitem | intros data].
      apply emits_bind; [apply emits_iterate | intros rows].
      apply emits_get_all_databases_rows.
    + unfold get_tables_ordered.
      apply emits_bind; [apply emits_query; intros; reflexivity | intros resp].
      apply emits_bind; [apply emits_contains | intros has]. destruct has; [|apply emits_ret].
      emits_auto.
    + unfold does_table_exist.
      apply emits_bind; [apply emits_query; intros; reflexivity | intros resp].
      apply emits_bind; [apply emits_to_int | intros; apply emits_ret].
Qed.

Lemma version_is_asked_once_witness :
  config !! "data_path" = Some "/var/lib/clickhouse"
  /\ fst (__init__ config (world "19.1.0" disk)) = Ok ctl19
  /\ leaves_version_alone (freeze_table ctl19 "db" "t")
  /\ leaves_version_alone (remove_freezed_part 3 ctl19 p1).
Proof.
  assert (Hc : config !! "data_path" = Some "/var/lib/clickhouse")
    by (vm_compute; reflexivity).
  destruct (version_is_asked_once 3 config _ (world "19.1.0" disk) Hc) as [_ H].
  destruct (H ctl19 "db" "t" "p1" p1 None None) as (_ & H1 & _ & _ & _ & H5 & _).
  split; [exact Hc|]. split; [vm_compute; reflexivity|]. by split.
Defined.

(** ** Relative paths *)

Lemma startswith_cons c t : PyStr.startswith (String c t) "/" = bool_decide (c = "/"%char).
Proof.
  unfold PyStr.startswith. cbn [String.prefix].
  destruct (ascii_dec "/" c) as [<-|Hn].
  - rewrite bool_decide_eq_true_2 by done. by destruct t.
  - rewrite bool_decide_eq_false_2; [done | by intros ->].
Qed.

Lemma sep_free_rev_app cur : forall t,
  sep_free cur -> sep_free t -> sep_free (String.rev_app cur t).
Proof.
  unfold sep_free. induction cur as [|c cur IH]; intros t Hc Ht; [done|].
  cbn [list_ascii_of_string forallb] in Hc. apply andb_prop in Hc as [Hc1 Hc2].
  cbn [String.rev_app]. apply IH; [done|].
  cbn [list_ascii_of_string forallb]. by rewrite Hc1, Ht.
Qed.

Lemma split_go_all_sep_free s : forall cur,
  sep_free cur -> Forall sep_free (PyStr.split_go PosixPath.sep cur s).
Proof.
  induction s as [|c s IH]; intros cur Hc; cbn [PyStr.split_go].
  - constructor; [|constructor]. by apply sep_free_rev_app.
  - destruct (bool_decide (c = PosixPath.sep)) eqn:E.
    + constructor; [by apply sep_free_rev_app | by apply IH].
    + apply IH. unfold sep_free in *. cbn [list_ascii_of_string forallb]. by rewrite E, Hc.
Qed.

Lemma split_all_sep_free s : Forall sep_free (PyStr.split PosixPath.sep s).
Proof. by apply split_go_all_sep_free. Qed.

Lemma valid_name_parts n :
  Sys.valid_name n = true <-> n <> "" /\ n <> "." /\ n <> ".." /\ sep_free n.
Proof.
  unfold Sys.valid_name, sep_free. rewrite !andb_true_iff, !negb_true_iff, !bool_decide_eq_false.
  tauto.
Qed.

Lemma norm_step_true_valid acc comp :
  Forall (fun n => Sys.valid_name n = true) acc -> sep_free comp ->
  Forall (fun n => Sys.valid_name n = true) (PosixPath.norm_step true acc comp).
Proof.
  intros Ha Hc. unfold PosixPath.norm_step.
  destruct (bool_decide (comp = "")) eqn:E1; [done|].
  destruct (bool_decide (comp = ".")) eqn:E2; [done|]. cbn [orb negb andb].
  apply bool_decide_eq_false in E1, E2.
  destruct (bool_decide (comp = "..")) eqn:E3; cbn [negb orb].
  - destruct acc as [|c acc]; [done|]. apply Forall_cons in Ha as [Hv Ha].
    apply valid_name_parts in Hv as (_ & _ & Hv & _).
    rewrite bool_decide_eq_false_2 by done. done.
  - apply bool_decide_eq_false in E3. constructor; [|done]. by apply valid_name_parts.
Qed.

Lemma fold_norm_step_valid comps : forall acc,
  Forall (fun n => Sys.valid_name n = true) acc -> Forall sep_free comps ->
  Forall (fun n => Sys.valid_name n = true) (fold_left (PosixPath.norm_step true) comps acc).
Proof.
  induction comps as [|c comps IH]; intros acc Ha Hc; [done|].
  apply Forall_cons in Hc as [Hc1 Hc2]. cbn [fold_left].
  apply IH; [by apply norm_step_true_valid | done].
Qed.

Lemma norm_comps_valid X : Forall (fun n => Sys.valid_name n = true) (PosixPath.norm_comps true X).
Proof.
  unfold PosixPath.norm_comps. apply Forall_forall. intros x Hx.
  apply list_elem_of_In, in_rev, list_elem_of_In in Hx.
  pose proof (fold_norm_step_valid (PyStr.split PosixPath.sep X) [] (List.Forall_nil _)
                (split_all_sep_free X)) as F.
  rewrite Forall_forall in F. by apply F.
Qed.

Lemma split_join_with comps :
  comps <> [] -> Forall sep_free comps ->
  PyStr.split PosixPath.sep (PyStr.join_with "/" comps) = comps.
Proof.
  induction comps as [|p comps IH]; intros Hne Hs; [done|].
  apply Forall_cons in Hs as [Hp Hs]. destruct comps as [|q comps].
  - cbn [PyStr.join_with]. unfold PyStr.split. by rewrite split_go_sep_free.
  - change (PyStr.join_with "/" (p :: q :: comps))
      with (p +:+ String PosixPath.sep (PyStr.join_with "/" (q :: comps))).
    unfold PyStr.split. rewrite split_go_app. rewrite split_go_sep_free by done.
    fold (PyStr.split PosixPath.sep (PyStr.join_with "/" (q :: comps))).
    rewrite IH by done. done.
Qed.

Lemma filter_nonempty_valid (l : list string) :
  Forall (fun n => Sys.valid_name n = true) l -> filter (fun x => x <> "") l = l.
Proof.
  induction 1 as [|x l Hx _ IH]; [done|].
  rewrite filter_cons. apply valid_name_parts in Hx as (Hx & _).
  rewrite decide_True by done. by rewrite IH.
Qed.

Lemma nonempty_comps_slash body :
  PosixPath.nonempty_comps (String "/" body) = PosixPath.nonempty_comps body.
Proof.
  unfold PosixPath.nonempty_comps, PyStr.split. cbn [PyStr.split_go].
  rewrite bool_decide_eq_true_2 by done. rewrite filter_cons.
  by rewrite decide_False by (intros H; by apply H).
Qed.

Lemma nonempty_comps_joined comps :
  Forall (fun n => Sys.valid_name n = true) comps ->
  PosixPath.nonempty_comps (PyStr.join_with "/" comps) = comps.
Proof.
  intros Hv. destruct comps as [|p comps]; [done|].
  unfold PosixPath.nonempty_comps. rewrite split_join_with.
  - by apply filter_nonempty_valid.
  - done.
  - eapply Forall_impl; [exact Hv|]. intros n Hn. by apply valid_name_parts in Hn as (_ & _ & _ & ?).
Qed.

Lemma nonempty_comps_normpath X :
  PosixPath.isabs X = true ->
  PosixPath.nonempty_comps (PosixPath.normpath X) = PosixPath.norm_comps true X.
Proof.
  intros Ha. unfold PosixPath.normpath. unfold PosixPath.isabs in Ha.
  rewrite bool_decide_eq_false_2 by (intros ->; discriminate). rewrite Ha.
  pose proof (norm_comps_valid X) as Hv.
  destruct (PyStr.startswith X "//" && negb (PyStr.startswith X "///")); cbn [negb bool_decide].
  - change (bool_decide (2%nat = 0%nat)) with false. cbn [negb].
    set (body := PyStr.join_with "/" (PosixPath.norm_comps true X)).
    change ("//" +:+ body) with (String "/" (String "/" body)).
    rewrite bool_decide_eq_false_2 by done.
    rewrite !nonempty_comps_slash. by apply nonempty_comps_joined.
  - change (bool_decide (1%nat = 0%nat)) with false. cbn [negb].
    set (body := PyStr.join_with "/" (PosixPath.norm_comps true X)).
    change ("/" +:+ body) with (String "/" body).
    rewrite bool_decide_eq_false_2 by done.
    rewrite nonempty_comps_slash. by apply nonempty_comps_joined.
Qed.

Lemma absolute_from_cwd cwd p :
  PosixPath.isabs cwd = true ->
  PosixPath.isabs (if PosixPath.isabs p then p else PosixPath.join cwd [p]) = true.
Proof.
  intros Hc. destruct (PosixPath.isabs p) eqn:Hp; [done|].
  unfold PosixPath.join. cbn [fold_left]. unfold PosixPath.join2, PosixPath.isabs in *.
  rewrite Hp. assert (cwd <> "") by (intros ->; discriminate).
  destruct (_ || _); by rewrite startswith_app.
Qed.

Lemma abspath_comps p w :
  PosixPath.isabs (cwd w) = true ->
  exists a w', Sys.os_path_abspath p w = (Ok a, w') /\ cwd w' = cwd w
               /\ PosixPath.nonempty_comps a = Sys.resolve (cwd w) p.
Proof.
  intros Hc. unfold Sys.os_path_abspath, Sys.resolve.
  pose proof (absolute_from_cwd (cwd w) p Hc) as Ha.
  destruct (PosixPath.isabs p) eqn:Hp.
  - exists (PosixPath.normpath p), w. split; [done|]. split; [done|].
    by apply nonempty_comps_normpath.
  - exists (PosixPath.normpath (PosixPath.join (cwd w) [p])), (emit EvGetcwd w).
    split; [done|]. split; [done|]. by apply nonempty_comps_normpath.
Qed.

Lemma commonprefix_app (S C : list string) : PosixPath.commonprefix S (S ++ C) = S.
Proof.
  induction S as [|x S IH]; [by destruct C|].
  cbn [PosixPath.commonprefix app]. rewrite bool_decide_eq_true_2 by done. by rewrite IH.
Qed.

Lemma relpath_below p start w a rest :
  PosixPath.isabs (cwd w) = true -> p <> "" ->
  Sys.resolve (cwd w) p = Sys.resolve (cwd w) start ++ a :: rest ->
  exists w', Sys.os_path_relpath p start w = (Ok (PosixPath.join a rest), w')
             /\ cwd w' = cwd w.
Proof.
  intros Hc Hp Hr. unfold Sys.os_path_relpath. rewrite bool_decide_eq_false_2 by done.
  destruct (abspath_comps start w Hc) as (a1 & w1 & H1 & C1 & E1).
  rewrite (bind_ok _ _ _ _ _ H1).
  assert (Hc1 : PosixPath.isabs (cwd w1) = true) by by rewrite C1.
  destruct (abspath_comps p w1 Hc1) as (a2 & w2 & H2 & C2 & E2).
  rewrite (bind_ok _ _ _ _ _ H2).
  rewrite E1, E2, C1, Hr. rewrite commonprefix_app.
  rewrite Nat.sub_diag. cbn [repeat app]. rewrite drop_app_length.
  exists w2. split; [done | congruence].
Qed.

Lemma last_char_sep_free x c : sep_free x -> PyStr.last_char x = Some c -> c <> PosixPath.sep.
Proof.
  unfold sep_free. induction x as [|d x IH]; [done|].
  cbn [list_ascii_of_string forallb]. intros [Hd Hx]%andb_prop.
  destruct x as [|d' x'].
  - simpl. intros [= <-]. by apply negb_true_iff, bool_decide_eq_false in Hd.
  - intros H. by apply IH.
Qed.

Lemma sep_free_relative x : sep_free x -> x <> "" -> relative_piece x.
Proof.
  intros Hs Hne. split; [done|]. split.
  - destruct x as [|c x]; [done|].
    unfold PosixPath.isabs. rewrite startswith_cons.
    unfold sep_free in Hs. cbn [list_ascii_of_string forallb] in Hs.
    apply andb_prop in Hs as [Hs _]. unfold PosixPath.sep in Hs.
    by destruct (bool_decide (c = "/"%char)).
  - unfold PyStr.endswith_char. destruct (PyStr.last_char x) as [c|] eqn:E; [|done].
    apply bool_decide_eq_false. by eapply last_char_sep_free.
Qed.

Lemma valid_name_relative n : Sys.valid_name n = true -> relative_piece n.
Proof. intros (H1 & _ & _ & H2)%valid_name_parts. by apply sep_free_relative. Qed.

Lemma join2_pieces a b :
  a <> "" -> PyStr.endswith_char a PosixPath.sep = false -> PosixPath.isabs b = false ->
  PosixPath.join2 a b = a +:+ "/" +:+ b.
Proof.
  intros Ha He Hb. unfold PosixPath.join2. unfold PosixPath.isabs in Hb. rewrite Hb, He.
  by rewrite bool_decide_eq_false_2.
Qed.

Lemma join2_relative a b : relative_piece a -> relative_piece b -> relative_piece (PosixPath.join2 a b).
Proof.
  intros (Ha1 & Ha2 & Ha3) (Hb1 & Hb2 & Hb3). rewrite join2_pieces by done.
  split; [by intros [? _]%app_eq_nil_str|]. split.
  - unfold PosixPath.isabs. by rewrite startswith_app.
  - change (a +:+ "/" +:+ b) with (a +:+ ("/" +:+ b)). rewrite <- str_app_assoc.
    by rewrite endswith_char_app.
Qed.

Lemma fold_join2_prefixed rest : forall pre b,
  relative_piece b -> Forall relative_piece rest ->
  fold_left PosixPath.join2 rest (pre +:+ b) = pre +:+ fold_left PosixPath.join2 rest b.
Proof.
  induction rest as [|c rest IH]; intros pre b Hb Hr; [done|].
  apply Forall_cons in Hr as [Hc Hr]. cbn [fold_left].
  destruct Hb as (Hb1 & Hb2 & Hb3). destruct Hc as (Hc1 & Hc2 & Hc3).
  rewrite (join2_pieces (pre +:+ b) c); [| by intros [_ ?]%app_eq_nil_str
                                        | by rewrite endswith_char_app | done].
  rewrite (join2_pieces b c) by done.
  rewrite str_app_assoc. apply IH; [|done].
  rewrite <- (join2_pieces b c) by done. by apply join2_relative.
Qed.

Lemma join_is_join_with rest : forall a,
  Forall relative_piece (a :: rest) ->
  PosixPath.join a rest = PyStr.join_with "/" (a :: rest).
Proof.
  induction rest as [|b rest IH]; intros a Hr; [done|].
  apply Forall_cons in Hr as [Ha Hr]. pose proof Hr as Hr'. apply Forall_cons in Hr' as [Hb Hr'].
  unfold PosixPath.join in *. cbn [fold_left].
  destruct Ha as (Ha1 & Ha2 & Ha3). destruct Hb as (Hb1 & Hb2 & Hb3).
  rewrite join2_pieces by done.
  change (a +:+ "/" +:+ b) with (a +:+ ("/" +:+ b)). rewrite <- str_app_assoc.
  rewrite fold_join2_prefixed by done. rewrite IH by done.
  by rewrite str_app_assoc.
Qed.

Lemma join2_join X a rest :
  Forall relative_piece (a :: rest) ->
  PosixPath.join2 X (PosixPath.join a rest) = PosixPath.join X (a :: rest).
Proof.
  intros Hr. pose proof Hr as Hr'. apply Forall_cons in Hr' as [Ha Hr'].
  assert (Hj : relative_piece (PosixPath.join a rest)).
  { clear Hr. revert a Ha. induction rest as [|b rest IH]; intros a Ha; [done|].
    apply Forall_cons in Hr' as [Hb Hr']. unfold PosixPath.join. cbn [fold_left].
    apply IH; [done | by apply join2_relative]. }
  unfold PosixPath.join at 2. cbn [fold_left]. unfold PosixPath.join2 at 1 3.
  destruct Hj as (_ & Hj & _). pose proof Ha as (Ha1 & Ha2 & Ha3).
  unfold PosixPath.isabs in Hj, Ha2. rewrite Hj, Ha2.
  destruct (_ || _).
  - by rewrite fold_join2_prefixed.
  - change (X +:+ "/" +:+ a) with (X +:+ ("/" +:+ a)). rewrite <- (str_app_assoc X "/" a).
    rewrite fold_join2_prefixed by done. by rewrite str_app_assoc.
Qed.

Lemma resolve_join_entries cwd names : forall X,
  Forall (fun n => Sys.valid_name n = true) names ->
  Sys.resolve cwd (PosixPath.join X names) = Sys.resolve cwd X ++ names.
Proof.
  induction names as [|n names IH]; intros X Hv.
  - by rewrite app_nil_r.
  - apply Forall_cons in Hv as [Hn Hv]. unfold PosixPath.join. cbn [fold_left].
    fold (PosixPath.join (PosixPath.join2 X n) names). rewrite IH by done.
    change (PosixPath.join2 X n) with (PosixPath.join X [n]).
    rewrite resolve_join_entry by done. by rewrite <- app_assoc.
Qed.

Lemma nonempty_comps_relative p : Forall relative_piece (PosixPath.nonempty_comps p).
Proof.
  unfold PosixPath.nonempty_comps. apply Forall_forall. intros x Hx.
  apply list_elem_of_filter in Hx as [Hne Hx].
  pose proof (split_all_sep_free p) as F. rewrite Forall_forall in F.
  apply sep_free_relative; [by apply F | done].
Qed.

Lemma join_relative rest : forall a,
  relative_piece a -> Forall relative_piece rest -> relative_piece (PosixPath.join a rest).
Proof.
  induction rest as [|b rest IH]; intros a Ha Hr; [done|].
  apply Forall_cons in Hr as [Hb Hr]. unfold PosixPath.join. cbn [fold_left].
  apply IH; [by apply join2_relative | done].
Qed.

Lemma relpath_relative p start w rel w' :
  Sys.os_path_relpath p start w = (Ok rel, w') -> PosixPath.isabs rel = false.
Proof.
  unfold Sys.os_path_relpath. destruct (bool_decide (p = "")); [discriminate|]. intros H.
  apply bind_inv in H as [(a1 & w1 & _ & H) | (e & _ & ?)]; [|discriminate].
  apply bind_inv in H as [(a2 & w2 & _ & H) | (e & _ & ?)]; [|discriminate].
  set (sl := PosixPath.nonempty_comps a1) in *. set (pl := PosixPath.nonempty_comps a2) in *.
  set (i := length (PosixPath.commonprefix sl pl)) in *.
  assert (F : Forall relative_piece (repeat ".." (length sl - i) ++ drop i pl)).
  { apply Forall_app. split.
    - apply Forall_forall. intros x Hx%list_elem_of_In%repeat_spec. subst x. by repeat split.
    - apply Forall_drop. apply nonempty_comps_relative. }
  destruct (repeat ".." (length sl - i) ++ drop i pl) as [|a rest].
  - by inversion H.
  - inversion H; subst. apply Forall_cons in F as [Fa Fr].
    by destruct (join_relative rest a Fa Fr) as (_ & ? & _).
Qed.

Lemma get_table_data_relpath_relative self db t w rel w' :
  _get_table_data_relpath self db t w = (Ok rel, w') -> PosixPath.isabs rel = false.
Proof.
  unfold _get_table_data_relpath. intros H.
  apply bind_inv in H as [(p & w1 & _ & H) | (e & _ & ?)]; [|discriminate].
  destruct (negb (Py.truthy p)); [discriminate|].
  apply bind_inv in H as [(p' & w2 & _ & H) | (e & _ & ?)]; [|discriminate].
  by eapply relpath_relative.
Qed.

(** ** Where a snapshot is looked for *)

Lemma get_freezed_parts_after self db t w c w1 rel w2 :
  Sys.read (increment_file self) w = (Ok c, w1) ->
  _get_table_data_relpath self db t w1 = (Ok rel, w2) ->
  _get_freezed_parts self db t w =
    (let path := snapshot_dir self (PyStr.strip c) rel in
     let* found := Sys.exists_ path in
     if negb found then ret []
     else let* parts := Sys.listdir path in mapM (freezed_part_of db t path) parts) w2.
Proof.
  intros H1 H2. unfold _get_freezed_parts, _get_shadow_increment.
  fold (increment_file self).
  unfold bind at 1 2. rewrite H1. unfold ret at 1.
  by rewrite (bind_ok _ _ _ _ _ H2).
Qed.

Lemma emits_enumeration db t dir :
  emits is_part_read
    (let* parts := Sys.listdir dir in mapM (freezed_part_of db t dir) parts).
Proof.
  apply emits_bind; [emits_auto | intros parts].
  apply emits_mapM. intros n. apply emits_freezed_part_of.
Qed.

Lemma get_freezed_parts_enumerates self db t w c w1 rel w2 :
  Sys.read (increment_file self) w = (Ok c, w1) ->
  _get_table_data_relpath self db t w1 = (Ok rel, w2) ->
  enumerated_dirs (new_events w (snd (_get_freezed_parts self db t w)))
  = [snapshot_dir self (PyStr.strip c) rel].
Proof.
  intros H1 H2.
  assert (T1 : trace w1 = trace w ++ [EvRead (increment_file self) (Ok c)]).
  { unfold Sys.read in H1. destruct (Sys.stat w _) as [[]|]; inversion H1; by subst. }
  rewrite (get_freezed_parts_after self db t w c w1 rel w2 H1 H2). cbv zeta.
  set (dir := snapshot_dir self (PyStr.strip c) rel).
  destruct (emits_relpath_call self db t _ _ _ H2) as (d0 & T0 & F0 & _).
  unfold bind at 1, Sys.exists_.
  set (b := is_ok (Sys.stat w2 dir)). set (w4 := emit (EvExists dir b) w2).
  assert (Hd : exists d, trace (snd ((if negb b then ret []
                else let* parts := Sys.listdir dir in mapM (freezed_part_of db t dir) parts) w4))
                         = trace w4 ++ d /\ Forall (fun ev => is_part_read ev = true) d).
  { destruct (negb b).
    - exists []. by rewrite app_nil_r.
    - destruct ((let* parts := Sys.listdir dir in mapM (freezed_part_of db t dir) parts) w4)
        as [r w5] eqn:E.
      destruct (emits_enumeration db t dir _ _ _ E) as (d & T & F & _). by exists d. }
  destruct Hd as (d & T & F).
  erewrite new_events_app.
  2:{ rewrite T. subst w4. cbn [trace emit]. rewrite T0, T1. rewrite <- !app_assoc. reflexivity. }
  unfold enumerated_dirs. cbn [app omap list_omap]. rewrite !omap_app. cbn [app omap list_omap].
  fold (enumerated_dirs d0). fold (enumerated_dirs d).
  rewrite (enumerated_dirs_none is_relpath_call d0), (enumerated_dirs_none is_part_read d);
    [done | by intros [] | done | by intros [[]| | | | | | | |] | done].
Qed.

Lemma relpath_of_a_table_below self db t w P w1 a rest :
  PosixPath.isabs (cwd w) = true ->
  query (GET_TABLE_DATA_PATH_SQL db t) w = (Ok (VStr P), w1) ->
  P <> "" ->
  Sys.resolve (cwd w) P = Sys.resolve (cwd w) (_data_path self) ++ a :: rest ->
  Forall (fun n => Sys.valid_name n = true) (a :: rest)
  /\ exists w', _get_table_data_relpath self db t w = (Ok (PyStr.join_with "/" (a :: rest)), w').
Proof.
  intros Hc Hq Hp Hr.
  assert (Hv : Forall (fun n => Sys.valid_name n = true) (a :: rest)).
  { pose proof (norm_comps_valid (if PosixPath.isabs P then P else PosixPath.join (cwd w) [P])) as F.
    fold (Sys.resolve (cwd w) P) in F. rewrite Hr in F. by apply Forall_app in F as [_ F]. }
  split; [done|].
  unfold _get_table_data_relpath, _get_table_data_path. rewrite (bind_ok _ _ _ _ _ Hq).
  unfold Py.truthy. rewrite bool_decide_eq_false_2 by done. cbn [negb].
  unfold Py.as_str, bind at 1, ret at 1.
  apply query_ok in Hq as [_ Cq].
  destruct (relpath_below P (_data_path self) w1 a rest) as (w' & H & _);
    [by rewrite Cq | done | by rewrite Cq |].
  exists w'. rewrite H. do 2 f_equal. apply join_is_join_with.
  eapply Forall_impl; [exact Hv|]. intros n. apply valid_name_relative.
Qed.

(** X7: the snapshot directory mirrors the place of the table under the
    data directory.  When the path that the gateway gives for the table
    names the node reached from the data directory by the names
    [a :: rest], the relative path is these names joined by slashes, the
    one directory that the enumeration checks is the shadow directory
    joined with the marker, [data] and that relative path, and with a
    marker that is a plain name it names the node reached from the shadow
    directory by the marker, [data] and the same names. *)
Theorem snapshot_directory_mirrors_the_table self db t w c w1 P w2 a rest :
  PosixPath.isabs (cwd w) = true ->
  Sys.read (increment_file self) w = (Ok c, w1) ->
  query (GET_TABLE_DATA_PATH_SQL db t) w1 = (Ok (VStr P), w2) ->
  P <> "" ->
  Sys.resolve (cwd w) P = Sys.resolve (cwd w) (_data_path self) ++ a :: rest ->
  let rel := PyStr.join_with "/" (a :: rest) in
  let dir := snapshot_dir self (PyStr.strip c) rel in
  fst (_get_table_data_relpath self db t w1) = Ok rel
  /\ enumerated_dirs (new_events w (snd (_get_freezed_parts self db t w))) = [dir]
  /\ (Sys.valid_name (PyStr.strip c) = true ->
      Sys.resolve (cwd w) dir
      = Sys.resolve (cwd w) (_shadow_data_path self) ++ PyStr.strip c :: "data" :: a :: rest).
Proof.
  intros Hc H1 Hq Hp Hr rel dir.
  assert (T1 : trace w1 = trace w ++ [EvRead (increment_file self) (Ok c)] /\ cwd w1 = cwd w).
  { unfold Sys.read in H1. destruct (Sys.stat w _) as [[]|]; inversion H1; by subst. }
  destruct T1 as [T1 C1].
  destruct (relpath_of_a_table_below self db t w1 P w2 a rest) as (Hv & w3 & H2);
    [by rewrite C1 | done | done | by rewrite C1 |].
  fold rel in H2. split; [by rewrite H2|]. split.
  - by apply (get_freezed_parts_enumerates self db t w c w1 rel w3).
  - intros Hi. subst dir rel. unfold snapshot_dir.
    rewrite <- join_is_join_with
      by (eapply Forall_impl; [exact Hv|]; intros n; apply valid_name_relative).
    unfold PosixPath.join at 1. cbn [fold_left].
    rewrite join2_join
      by (eapply Forall_impl; [exact Hv|]; intros n; apply valid_name_relative).
    change (PosixPath.join (PosixPath.join2 (PosixPath.join2 (_shadow_data_path self) (PyStr.strip c)) "data")
              (a :: rest))
      with (PosixPath.join (_shadow_data_path self) (PyStr.strip c :: "data" :: a :: rest)).
    apply resolve_join_entries. constructor; [done|]. constructor; [reflexivity|]. exact Hv.
Qed.

Lemma snapshot_directory_mirrors_the_table_witness :
  let w := world "19.1.0" disk in
  PosixPath.isabs (cwd w) = true
  /\ Sys.resolve (cwd w) "/var/lib/clickhouse/data/db/t/"
     = Sys.resolve (cwd w) (_data_path ctl19) ++ ["db"; "t"]
  /\ enumerated_dirs (new_events w (snd (_get_freezed_parts ctl19 "db" "t" w)))
     = ["/var/lib/clickhouse/shadow/5/data/db/t"]
  /\ Sys.resolve (cwd w) "/var/lib/clickhouse/shadow/5/data/db/t"
     = ["var"; "lib"; "clickhouse"; "shadow"; "5"; "data"; "db"; "t"].
Proof.
  cbn zeta. set (w := world "19.1.0" disk).
  assert (Hr : Sys.resolve (cwd w) "/var/lib/clickhouse/data/db/t/"
               = Sys.resolve (cwd w) (_data_path ctl19) ++ ["db"; "t"])
    by (vm_compute; reflexivity).
  split; [reflexivity|]. split; [exact Hr|].
  destruct (snapshot_directory_mirrors_the_table ctl19 "db" "t" w
              ("5" +:+ newline) (snd (Sys.read (increment_file ctl19) w))
              "/var/lib/clickhouse/data/db/t/"
              (snd (query (GET_TABLE_DATA_PATH_SQL "db" "t")
                      (snd (Sys.read (increment_file ctl19) w))))
              "db" ["t"])
    as (_ & H2 & H3);
    [ reflexivity | apply run_eq; vm_compute; reflexivity
    | apply run_eq; vm_compute; reflexivity | done | exact Hr | ].
  split; [exact H2|]. exact (H3 eq_refl).
Defined.

(** ** The marker *)

Lemma is_digit_not_isspace c : PyStr.is_digit c = true -> PyStr.isspace c = false.
Proof.
  unfold PyStr.is_digit, PyStr.isspace. cbv zeta.
  set (n := Z.of_nat (nat_of_ascii c)). lia.
Qed.

Lemma lstrip_rev_digits s : forall acc,
  s <> "" ->
  forallb PyStr.is_digit (list_ascii_of_string s) = true ->
  PyStr.lstrip (String.rev_app s acc) = String.rev_app s acc.
Proof.
  induction s as [|c s IH]; intros acc Hne H; [done|].
  simpl in H. apply andb_prop in H as [Hc Hs]. simpl.
  destruct s as [|c' s'].
  - simpl. by rewrite (is_digit_not_isspace _ Hc).
  - by apply IH.
Qed.

Lemma strip_digits d n :
  PyStr.digits d = Some n -> PyStr.strip (d +:+ newline) = d.
Proof.
  intros Hd. assert (Hne : d <> "") by (by destruct d).
  assert (Hall : forallb PyStr.is_digit (list_ascii_of_string d) = true).
  { destruct d; [done|]. unfold PyStr.digits in Hd. by eapply digits_go_all. }
  unfold PyStr.strip.
  assert (H1 : PyStr.lstrip (d +:+ newline) = d +:+ newline).
  { destruct d as [|c d]; [done|]. rewrite str_app_cons. simpl. simpl in Hall.
    apply andb_prop in Hall as [Hc _]. by rewrite (is_digit_not_isspace _ Hc). }
  rewrite H1. unfold String.rev. rewrite rev_app_append. simpl.
  rewrite lstrip_rev_digits by done. rewrite rev_app_rev_app. simpl.
  unfold String.app. by rewrite str_app_nil_r.
Qed.

Lemma is_digit_not_sep c : PyStr.is_digit c = true -> negb (bool_decide (c = PosixPath.sep)) = true.
Proof.
  intros H. apply negb_true_iff, bool_decide_eq_false. intros ->. discriminate.
Qed.

Lemma digits_valid_name d n : PyStr.digits d = Some n -> Sys.valid_name d = true.
Proof.
  intros Hd. assert (Hne : d <> "") by (by destruct d).
  assert (Hall : forallb PyStr.is_digit (list_ascii_of_string d) = true).
  { destruct d; [done|]. unfold PyStr.digits in Hd. by eapply digits_go_all. }
  apply valid_name_parts. split; [done|]. split; [by intros ->|]. split; [by intros ->|].
  unfold sep_free. clear Hd Hne. induction d as [|c d IH]; [done|].
  cbn [list_ascii_of_string forallb] in *. apply andb_prop in Hall as [Hc Hs].
  by rewrite (is_digit_not_sep _ Hc), IH.
Qed.

(** X8: a marker file that holds a number and a newline gives the digits
    of the number as the marker, which is a plain name, and the directory
    that the enumeration checks is the shadow directory joined with these
    digits, [data] and the relative path of the table. *)
Theorem marker_is_the_number_in_the_file self db t w d n w1 :
  PyStr.digits d = Some n ->
  Sys.read (increment_file self) w = (Ok (d +:+ newline), w1) ->
  _get_shadow_increment self w = (Ok d, w1)
  /\ Sys.valid_name d = true
  /\ forall rel w2,
       _get_table_data_relpath self db t w1 = (Ok rel, w2) ->
       enumerated_dirs (new_events w (snd (_get_freezed_parts self db t w)))
       = [PosixPath.join (_shadow_data_path self) [d; "data"; rel]].
Proof.
  intros Hd H1. pose proof (strip_digits _ _ Hd) as Hs. split; [|split].
  - unfold _get_shadow_increment. fold (increment_file self).
    rewrite (bind_ok _ _ _ _ _ H1). unfold ret. by rewrite Hs.
  - by eapply digits_valid_name.
  - intros rel w2 H2.
    rewrite (get_freezed_parts_enumerates self db t w _ w1 rel w2 H1 H2). by rewrite Hs.
Qed.

Lemma marker_is_the_number_in_the_file_witness :
  let w := world "19.1.0" disk in
  PyStr.digits "5" = Some 5%Z
  /\ fst (_get_shadow_increment ctl19 w) = Ok "5"
  /\ Sys.valid_name "5" = true.
Proof.
  cbn zeta. set (w := world "19.1.0" disk).
  destruct (marker_is_the_number_in_the_file ctl19 "db" "t" w "5" 5
              (snd (Sys.read (increment_file ctl19) w)))
    as (H1 & H2 & _); [reflexivity | apply run_eq; vm_compute; reflexivity |].
  split; [reflexivity|]. split; [by rewrite H1 | exact H2].
Defined.

(** ** Artifacts and the guard of the teardown *)

Lemma prefix_app (p s x : string) : String.prefix p s = true -> String.prefix p (s +:+ x) = true.
Proof.
  revert s. induction p as [|c p IH]; intros s H.
  - by destruct (s +:+ x).
  - destruct s as [|d s]; [discriminate|]. rewrite str_app_cons.
    cbn [String.prefix] in *. destruct (ascii_dec c d); [by apply IH | done].
Qed.

Lemma join2_keeps_prefix root a b :
  PyStr.startswith a root = true -> PosixPath.isabs b = false ->
  PyStr.startswith (PosixPath.join2 a b) root = true.
Proof.
  unfold PosixPath.isabs, PosixPath.join2. intros Ha Hb. rewrite Hb.
  unfold PyStr.startswith in *. destruct (_ || _); by apply prefix_app.
Qed.

Lemma join_keeps_prefix root rest : forall a,
  PyStr.startswith a root = true -> Forall (fun b => PosixPath.isabs b = false) rest ->
  PyStr.startswith (PosixPath.join a rest) root = true.
Proof.
  induction rest as [|b rest IH]; intros a Ha Hr; [done|].
  apply Forall_cons in Hr as [Hb Hr]. unfold PosixPath.join. cbn [fold_left].
  apply IH; [by apply join2_keeps_prefix | done].
Qed.

Lemma get_freezed_parts_guarded self db t w parts w' :
  _get_freezed_parts self db t w = (Ok parts, w') ->
  exists d, trace w' = trace w ++ d
    /\ (Forall (fun ev => marker_ok self ev = true) d -> Forall (guarded self db t) parts).
Proof.
  intros H. apply get_freezed_parts_ok in H
    as (c & w1 & rel & w2 & H1 & H2 & _ & _ & _ & (d0 & T0 & _) & d & T & _ & A).
  cbn zeta in *. set (dir := snapshot_dir self (PyStr.strip c) rel) in *.
  exists (EvRead (increment_file self) (Ok c) :: d0
            ++ EvExists dir (is_ok (Sys.stat w2 dir)) :: d).
  split; [rewrite T, T0; by rewrite <- !app_assoc|].
  intros [Hm _]%Forall_cons. cbn [marker_ok] in Hm.
  rewrite bool_decide_eq_true_2 in Hm by done. cbn [negb orb] in Hm.
  apply negb_true_iff in Hm.
  destruct A as [(_ & -> & _) | (names & _ & _ & V & A)]; [constructor|].
  apply Forall_forall. intros p Hp. apply list_elem_of_lookup in Hp as [i Hi].
  destruct (Forall2_lookup_r _ _ _ _ _ A Hi) as (n & Hn & (Hd & Ht & _ & E & _)).
  split; [done|]. split; [done|]. rewrite E.
  assert (Vn : Sys.valid_name n = true).
  { rewrite Forall_forall in V. apply V. by eapply list_elem_of_lookup_2. }
  unfold dir, snapshot_dir. unfold PosixPath.join at 1. cbn [fold_left].
  apply join2_keeps_prefix; [|by apply valid_name_not_abs].
  apply join_keeps_prefix; [apply startswith_refl|].
  repeat constructor; [done | by eapply get_table_data_relpath_relative].
Qed.

Lemma freeze_table_compat_loop_guarded self db t ps : forall acc w parts w',
  _freeze_table_compat_loop self db t ps acc w = (Ok parts, w') ->
  exists d new, trace w' = trace w ++ d /\ parts = acc ++ new
    /\ (Forall (fun ev => marker_ok self ev = true) d -> Forall (guarded self db t) new).
Proof.
  induction ps as [|p ps IH]; intros acc w parts w' H; simpl in H.
  - inversion H; subst. exists [], []. rewrite !app_nil_r. by repeat split.
  - apply bind_inv in H as [(v & w1 & H1 & H) | (e & _ & ?)]; [|discriminate].
    apply query_ok in H1 as [T1 _].
    apply bind_inv in H as [(c & w2 & H2 & H) | (e & _ & ?)]; [|discriminate].
    apply get_freezed_parts_guarded in H2 as (d2 & T2 & G2).
    apply IH in H as (d3 & new & T3 & -> & G3).
    exists (EvQuery (FREEZE_PARTITION_SQL db t (p_name p)) (Ok v) :: d2 ++ d3), (c ++ new).
    split; [rewrite T3, T2, T1; by rewrite <- !app_assoc|].
    split; [by rewrite <- app_assoc|].
    intros [_ [F2 F3]%Forall_app]%Forall_cons. apply Forall_app. auto.
Qed.

Lemma freeze_table_guarded self db t w parts w' :
  freeze_table self db t w = (Ok parts, w') ->
  Forall (fun ev => marker_ok self ev = true) (new_events w w') ->
  Forall (guarded self db t) parts.
Proof.
  intros H. unfold freeze_table in H.
  apply bind_inv in H as [(whole & w1 & H1 & H) | (e & _ & ?)]; [|discriminate].
  pose proof (match_ch_version_world self "18.16.0" w) as Hw.
  rewrite H1 in Hw. simpl in Hw. subst w1. unfold new_events. destruct whole.
  - unfold _freeze_table in H.
    apply bind_inv in H as [(v & w1 & Hq & H) | (e & _ & ?)]; [|discriminate].
    apply query_ok in Hq as [T1 _].
    apply get_freezed_parts_guarded in H as (d & T & G).
    rewrite T, T1, <- app_assoc, drop_app_length.
    intros [_ F]%Forall_app. auto.
  - unfold _freeze_table_compat in H.
    apply bind_inv in H as [(ps & w0 & H0 & H) | (e & _ & ?)]; [|discriminate].
    destruct (emits_get_partitions self db t _ _ _ H0) as (d0 & T0 & _).
    apply freeze_table_compat_loop_guarded in H as (d & new & T & -> & G).
    rewrite T, T0, <- app_assoc, drop_app_length.
    intros [_ F]%Forall_app. simpl. auto.
Qed.

(** X9: an artifact that [freeze_table] returns carries the database and
    the table of the call, and, as long as no marker read during the call
    was an absolute path, a path that starts with the shadow directory:
    [remove_freezed_part] never refuses it with an [AssertionError]. *)
Theorem artifacts_pass_the_teardown_guard max_attempts self db t w parts w' p :
  freeze_table self db t w = (Ok parts, w') ->
  Forall (fun ev => marker_ok self ev = true) (new_events w w') ->
  p ∈ parts ->
  database p = db /\ table p = t
  /\ PyStr.startswith (path p) (_shadow_data_path self) = true
  /\ forall w0, fst (remove_freezed_part max_attempts self p w0) <> Raise AssertionError.
Proof.
  intros H Hm Hp. pose proof (freeze_table_guarded _ _ _ _ _ _ H Hm) as G.
  rewrite Forall_forall in G. destruct (G p Hp) as (Hd & Ht & Hs).
  split; [done|]. split; [done|]. split; [done|].
  intros w0 Hr. unfold remove_freezed_part, _remove_shadow_data, retry in Hr.
  fold (remove_attempt self (path p)) in Hr.
  destruct (retry_go _ _ _ w0) as [r w1] eqn:E. simpl in Hr. subst r.
  by apply retry_go_raises in E.
Qed.

Lemma Forall_of_forallb {A} (f : A -> bool) (l : list A) :
  forallb f l = true -> Forall (fun x => f x = true) l.
Proof.
  induction l as [|x l IH]; [constructor|].
  cbn [forallb]. intros [Hx Hl]%andb_prop. constructor; [done | by apply IH].
Qed.

Lemma artifacts_pass_the_teardown_guard_witness :
  let w := world "19.1.0" disk in
  freeze_table ctl19 "db" "t" w = (Ok [p2; p1], snd (freeze_table ctl19 "db" "t" w))
  /\ PyStr.startswith (path p1) (_shadow_data_path ctl19) = true
  /\ fst (remove_freezed_part 3 ctl19 p1 w) <> Raise AssertionError.
Proof.
  cbn zeta. set (w := world "19.1.0" disk).
  assert (H : freeze_table ctl19 "db" "t" w
              = (Ok [p2; p1], snd (freeze_table ctl19 "db" "t" w)))
    by (apply run_eq; vm_compute; reflexivity).
  assert (Hm : Forall (fun ev => marker_ok ctl19 ev = true)
                 (new_events w (snd (freeze_table ctl19 "db" "t" w))))
    by (apply Forall_of_forallb; vm_compute; reflexivity).
  assert (Hp : p1 ∈ [p2; p1]) by apply list_elem_of_further, list_elem_of_here.
  destruct (artifacts_pass_the_teardown_guard 3 ctl19 "db" "t" w _ _ p1 H Hm Hp)
    as (_ & _ & H3 & H4).
  split; [exact H|]. split; [exact H3 | exact (H4 w)].
Defined.

(** ** The catalogue of a snapshot directory *)

Lemma walk_snoc f rest : forall seen s o n,
  Sys.walk f seen rest = Ok (NDir s o) ->
  Sys.walk f seen (rest ++ [n]) =
    match f !! (seen ++ rest ++ [n])%list with
    | Some x => Ok x
    | None => Raise (OSError ENOENT)
    end.
Proof.
  induction rest as [|x rest IH]; intros seen s o n; simpl.
  - destruct (f !! seen) as [[]|] eqn:E; try discriminate. intros _. done.
  - destruct (f !! seen) as [[]|] eqn:E; try discriminate.
    intros H. rewrite (IH _ _ _ n H). by rewrite <- app_assoc.
Qed.

Lemma children_lookup (f : FS) d n : n ∈ Sys.children f d -> is_Some (f !! (d ++ [n])%list).
Proof.
  unfold Sys.children. intros (k & Hk & Hc)%list_elem_of_omap.
  apply child_of_Some in Hc as [-> _].
  apply list_elem_of_fmap in Hk as ([k' x] & -> & Hx). simpl.
  apply elem_of_map_to_list in Hx. by exists x.
Qed.

Lemma stat_entry w p n :
  is_dir w p = true -> n ∈ entries w p ->
  exists x, fs w !! (Sys.resolve (cwd w) p ++ [n])%list = Some x
            /\ Sys.stat w (PosixPath.join p [n]) = Ok x.
Proof.
  unfold is_dir, entries. intros Hd Hn.
  destruct (Sys.stat w p) as [[|s o]|] eqn:E; try discriminate.
  pose proof (children_valid _ _ _ Hn) as V.
  destruct (children_lookup _ _ _ Hn) as [x Hx]. exists x. split; [done|].
  unfold Sys.stat in *. rewrite resolve_join_entry by done.
  rewrite (walk_snoc _ _ _ _ _ n E). simpl. by rewrite Hx.
Qed.

Lemma get_part_size_loop_run part_path files : forall acc w,
  is_dir w part_path = true ->
  Forall (fun n => n ∈ entries w part_path) files ->
  exists w', _get_part_size_loop part_path files acc w
             = (Ok (acc + foldr Z.add 0 (map (entry_size w part_path) files))%Z, w')
             /\ fs w' = fs w /\ cwd w' = cwd w.
Proof.
  induction files as [|n files IH]; intros acc w Hd Hf; cbn [_get_part_size_loop map foldr].
  - exists w. by rewrite Z.add_0_r.
  - apply Forall_cons in Hf as [Hn Hf].
    destruct (stat_entry _ _ _ Hd Hn) as (x & Hx & Hs).
    unfold bind at 1, Sys.getsize at 1. rewrite Hs.
    set (w1 := emit _ w).
    destruct (IH (acc + node_size x)%Z w1) as (w' & H & F & C); [done | done |].
    exists w'. split; [|done].
    replace (match x with NFile c _ => Ok (Z.of_nat (String.length c)) | NDir s _ => Ok s end)
      with (@Ok Z (node_size x)) by by destruct x.
    rewrite H. f_equal. f_equal.
    change (entry_size w1 part_path) with (entry_size w part_path).
    assert (En : entry_size w part_path n = node_size x) by (unfold entry_size; by rewrite Hx).
    rewrite En. lia.
Qed.

Lemma read_errors p w e w' : Sys.read p w = (Raise e, w') -> is_OSError e = true.
Proof.
  unfold Sys.read. destruct (Sys.stat w p) as [[]|e0] eqn:E; intros H; inversion H; subst; try done.
  by destruct (walk_errors _ _ _ _ E) as [-> | ->].
Qed.

Lemma freezed_part_of_there db t dir n w p :
  artifact_at db t dir w n = Some p ->
  exists w', freezed_part_of db t dir n w = (Ok p, w') /\ fs w' = fs w /\ cwd w' = cwd w.
Proof.
  unfold artifact_at. cbv zeta. set (pp := PosixPath.join dir [n]).
  destruct (manifest_of w pp) as [m|] eqn:Em; [|discriminate].
  destruct (is_dir w pp) eqn:Ed; [|discriminate]. intros [= <-].
  unfold freezed_part_of. fold pp.
  unfold _get_part_checksum. unfold manifest_of in Em.
  unfold bind at 1 2, Sys.read.
  destruct (Sys.stat w (PosixPath.join pp ["checksums.txt"])) as [[c o|]|] eqn:Es; try discriminate.
  inversion Em; subst c. unfold ret at 1.
  set (w1 := emit _ w).
  unfold _get_part_size, bind at 1 2, Sys.listdir.
  assert (Ed1 : is_dir w1 pp = true) by done.
  unfold is_dir in Ed1. destruct (Sys.stat w1 pp) as [[|s o']|] eqn:Es1; try discriminate.
  set (w2 := emit _ w1).
  destruct (get_part_size_loop_run pp (Sys.children (fs w1) (Sys.resolve (cwd w1) pp)) 0%Z w2)
    as (w' & H & F & C).
  { done. }
  { apply Forall_forall. intros x Hx. exact Hx. }
  rewrite H. exists w'. split; [|done]. unfold ret. do 2 f_equal. 
Qed.

Lemma freezed_part_of_not_there db t dir n w :
  artifact_at db t dir w n = None ->
  exists e w', freezed_part_of db t dir n w = (Raise (OSError e), w').
Proof.
  unfold artifact_at. cbv zeta. set (pp := PosixPath.join dir [n]). intros H.
  unfold freezed_part_of. fold pp.
  destruct (_get_part_checksum pp w) as [[ck|e] w1] eqn:E1.
  - rewrite (bind_ok _ _ _ _ _ E1).
    destruct (get_part_checksum_ok _ _ _ _ E1) as (m & Hm & _). rewrite Hm in H.
    destruct (is_dir w pp) eqn:Ed; [discriminate|].
    assert (Ew : fs w1 = fs w /\ cwd w1 = cwd w).
    { unfold _get_part_checksum, bind, Sys.read in E1.
      destruct (Sys.stat w _) as [[]|]; inversion E1; by subst. }
    assert (Ed1 : is_dir w1 pp = false).
    { unfold is_dir, Sys.stat in *. destruct Ew as [-> ->]. done. }
    unfold _get_part_size, bind at 1 2, Sys.listdir. unfold is_dir in Ed1.
    destruct (Sys.stat w1 pp) as [[|]|e] eqn:Es; try discriminate; eauto.
    pose proof (stat_errors _ _ _ Es). destruct e; try discriminate. eauto.
  - rewrite (bind_raise _ _ _ _ _ E1).
    unfold _get_part_checksum in E1.
    apply bind_inv in E1 as [(c & w2 & _ & E1) | (e' & E1 & [= ->])]; [discriminate|].
    pose proof (read_errors _ _ _ _ E1). destruct e'; try discriminate. eauto.
Qed.

Lemma artifact_at_ext db t dir w1 w2 n :
  fs w1 = fs w2 -> cwd w1 = cwd w2 -> artifact_at db t dir w1 n = artifact_at db t dir w2 n.
Proof.
  intros F C. unfold artifact_at, manifest_of, is_dir, size_of_entries, entries, entry_size, Sys.stat.
  by rewrite F, C.
Qed.

Lemma mapM_artifacts_there db t dir names : forall w parts,
  Version.all_some (map (artifact_at db t dir w) names) = Some parts ->
  exists w', mapM (freezed_part_of db t dir) names w = (Ok parts, w')
             /\ fs w' = fs w /\ cwd w' = cwd w.
Proof.
  induction names as [|n names IH]; intros w parts H.
  - inversion H. by exists w.
  - cbn [map] in H. simpl in H.
    destruct (artifact_at db t dir w n) as [p|] eqn:E; [|discriminate].
    destruct (Version.all_some (map (artifact_at db t dir w) names)) as [ps|] eqn:Es; [|discriminate].
    inversion H; subst parts.
    destruct (freezed_part_of_there _ _ _ _ _ _ E) as (w1 & H1 & F1 & C1).
    destruct (IH w1 ps) as (w' & H2 & F2 & C2).
    { rewrite <- Es. f_equal. apply map_ext. intros a. by apply artifact_at_ext. }
    exists w'. cbn [mapM]. rewrite (bind_ok _ _ _ _ _ H1), (bind_ok _ _ _ _ _ H2).
    split; [done|]. split; congruence.
Qed.

Lemma mapM_artifacts_not_there db t dir names : forall w,
  Version.all_some (map (artifact_at db t dir w) names) = None ->
  exists e w', mapM (freezed_part_of db t dir) names w = (Raise (OSError e), w').
Proof.
  induction names as [|n names IH]; intros w H; [discriminate|].
  cbn [map] in H. simpl in H. cbn [mapM].
  destruct (artifact_at db t dir w n) as [p|] eqn:E.
  - destruct (freezed_part_of_there _ _ _ _ _ _ E) as (w1 & H1 & F1 & C1).
    rewrite (bind_ok _ _ _ _ _ H1).
    destruct (Version.all_some (map (artifact_at db t dir w) names)) as [ps|] eqn:Es; [discriminate|].
    destruct (IH w1) as (e & w' & H2).
    { rewrite <- Es. f_equal. apply map_ext. intros a. by apply artifact_at_ext. }
    exists e, w'. by rewrite (bind_raise _ _ _ _ _ H2).
  - destruct (freezed_part_of_not_there _ _ _ _ _ E) as (e & w' & H1).
    exists e, w'. by rewrite (bind_raise _ _ _ _ _ H1).
Qed.

Lemma get_freezed_parts_listed self db t w c w1 rel w2 s o :
  Sys.read (increment_file self) w = (Ok c, w1) ->
  _get_table_data_relpath self db t w1 = (Ok rel, w2) ->
  let dir := snapshot_dir self (PyStr.strip c) rel in
  Sys.stat w2 dir = Ok (NDir s o) ->
  _get_freezed_parts self db t w
  = mapM (freezed_part_of db t dir) (entries w2 dir)
      (emit (EvListdir dir (Ok (entries w2 dir))) (emit (EvExists dir true) w2)).
Proof.
  intros H1 H2 dir Es. rewrite (get_freezed_parts_after self db t w c w1 rel w2 H1 H2).
  cbv zeta. fold dir. unfold bind at 1, Sys.exists_. rewrite Es. cbn [is_ok negb].
  unfold bind, Sys.listdir.
  change (Sys.stat (emit (EvExists dir true) w2) dir) with (Sys.stat w2 dir). by rewrite Es.
Qed.

Lemma get_freezed_parts_catalogued self db t w c w1 rel w2 parts w' :
  Sys.read (increment_file self) w = (Ok c, w1) ->
  _get_table_data_relpath self db t w1 = (Ok rel, w2) ->
  _get_freezed_parts self db t w = (Ok parts, w') ->
  let dir := snapshot_dir self (PyStr.strip c) rel in
  fs w' = fs w2 /\ cwd w' = cwd w2
  /\ (is_ok (Sys.stat w2 dir) = false /\ parts = []
      \/ is_dir w2 dir = true /\ catalogue db t dir w2 = Some parts).
Proof.
  intros H1 H2 H dir.
  destruct (Sys.stat w2 dir) as [[content owner|s o]|e] eqn:Es.
  - exfalso. rewrite (get_freezed_parts_after self db t w c w1 rel w2 H1 H2) in H.
    cbv zeta in H. fold dir in H. unfold bind at 1, Sys.exists_ in H. rewrite Es in H.
    cbn [is_ok negb] in H. unfold bind, Sys.listdir in H.
    change (Sys.stat (emit (EvExists dir true) w2) dir) with (Sys.stat w2 dir) in H.
    rewrite Es in H. discriminate.
  - rewrite (get_freezed_parts_listed self db t w c w1 rel w2 s o H1 H2 Es) in H. fold dir in H.
    assert (Hdir : is_dir w2 dir = true) by (unfold is_dir; by rewrite Es).
    destruct (catalogue db t dir w2) as [ps|] eqn:Ec.
    + destruct (mapM_artifacts_there db t dir (entries w2 dir)
                  (emit (EvListdir dir (Ok (entries w2 dir))) (emit (EvExists dir true) w2)) ps)
        as (w'' & H' & F & C); [exact Ec|].
      rewrite H' in H. inversion H; subst. split; [exact F|]. split; [exact C|]. by right.
    + destruct (mapM_artifacts_not_there db t dir (entries w2 dir)
                  (emit (EvListdir dir (Ok (entries w2 dir))) (emit (EvExists dir true) w2)))
        as (e & w'' & H'); [exact Ec|].
      rewrite H' in H. discriminate.
  - rewrite (get_freezed_parts_after self db t w c w1 rel w2 H1 H2) in H.
    cbv zeta in H. fold dir in H. unfold bind at 1, Sys.exists_ in H. rewrite Es in H.
    cbn [is_ok negb] in H. inversion H; subst. split; [done|]. split; [done|]. by left.
Qed.

(** X10: what the enumeration of a snapshot directory comes to, once the
    marker is read and the table's path resolved.  When the directory is
    there and every entry of it is a directory that holds a
    [checksums.txt], the result is the catalogue: one artifact per entry,
    in the order of the listing; when the directory is absent the result
    is the empty list.  When some entry is not such a directory,
    a stray file or a part without its manifest, the whole enumeration
    raises an [OSError]; so it does, with [NotADirectoryError], when the
    snapshot directory itself is a file.  And a list is returned in no
    other case than these: the directory absent and the list empty, or the
    catalogue. *)
Theorem enumeration_of_a_directory self db t w c w1 rel w2 :
  Sys.read (increment_file self) w = (Ok c, w1) ->
  _get_table_data_relpath self db t w1 = (Ok rel, w2) ->
  let dir := snapshot_dir self (PyStr.strip c) rel in
  let run := _get_freezed_parts self db t w in
  (is_ok (Sys.stat w2 dir) = false -> fst run = Ok [])
  /\ (forall parts, is_dir w2 dir = true -> catalogue db t dir w2 = Some parts ->
     fst run = Ok parts)
  /\ (is_dir w2 dir = true -> catalogue db t dir w2 = None ->
      exists e, fst run = Raise (OSError e))
  /\ (forall content owner, Sys.stat w2 dir = Ok (NFile content owner) ->
      fst run = Raise (OSError ENOTDIR))
  /\ (forall parts, fst run = Ok parts ->
      is_ok (Sys.stat w2 dir) = false /\ parts = []
      \/ is_dir w2 dir = true /\ catalogue db t dir w2 = Some parts).
Proof.
  intros H1 H2 dir run. split; [|split; [|split; [|split]]].
  - intros Ha. subst run.
    rewrite (get_freezed_parts_after self db t w c w1 rel w2 H1 H2).
    cbv zeta. fold dir. unfold bind at 1, Sys.exists_. by rewrite Ha.
  - intros parts Hdir Hc. unfold is_dir in Hdir.
    destruct (Sys.stat w2 dir) as [[|s o]|] eqn:Es; try discriminate.
    subst run. rewrite (get_freezed_parts_listed self db t w c w1 rel w2 s o H1 H2 Es). fold dir.
    destruct (mapM_artifacts_there db t dir (entries w2 dir)
                (emit (EvListdir dir (Ok (entries w2 dir))) (emit (EvExists dir true) w2)) parts)
      as (w' & H & _); [exact Hc|].
    by rewrite H.
  - intros Hdir Hc. unfold is_dir in Hdir.
    destruct (Sys.stat w2 dir) as [[|s o]|] eqn:Es; try discriminate.
    subst run. rewrite (get_freezed_parts_listed self db t w c w1 rel w2 s o H1 H2 Es). fold dir.
    destruct (mapM_artifacts_not_there db t dir (entries w2 dir)
                (emit (EvListdir dir (Ok (entries w2 dir))) (emit (EvExists dir true) w2)))
      as (e & w' & H); [exact Hc|].
    rewrite H. by exists e.
  - intros content owner Es. subst run.
    rewrite (get_freezed_parts_after self db t w c w1 rel w2 H1 H2).
    cbv zeta. fold dir. unfold bind at 1, Sys.exists_. rewrite Es. cbn [is_ok negb].
    unfold bind, Sys.listdir.
    change (Sys.stat (emit (EvExists dir true) w2) dir) with (Sys.stat w2 dir). by rewrite Es.
  - intros parts Hok. subst run.
    destruct (_get_freezed_parts self db t w) as [r w'] eqn:E. simpl in Hok. subst r.
    by destruct (get_freezed_parts_catalogued self db t w c w1 rel w2 parts w' H1 H2 E)
      as (_ & _ & ?).
Qed.

Lemma enumeration_of_a_directory_witness :
  let w := world "19.1.0" disk in
  let dir := "/var/lib/clickhouse/shadow/5/data/db/t" in
  Sys.read (increment_file ctl19) w
  = (Ok ("5" +:+ newline), snd (Sys.read (increment_file ctl19) w))
  /\ catalogue "db" "t" dir w = Some [p2; p1]
  /\ fst (_get_freezed_parts ctl19 "db" "t" w) = Ok [p2; p1].
Proof.
  cbn zeta. set (w := world "19.1.0" disk).
  set (w1 := snd (Sys.read (increment_file ctl19) w)).
  set (w2 := snd (_get_table_data_relpath ctl19 "db" "t" w1)).
  assert (H1 : Sys.read (increment_file ctl19) w = (Ok ("5" +:+ newline), w1))
    by (apply run_eq; vm_compute; reflexivity).
  assert (H2 : _get_table_data_relpath ctl19 "db" "t" w1 = (Ok "db/t", w2))
    by (apply run_eq; vm_compute; reflexivity).
  assert (Hc : catalogue "db" "t" "/var/lib/clickhouse/shadow/5/data/db/t" w = Some [p2; p1])
    by (vm_compute; reflexivity).
  split; [exact H1|]. split; [exact Hc|].
  destruct (enumeration_of_a_directory ctl19 "db" "t" w _ w1 _ w2 H1 H2) as (_ & H & _).
  apply H; [vm_compute; reflexivity | exact Hc].
Defined.

(** A file beside the parts, and the enumeration fails on it. *)
Example stray_file_fails_the_enumeration :
  catalogue "db" "t" "/var/lib/clickhouse/shadow/5/data/db/t" (world "19.1.0" stray_disk) = None
  /\ fst (_get_freezed_parts ctl19 "db" "t" (world "19.1.0" stray_disk))
     = Raise (OSError ENOTDIR).
Proof. split; vm_compute; reflexivity. Qed.

Lemma all_some_elem {A B} (f : A -> option B) l : forall ys y,
  Version.all_some (map f l) = Some ys -> y ∈ ys -> exists x, x ∈ l /\ f x = Some y.
Proof.
  induction l as [|x l IH]; intros ys y H Hy.
  - inversion H; subst. by apply elem_of_nil in Hy.
  - cbn [map] in H. simpl in H. destruct (f x) as [b|] eqn:E; [|discriminate].
    destruct (Version.all_some (map f l)) as [bs|] eqn:Es; [|discriminate].
    inversion H; subst. apply elem_of_cons in Hy as [-> | Hy].
    + exists x. split; [left | done].
    + destruct (IH bs y eq_refl Hy) as (x' & ? & ?). exists x'. split; [by right | done].
Qed.

Lemma size_of_entries_ext w1 w2 p :
  fs w1 = fs w2 -> cwd w1 = cwd w2 -> size_of_entries w1 p = size_of_entries w2 p.
Proof. intros F C. unfold size_of_entries, entries, entry_size. by rewrite F, C. Qed.

(** X11: the size of an artifact is the sum of the sizes of the entries of
    its directory, each entry counted as the node it is: a file by its
    length, a directory by the size of the directory itself and not by what
    lies below it. *)
Theorem artifact_size_counts_the_entries self db t w parts w' p :
  _get_freezed_parts self db t w = (Ok parts, w') ->
  p ∈ parts ->
  size p = size_of_entries w' (path p).
Proof.
  intros H Hp. destruct (get_freezed_parts_ok _ _ _ _ _ _ H)
    as (c & w1 & rel & w2 & H1 & H2 & _).
  destruct (get_freezed_parts_catalogued self db t w c w1 rel w2 parts w' H1 H2 H)
    as (F & C & [(_ & ->) | (_ & Hc)]).
  - by apply elem_of_nil in Hp.
  - destruct (all_some_elem _ _ _ _ Hc Hp) as (n & _ & Hn).
    unfold artifact_at in Hn. cbv zeta in Hn.
    destruct (manifest_of w2 _); [|discriminate]. destruct (is_dir w2 _); [|discriminate].
    inversion Hn; subst p. simpl. by apply size_of_entries_ext.
Qed.

Lemma artifact_size_counts_the_entries_witness :
  let w := world "19.1.0" nested_disk in
  let part := mkFreezedPart "db" "t" "p1" p1_path "900150983cd24fb0d6963f7d28e17f72" 77 in
  fst (_get_freezed_parts ctl19 "db" "t" w) = Ok [p2; part]
  /\ size part = size_of_entries (snd (_get_freezed_parts ctl19 "db" "t" w)) (path part)
  /\ entries w (path part) = ["checksums.txt"; "data.bin"; "sub"].
Proof.
  cbn zeta. set (w := world "19.1.0" nested_disk).
  set (part := mkFreezedPart "db" "t" "p1" p1_path "900150983cd24fb0d6963f7d28e17f72" 77).
  assert (H : _get_freezed_parts ctl19 "db" "t" w
              = (Ok [p2; part], snd (_get_freezed_parts ctl19 "db" "t" w)))
    by (apply run_eq; vm_compute; reflexivity).
  split; [by rewrite H|]. split; [|vm_compute; reflexivity].
  apply (artifact_size_counts_the_entries ctl19 "db" "t" w [p2; part] _ part H).
  apply list_elem_of_further, list_elem_of_here.
Defined.

(** ** What a removal takes away *)

(** X12: with no fault pending, the removal of an artifact whose path is a
    directory and passes the guard goes through at the first attempt, with
    one call of [rmtree]: afterwards the path is gone, so is every node
    below it, and every node that is not below it is as it was. *)
Theorem removal_takes_the_target_only max_attempts self part w s o :
  rmtree_faults w = [] ->
  PyStr.startswith (path part) (_shadow_data_path self) = true ->
  Sys.stat w (path part) = Ok (NDir s o) ->
  let run := remove_freezed_part max_attempts self part w in
  let target := Sys.resolve (cwd w) (path part) in
  fst run = Ok tt
  /\ new_events w (snd run) = [EvRmtree (path part) (Ok tt)]
  /\ Sys.stat (snd run) (path part) = Raise (OSError ENOENT)
  /\ (forall k, Sys.under target k = true -> fs (snd run) !! k = None)
  /\ (forall k, Sys.under target k = false -> fs (snd run) !! k = fs w !! k).
Proof.
  intros Hf Hs Hd run target. subst run.
  unfold remove_freezed_part, _remove_shadow_data, retry.
  fold (remove_attempt self (path part)).
  rewrite (retry_go_first_ok _ _ _ _ _ _ (remove_attempt_dir _ _ _ _ _ Hs Hf Hd)).
  cbn [fst snd]. split; [done|]. split; [by apply new_events_app|]. split.
  - unfold Sys.stat. cbn [fs cwd emit set_fs]. by eapply stat_after_removal.
  - cbn [fs emit set_fs]. fold target. split; intros k Hk.
    + apply map_lookup_filter_None_2. right. intros x _. cbn [fst]. by rewrite Hk.
    + destruct (fs w !! k) as [x|] eqn:E.
      * by apply map_lookup_filter_Some_2.
      * apply map_lookup_filter_None_2. by left.
Qed.

Lemma removal_takes_the_target_only_witness :
  let w := faulty_world [] in
  Sys.stat w (path p1) = Ok plain_dir
  /\ fst (remove_freezed_part 3 ctl19 p1 w) = Ok tt
  /\ Sys.stat (snd (remove_freezed_part 3 ctl19 p1 w)) (path p1) = Raise (OSError ENOENT)
  /\ fs (snd (remove_freezed_part 3 ctl19 p1 w)) !! (frozen ++ ["p2"; "data.bin"])
     = Some (NFile "something else" root_owner).
Proof.
  cbn zeta.
  assert (Hs : Sys.stat (faulty_world []) (path p1) = Ok (NDir 4096 root_owner))
    by (vm_compute; reflexivity).
  destruct (removal_takes_the_target_only 3 ctl19 p1 (faulty_world []) 4096 root_owner
              eq_refl eq_refl Hs) as (H1 & _ & H3 & _ & H5).
  split; [exact Hs|]. split; [exact H1|]. split; [exact H3|].
  rewrite H5; vm_compute; reflexivity.
Defined.

(** ** The detached directory *)

(** X13: the detached directory of a table is the path that the gateway
    gives for the table joined with [detached], and the path of a detached
    part with a plain name is the entry of that name in it.  A part name
    that is an absolute path is returned as it is, the table's directory
    dropped. *)
Theorem detached_part_path_is_an_entry self db t part_name w dp w1 :
  query (GET_TABLE_DATA_PATH_SQL db t) w = (Ok (VStr dp), w1) ->
  _get_table_detached_path self db t w = (Ok (PosixPath.join dp ["detached"]), w1)
  /\ (Sys.valid_name part_name = true ->
      get_detached_part_path self db t part_name w
      = (Ok (PosixPath.join dp ["detached"; part_name]), w1)
      /\ Sys.resolve (cwd w1) (PosixPath.join dp ["detached"; part_name])
         = Sys.resolve (cwd w1) dp ++ ["detached"; part_name])
  /\ (PosixPath.isabs part_name = true ->
      get_detached_part_path self db t part_name w = (Ok part_name, w1)).
Proof.
  intros Hq.
  assert (Hd : _get_table_detached_path self db t w = (Ok (PosixPath.join dp ["detached"]), w1)).
  { unfold _get_table_detached_path, _get_table_data_path. by rewrite (bind_ok _ _ _ _ _ Hq). }
  split; [done|]. unfold get_detached_part_path. rewrite (bind_ok _ _ _ _ _ Hd). split.
  - intros Hv. split; [done|].
    change (PosixPath.join dp ["detached"; part_name])
      with (PosixPath.join (PosixPath.join dp ["detached"]) [part_name]).
    rewrite resolve_join_entry by done.
    rewrite (resolve_join_entry _ dp "detached") by reflexivity. by rewrite <- app_assoc.
  - intros Ha. unfold ret, PosixPath.join. cbn [fold_left]. unfold PosixPath.join2 at 1.
    unfold PosixPath.isabs in Ha. by rewrite Ha.
Qed.

Lemma detached_part_path_is_an_entry_witness :
  let w := world "19.1.0" disk in
  fst (query (GET_TABLE_DATA_PATH_SQL "db" "t") w) = Ok (VStr "/var/lib/clickhouse/data/db/t/")
  /\ fst (get_detached_part_path ctl19 "db" "t" "p0" w)
     = Ok "/var/lib/clickhouse/data/db/t/detached/p0"
  /\ fst (get_detached_part_path ctl19 "db" "t" "/etc" w) = Ok "/etc".
Proof.
  cbn zeta. set (w := world "19.1.0" disk).
  destruct (detached_part_path_is_an_entry ctl19 "db" "t" "p0" w
              "/var/lib/clickhouse/data/db/t/"
              (snd (query (GET_TABLE_DATA_PATH_SQL "db" "t") w)) eq_refl) as (_ & H & _).
  destruct (detached_part_path_is_an_entry ctl19 "db" "t" "/etc" w
              "/var/lib/clickhouse/data/db/t/"
              (snd (query (GET_TABLE_DATA_PATH_SQL "db" "t") w)) eq_refl) as (_ & _ & H').
  split; [reflexivity|]. split.
  - destruct (H eq_refl) as [-> _]. reflexivity.
  - by rewrite (H' eq_refl).
Defined.

(** ** The form of a checksum *)

Lemma le_bytes_length k : forall n, length (MD5.le_bytes k n) = k.
Proof. induction k as [|k IH]; intros n; [done|]. simpl. by rewrite IH. Qed.

Lemma le_bytes_range k : forall n, Forall (fun b => (0 <= b < 256)%Z) (MD5.le_bytes k n).
Proof.
  induction k as [|k IH]; intros n; [constructor|]. cbn [MD5.le_bytes].
  constructor; [|apply IH].
  change 255%Z with (Z.ones 8). rewrite Z.land_ones by lia.
  change (2 ^ 8)%Z with 256%Z. apply Z.mod_pos_bound. lia.
Qed.

Lemma digest_bytes msg :
  length (MD5.digest msg) = 16%nat /\ Forall (fun b => (0 <= b < 256)%Z) (MD5.digest msg).
Proof.
  unfold MD5.digest. cbv zeta. destruct (MD5.blocks _ _ _) as [a b c d].
  split.
  - by rewrite !length_app, !le_bytes_length.
  - repeat (apply Forall_app; split); apply le_bytes_range.
Qed.

Lemma hex_digit_lower n : (0 <= n < 16)%Z -> is_lower_hex (MD5.hex_digit n) = true.
Proof.
  intros H.
  assert (Hall : forallb (fun k => is_lower_hex (MD5.hex_digit (Z.of_nat k))) (seq 0 16) = true)
    by reflexivity.
  rewrite forallb_forall in Hall. specialize (Hall (Z.to_nat n)).
  rewrite Z2Nat.id in Hall by lia. apply Hall. apply in_seq. lia.
Qed.

Lemma hex_format bs :
  Forall (fun b => (0 <= b < 256)%Z) bs ->
  String.length (MD5.hex bs) = (2 * length bs)%nat
  /\ forallb is_lower_hex (list_ascii_of_string (MD5.hex bs)) = true.
Proof.
  induction 1 as [|b bs Hb _ [IH1 IH2]]; [done|].
  cbn [MD5.hex String.length list_ascii_of_string forallb length].
  split; [rewrite IH1; lia|].
  rewrite IH2, !hex_digit_lower; [done | |].
  - change 15%Z with (Z.ones 4). rewrite Z.land_ones by lia. apply Z.mod_pos_bound. lia.
  - rewrite Z.shiftr_div_pow2 by lia. change (2 ^ 4)%Z with 16%Z.
    split; [apply Z.div_pos; lia | apply Z.div_lt_upper_bound; lia].
Qed.

(** X14: a checksum that [_get_part_checksum] returns is 32 characters
    long, each a digit or a letter from [a] to [f]. *)
Theorem checksum_is_32_hex_digits part_path w ck w' :
  _get_part_checksum part_path w = (Ok ck, w') ->
  String.length ck = 32%nat
  /\ forallb is_lower_hex (list_ascii_of_string ck) = true.
Proof.
  intros H. destruct (get_part_checksum_ok _ _ _ _ H) as (m & _ & ->).
  unfold MD5.hexdigest. destruct (digest_bytes m) as [L R].
  destruct (hex_format _ R) as [H1 H2]. by rewrite H1, L.
Qed.

Lemma checksum_is_32_hex_digits_witness :
  let w := world "19.1.0" disk in
  fst (_get_part_checksum p1_path w) = Ok "900150983cd24fb0d6963f7d28e17f72"
  /\ String.length "900150983cd24fb0d6963f7d28e17f72" = 32%nat.
Proof.
  cbn zeta. set (w := world "19.1.0" disk).
  assert (H : _get_part_checksum p1_path w
              = (Ok "900150983cd24fb0d6963f7d28e17f72", snd (_get_part_checksum p1_path w)))
    by (apply run_eq; vm_compute; reflexivity).
  split; [by rewrite H|].
  by destruct (checksum_is_32_hex_digits _ _ _ _ H) as [? _].
Defined.
